(** * Desqueeze server: a shallow embedding of [server.js]

    The development follows the source file:

    - [JSNumber]: the ECMAScript Number values the handler computes
      with (IEEE 754 binary64, round to nearest, ties to even), with the
      operators and the [Math] functions the source uses;
    - [JSString]: [parseInt], [parseFloat], [String(n)], [trim], the two
      regular expressions of the source, [encodeURIComponent] and
      [path.join];
    - [Server]: [probeDuration] and the [POST /upload] handler, as
      functions of the request and of the events the two child
      processes deliver, over a state made of the HTTP response and the
      file system; the route with the upload middleware in front of
      the handler;
    - [Filter]: the filter expression the handler passes to the
      encoder, with the value the encoder computes from it.

    The facts and the properties of the specification come after the
    definitions, and further properties of the code after those; the
    properties of the specification that rest on these come last. *)

From Stdlib Require Import ZArith QArith Qpower Qround Bool List String Ascii.
From Stdlib Require Import Lia.
From Stdlib Require Import DecimalString.
From Stdlib Require DecimalFacts DecimalPos.
From Stdlib Require Import PrimFloat FloatOps SpecFloat.
Import ListNotations.

Local Open Scope Z_scope.

(* ================================================================== *)
(** * ECMAScript numbers *)
(* ================================================================== *)

Module JSNumber.

(** A Number is NaN, an infinity, a signed zero, or a non-zero finite
    value [(-1)^neg * m * 2^e].  The operations below always build the
    finite values with an odd mantissa, so that a value has one
    representation. *)
Inductive number : Type :=
| NaN
| Inf (neg : bool)
| Zero (neg : bool)
| Fin (neg : bool) (m : positive) (e : Z).

(** Binary64 parameters: 53 bits of precision, least exponent of a
    subnormal mantissa bit [2^-1074], overflow threshold [2^1024]. *)
Definition prec : Z := 53.
Definition emin : Z := -1074.
Definition emax : Z := 1024.

(** [2^e] as a rational, for any integer [e]. *)
Definition pow2 (e : Z) : Q := (2 ^ e)%Q.

(** The mathematical value of a number; NaN and the infinities have
    none and are sent to 0 (every use checks the constructor first). *)
Definition F2Q (neg : bool) (m : positive) (e : Z) : Q :=
  ((if neg then inject_Z (Zneg m) else inject_Z (Zpos m)) * pow2 e)%Q.

Definition to_Q (x : number) : Q :=
  match x with
  | Fin neg m e => F2Q neg m e
  | _ => 0%Q
  end.

(** Strip the trailing zero bits of a mantissa. *)
Fixpoint strip (m : positive) (e : Z) : positive * Z :=
  match m with
  | xO m' => strip m' (e + 1)
  | _ => (m, e)
  end.

Definition mkFin (neg : bool) (m : positive) (e : Z) : number :=
  let (m', e') := strip m e in Fin neg m' e'.

(** The Number for an integer that needs no rounding. *)
Definition of_Z (z : Z) : number :=
  match z with
  | Z0 => Zero false
  | Zpos p => mkFin false p 0
  | Zneg p => mkFin true p 0
  end.

(** Round to nearest, ties to even: [q] and [r] are the quotient and
    the remainder of a division by [den]. *)
Definition round_half_even (q r den : Z) : Z :=
  match 2 * r ?= den with
  | Lt => q
  | Gt => q + 1
  | Eq => if Z.even q then q else q + 1
  end.

(** [floor (log2 (n / d))] for positive [n] and [d]. *)
Definition log2_ratio (n d : positive) : Z :=
  let l := Z.log2 (Zpos n) - Z.log2 (Zpos d) in
  if 0 <=? l
  then (if Zpos d * 2 ^ l <=? Zpos n then l else l - 1)
  else (if Zpos d <=? Zpos n * 2 ^ (- l) then l else l - 1).

(** The binary64 nearest to [(-1)^neg * (n / d) * 2^e].  The exponent
    [E] of the last mantissa bit is the one that leaves 53 bits, or
    [emin] in the subnormal range; a rounded value of [2^emax] or more
    is an infinity, a rounded mantissa of 0 a zero. *)
Definition round_ratio (neg : bool) (n d : positive) (e : Z) : number :=
  let E := Z.max emin (log2_ratio n d + e - (prec - 1)) in
  let sh := e - E in
  let num := if 0 <=? sh then Zpos n * 2 ^ sh else Zpos n in
  let den := if 0 <=? sh then Zpos d else Zpos d * 2 ^ (- sh) in
  let M := round_half_even (num / den) (num mod den) den in
  match M with
  | Zpos p =>
      if emax <=? Z.log2 M + E then Inf neg else mkFin neg p E
  | _ => Zero neg
  end.

Definition round_dyadic (neg : bool) (m : positive) (e : Z) : number :=
  round_ratio neg m 1 e.

(** The exponent [E] and the rounded mantissa [M] of [round_ratio], on
    their own. *)
Definition rounding_exponent (n d : positive) (e : Z) : Z :=
  Z.max emin (log2_ratio n d + e - (prec - 1)).

Definition rounded_mantissa (n d : positive) (e : Z) : Z :=
  let E := rounding_exponent n d e in
  let sh := e - E in
  let num := if 0 <=? sh then Zpos n * 2 ^ sh else Zpos n in
  let den := if 0 <=? sh then Zpos d else Zpos d * 2 ^ (- sh) in
  round_half_even (num / den) (num mod den) den.

(** ** Arithmetic: [*], [+], [/] *)

Definition mul (x y : number) : number :=
  match x, y with
  | NaN, _ | _, NaN => NaN
  | Inf a, Inf b => Inf (xorb a b)
  | Inf a, Zero _ | Zero _, Inf a => NaN
  | Inf a, Fin b _ _ | Fin a _ _, Inf b => Inf (xorb a b)
  | Zero a, Zero b => Zero (xorb a b)
  | Zero a, Fin b _ _ | Fin a _ _, Zero b => Zero (xorb a b)
  | Fin a m1 e1, Fin b m2 e2 => round_dyadic (xorb a b) (m1 * m2) (e1 + e2)
  end.

Definition add (x y : number) : number :=
  match x, y with
  | NaN, _ | _, NaN => NaN
  | Inf a, Inf b => if Bool.eqb a b then Inf a else NaN
  | Inf a, _ => Inf a
  | _, Inf b => Inf b
  | Zero a, Zero b => Zero (andb a b)
  | Zero _, Fin _ _ _ => y
  | Fin _ _ _, Zero _ => x
  | Fin a m1 e1, Fin b m2 e2 =>
      let e := Z.min e1 e2 in
      let s1 := (if a then Zneg m1 else Zpos m1) * 2 ^ (e1 - e) in
      let s2 := (if b then Zneg m2 else Zpos m2) * 2 ^ (e2 - e) in
      match s1 + s2 with
      | Z0 => Zero false
      | Zpos p => round_dyadic false p e
      | Zneg p => round_dyadic true p e
      end
  end.

Definition div (x y : number) : number :=
  match x, y with
  | NaN, _ | _, NaN => NaN
  | Inf _, Inf _ => NaN
  | Inf a, Zero b | Inf a, Fin b _ _ => Inf (xorb a b)
  | Zero a, Inf b | Fin a _ _, Inf b => Zero (xorb a b)
  | Zero _, Zero _ => NaN
  | Zero a, Fin b _ _ => Zero (xorb a b)
  | Fin a _ _, Zero b => Inf (xorb a b)
  | Fin a m1 e1, Fin b m2 e2 => round_ratio (xorb a b) m1 m2 (e1 - e2)
  end.

(** ** Comparison

    [compare x y] is [None] when an operand is NaN; the two zeros are
    equal. *)
Definition compare (x y : number) : option comparison :=
  match x, y with
  | NaN, _ | _, NaN => None
  | Inf a, Inf b =>
      Some (if Bool.eqb a b then Eq else if a then Lt else Gt)
  | Inf a, _ => Some (if a then Lt else Gt)
  | _, Inf b => Some (if b then Gt else Lt)
  | _, _ => Some (to_Q x ?= to_Q y)%Q
  end.

(** [x < y], [x > y], [x === y], [x !== y]. *)
Definition lt (x y : number) : bool :=
  match compare x y with Some Lt => true | _ => false end.
Definition gt (x y : number) : bool := lt y x.
Definition le (x y : number) : bool :=
  match compare x y with Some Lt | Some Eq => true | _ => false end.
Definition strict_eq (x y : number) : bool :=
  match compare x y with Some Eq => true | _ => false end.
Definition strict_neq (x y : number) : bool := negb (strict_eq x y).

(** ** The [Math] functions and globals of the source *)

Definition is_neg_zero (x : number) : bool :=
  match x with Zero true => true | _ => false end.

(** [Math.max(x, y)]: NaN if an operand is; [+0] is larger than [-0]. *)
Definition Math_max (x y : number) : number :=
  match compare x y with
  | None => NaN
  | Some Lt => y
  | Some Gt => x
  | Some Eq => if is_neg_zero x then y else x
  end.

(** [Math.min(x, y)]: NaN if an operand is; [-0] is smaller than [+0]. *)
Definition Math_min (x y : number) : number :=
  match compare x y with
  | None => NaN
  | Some Lt => x
  | Some Gt => y
  | Some Eq => if is_neg_zero x then x else y
  end.

(** [Math.floor(x)]: the integer part, rounding towards minus
    infinity, of a finite non-zero value.  The result is an integer of
    at most the magnitude of [x], hence a Number without rounding;
    values in (0,1) give [+0]. *)
Definition Math_floor (x : number) : number :=
  match x with
  | Fin neg m e => of_Z (Qfloor (F2Q neg m e))
  | _ => x
  end.

(** Rounding towards zero, the [trunc] of the filter expression: the
    integer part of the magnitude, with the sign kept. *)
Definition trunc (x : number) : number :=
  match x with
  | Fin neg m e =>
      match Qfloor (F2Q false m e) with
      | Zpos p => mkFin neg p 0
      | _ => Zero neg
      end
  | _ => x
  end.

(** The global [isFinite]. *)
Definition isFinite (x : number) : bool :=
  match x with
  | Zero _ | Fin _ _ _ => true
  | _ => false
  end.

(** [ToBoolean] on a Number: the zeros and NaN are falsy. *)
Definition truthy (x : number) : bool :=
  match x with
  | NaN | Zero _ => false
  | _ => true
  end.

(** The finite values of binary64, in the representation used here:
    an odd mantissa of at most 53 bits, no bit below [2^emin], a
    magnitude below [2^emax]. *)
Definition binary64 (x : number) : Prop :=
  match x with
  | Fin _ m e =>
      Zpos m < 2 ^ prec /\ emin <= e /\ Z.log2 (Zpos m) + e < emax
      /\ Z.odd (Zpos m) = true
  | _ => True
  end.

(** Numbers that are [+0], positive or [+Infinity]. *)
Definition nonneg (x : number) : Prop :=
  match x with
  | Zero false | Fin false _ _ | Inf false => True
  | _ => False
  end.

(** Numbers that are [-0], negative or [-Infinity]. *)
Definition nonpos (x : number) : Prop :=
  match x with
  | Zero true | Fin true _ _ | Inf true => True
  | _ => False
  end.

End JSNumber.

(** ** The kernel's binary64 numbers, to compare with *)

Module Binary64.
Import JSNumber.

Definition of_spec_float (x : spec_float) : number :=
  match x with
  | S754_zero s => Zero s
  | S754_infinity s => Inf s
  | S754_nan => NaN
  | S754_finite s m e => mkFin s m e
  end.

Definition of_float (x : float) : number := of_spec_float (Prim2SF x).

End Binary64.

(* ================================================================== *)
(** * ECMAScript strings and the string functions of the source *)
(* ================================================================== *)

(** Strings are byte strings: form fields, file names and the output of
    the two tools are modelled by their UTF-8 bytes.  The characters the
    source inspects (digits, [.], [:], [=], [/], the sign and the
    exponent letters) are ASCII, and so is the white space recognised
    here (TAB, LF, VT, FF, CR, SP).  ECMAScript counts U+00A0, U+FEFF,
    the line separators and the Unicode space separators as white
    space too; [is_space] does not, so a text in which one of these
    stands before a number, or at an end of the output of the probe,
    is read here otherwise than by [parseInt], [parseFloat] and [trim]
    of the source.  The two tools print ASCII. *)

Module JSString.
Import JSNumber.
Local Open Scope string_scope.
Local Open Scope Z_scope.

Local Infix "+++" := String.append (right associativity, at level 60).

Definition is_digit (c : ascii) : bool :=
  let n := N_of_ascii c in (48 <=? n)%N && (n <=? 57)%N.

Definition digit_val (c : ascii) : Z := Z.of_N (N_of_ascii c) - 48.

Definition is_space (c : ascii) : bool :=
  let n := N_of_ascii c in ((9 <=? n)%N && (n <=? 13)%N) || (n =? 32)%N.

Fixpoint span (p : ascii -> bool) (s : string) : string * string :=
  match s with
  | String c r =>
      if p c then let (a, b) := span p r in (String c a, b) else ("", s)
  | EmptyString => ("", "")
  end.

Fixpoint trim_start (s : string) : string :=
  match s with
  | String c r => if is_space c then trim_start r else s
  | EmptyString => ""
  end.

Fixpoint rev_string (acc s : string) : string :=
  match s with
  | String c r => rev_string (String c acc) r
  | EmptyString => acc
  end.

(** [s.trim()] *)
Definition trim (s : string) : string :=
  rev_string "" (trim_start (rev_string "" (trim_start s))).

Fixpoint starts_with (p s : string) : option string :=
  match p, s with
  | EmptyString, _ => Some s
  | String a p', String b s' =>
      if Ascii.eqb a b then starts_with p' s' else None
  | _, _ => None
  end.

(** The integer denoted by a string of decimal digits. *)
Fixpoint digits_value (acc : Z) (s : string) : Z :=
  match s with
  | String c r => digits_value (10 * acc + digit_val c) r
  | EmptyString => acc
  end.

(** The Number value of the non-negative integer [z], signed. *)
Definition int_to_number (neg : bool) (z : Z) : number :=
  match z with
  | Zpos p => round_dyadic neg p 0
  | _ => Zero neg
  end.

(** The Number value of the decimal [(-1)^neg * d * 10^ex]. *)
Definition decimal_to_number (neg : bool) (d : Z) (ex : Z) : number :=
  match d with
  | Zpos p =>
      if 0 <=? ex
      then round_ratio neg (Pos.mul p (Z.to_pos (10 ^ ex))) 1 0
      else round_ratio neg p (Z.to_pos (10 ^ (- ex))) 0
  | _ => Zero neg
  end.

Definition split_sign (s : string) : bool * string :=
  match s with
  | String "-" r => (true, r)
  | String "+" r => (false, r)
  | _ => (false, s)
  end.

(** [parseInt(s, 10)]: leading white space, an optional sign, then the
    longest run of digits; NaN when there is no digit. *)
Definition parseInt (s : string) : number :=
  let (neg, r) := split_sign (trim_start s) in
  let (ds, _) := span is_digit r in
  match ds with
  | EmptyString => NaN
  | _ => int_to_number neg (digits_value 0 ds)
  end.

(** The optional exponent part [e|E [+|-] digits] of a decimal
    literal; 0 when the text does not continue with one. *)
Definition exponent_part (s : string) : Z :=
  match s with
  | String c r =>
      if Ascii.eqb c "e" || Ascii.eqb c "E" then
        let (neg, r') := split_sign r in
        let (ds, _) := span is_digit r' in
        match ds with
        | EmptyString => 0
        | _ => if neg then - digits_value 0 ds else digits_value 0 ds
        end
      else 0
  | EmptyString => 0
  end.

(** [parseFloat(s)]: leading white space, then the longest prefix that
    is a [StrDecimalLiteral]; NaN when there is none. *)
Definition parseFloat (s : string) : number :=
  let (neg, r) := split_sign (trim_start s) in
  match starts_with "Infinity" r with
  | Some _ => Inf neg
  | None =>
      let (ip, r1) := span is_digit r in
      match r1 with
      | String "." r2 =>
          let (fp, r3) := span is_digit r2 in
          match ip, fp with
          | EmptyString, EmptyString => NaN
          | _, _ =>
              decimal_to_number neg (digits_value 0 (ip +++ fp))
                (exponent_part r3 - Z.of_nat (String.length fp))
          end
      | _ =>
          match ip with
          | EmptyString => NaN
          | _ => decimal_to_number neg (digits_value 0 ip) (exponent_part r1)
          end
      end
  end.

(** ** [String(n)] and template interpolation of a Number *)

Definition Z_to_string (z : Z) : string :=
  NilZero.string_of_int (Z.to_int z).

Definition number_eqb (x y : number) : bool :=
  match x, y with
  | NaN, NaN => true
  | Inf a, Inf b | Zero a, Zero b => Bool.eqb a b
  | Fin a m1 e1, Fin b m2 e2 => Bool.eqb a b && Pos.eqb m1 m2 && Z.eqb e1 e2
  | _, _ => false
  end.

(** [v < 10^j] for the positive rational [v = num / den]. *)
Definition below_pow10 (num den : Z) (j : Z) : bool :=
  if 0 <=? j then num <? 10 ^ j * den else num * 10 ^ (- j) <? den.

(** The [n] with [10^(n-1) <= num/den < 10^n]. *)
Definition decimal_exponent (num den : positive) : Z :=
  let est := (log2_ratio num den * 30103) / 100000 + 1 in
  if below_pow10 (Zpos num) (Zpos den) (est - 1) then est - 1
  else if below_pow10 (Zpos num) (Zpos den) est then est
  else est + 1.

(** The decimal digits [s] (an integer of [k] digits) and the exponent
    [n] of Number::toString: [s * 10^(n-k)] reads back as [x], [k] is as
    small as possible, and among the candidates the one nearest to [x]
    is taken.  [fuel] counts the values of [k] still to try. *)
Fixpoint shortest_digits (fuel : nat) (x : number) (num den : Z) (n k : Z)
  : Z * Z :=
  let sc_num := if 0 <=? k - n then num * 10 ^ (k - n) else num in
  let sc_den := if 0 <=? k - n then den else den * 10 ^ (n - k) in
  let lo := sc_num / sc_den in
  let r := sc_num mod sc_den in
  let ok_lo := number_eqb (decimal_to_number false lo (n - k)) x in
  let ok_hi := number_eqb (decimal_to_number false (lo + 1) (n - k)) x in
  let pick s := if s =? 10 ^ k then (1, n + 1) else (s, n) in
  let nearest :=
    match 2 * r ?= sc_den with
    | Lt => lo
    | Gt => lo + 1
    | Eq => if Z.even lo then lo else lo + 1
    end in
  match fuel with
  | O => (lo, n)
  | S fuel' =>
      if ok_lo && ok_hi then pick nearest
      else if ok_lo then pick lo
      else if ok_hi then pick (lo + 1)
      else shortest_digits fuel' x num den n (k + 1)
  end.

Fixpoint zeros (n : nat) : string :=
  match n with
  | O => ""
  | S n' => String "0" (zeros n')
  end.

Definition exponent_suffix (n : Z) : string :=
  (String "e" (if 0 <=? n - 1 then "+" else "-")
   +++ Z_to_string (Z.abs (n - 1))).

(** The text of a positive finite Number from its digits. *)
Definition format_digits (s n : Z) : string :=
  let ds := Z_to_string s in
  let k := Z.of_nat (String.length ds) in
  if (k <=? n) && (n <=? 21) then
    (ds +++ zeros (Z.to_nat (n - k)))
  else if (0 <? n) && (n <=? 21) then
    (substring 0 (Z.to_nat n) ds +++ "."
     +++ substring (Z.to_nat n) (Z.to_nat (k - n)) ds)
  else if (-6 <? n) && (n <=? 0) then
    ("0." +++ zeros (Z.to_nat (- n)) +++ ds)
  else if k =? 1 then
    (ds +++ exponent_suffix n)
  else
    (substring 0 1 ds +++ "." +++ substring 1 (Z.to_nat (k - 1)) ds
     +++ exponent_suffix n).

(** [String(x)], also the text a template literal inserts for [x]. *)
Definition number_to_string (x : number) : string :=
  match x with
  | NaN => "NaN"
  | Zero _ => "0"
  | Inf neg => if neg then "-Infinity" else "Infinity"
  | Fin neg m e =>
      let num := if 0 <=? e then Pos.mul m (Z.to_pos (2 ^ e)) else m in
      let den := if 0 <=? e then 1%positive else Z.to_pos (2 ^ (- e)) in
      let n := decimal_exponent num den in
      let (s, n') :=
        shortest_digits 17 (Fin false m e) (Zpos num) (Zpos den) n 1 in
      (if neg then "-" else "") +++ format_digits s n'
  end.

(** ** [encodeURIComponent]

    Every byte outside [A-Z a-z 0-9 - _ . ! ~ * ' ( )] becomes [%XX]. *)

Definition is_alpha (c : ascii) : bool :=
  let n := N_of_ascii c in
  (((65 <=? n) && (n <=? 90)) || ((97 <=? n) && (n <=? 122)))%N.

Definition is_uri_unreserved (c : ascii) : bool :=
  is_alpha c || is_digit c ||
  existsb (Ascii.eqb c) ["-"; "_"; "."; "!"; "~"; "*"; "'"; "("; ")"]%char.

Definition hex_digit (n : N) : ascii :=
  if (n <? 10)%N then ascii_of_N (48 + n) else ascii_of_N (55 + n).

Fixpoint encodeURIComponent (s : string) : string :=
  match s with
  | EmptyString => ""
  | String c r =>
      if is_uri_unreserved c then String c (encodeURIComponent r)
      else
        let n := N_of_ascii c in
        String "%" (String (hex_digit (n / 16)) (String (hex_digit (n mod 16))
          (encodeURIComponent r)))
  end.

(** ** The regular expressions of the source *)

Definition is_dot (c : ascii) : bool := Ascii.eqb c ".".

Fixpoint no_dot (s : string) : bool :=
  match s with
  | EmptyString => true
  | String c r => negb (is_dot c) && no_dot r
  end.

(** [s.replace(/\.[^.]+$/, '')]: the leftmost dot that is followed, up
    to the end of the string, by one or more characters other than a
    dot is where the match starts; it is removed with what follows. *)
Fixpoint strip_extension (s : string) : string :=
  match s with
  | EmptyString => ""
  | String c r =>
      if is_dot c && negb (String.eqb r "") && no_dot r then ""
      else String c (strip_extension r)
  end.

Definition is_digit_or_dot (c : ascii) : bool := is_digit c || is_dot c.

(** A match of [time=(\d+):(\d+):([\d.]+)] at the start of [s]. *)
Definition match_time_here (s : string) : option (string * string * string) :=
  match starts_with "time=" s with
  | None => None
  | Some r =>
      let (h, r1) := span is_digit r in
      match h, r1 with
      | String _ _, String ":" r2 =>
          let (m, r3) := span is_digit r2 in
          match m, r3 with
          | String _ _, String ":" r4 =>
              let (sec, _) := span is_digit_or_dot r4 in
              match sec with
              | String _ _ => Some (h, m, sec)
              | EmptyString => None
              end
          | _, _ => None
          end
      | _, _ => None
      end
  end.

(** [s.match(/time=(\d+):(\d+):([\d.]+)/)]: the groups of the leftmost
    match, [None] for [null]. *)
Fixpoint match_time (s : string) : option (string * string * string) :=
  match match_time_here s with
  | Some g => Some g
  | None =>
      match s with
      | EmptyString => None
      | String _ r => match_time r
      end
  end.

(** ** [path.join] (POSIX) *)

Fixpoint split_slash (cur : string) (s : string) : list string :=
  match s with
  | EmptyString => [cur]
  | String c r =>
      if Ascii.eqb c "/" then cur :: split_slash "" r
      else split_slash (cur +++ String c "") r
  end.

(** Resolve [.] and [..] segments; [stack] holds the segments kept so
    far, last first. *)
Fixpoint normalize_segments (above_root : bool) (stack segs : list string)
  : list string :=
  match segs with
  | [] => rev stack
  | seg :: rest =>
      if String.eqb seg "" || String.eqb seg "." then
        normalize_segments above_root stack rest
      else if String.eqb seg ".." then
        match stack with
        | top :: below =>
            if String.eqb top ".."
            then normalize_segments above_root (".." :: stack) rest
            else normalize_segments above_root below rest
        | [] =>
            if above_root
            then normalize_segments above_root [".."] rest
            else normalize_segments above_root [] rest
        end
      else normalize_segments above_root (seg :: stack) rest
  end.

Fixpoint join_slash (segs : list string) : string :=
  match segs with
  | [] => ""
  | [a] => a
  | a :: rest => (a +++ "/" +++ join_slash rest)
  end.

Definition ends_with_slash (s : string) : bool :=
  match rev_string "" s with
  | String "/" _ => true
  | _ => false
  end.

Definition path_normalize (p : string) : string :=
  let absolute := match p with String "/" _ => true | _ => false end in
  let body := join_slash (normalize_segments (negb absolute) [] (split_slash "" p)) in
  match body with
  | EmptyString =>
      if absolute then "/" else if ends_with_slash p then "./" else "."
  | _ =>
      ((if absolute then "/" else "") +++ body
       +++ (if ends_with_slash p then "/" else ""))
  end.

(** [path.join(a, b)] *)
Definition path_join (a b : string) : string :=
  match a, b with
  | EmptyString, EmptyString => "."
  | EmptyString, _ => path_normalize b
  | _, EmptyString => path_normalize a
  | _, _ => path_normalize (a +++ "/" +++ b)
  end.

(** ** Strings read character by character *)

Fixpoint all_chars (p : ascii -> bool) (s : string) : bool :=
  match s with
  | EmptyString => true
  | String c r => p c && all_chars p r
  end.

Definition is_slash (c : ascii) : bool := Ascii.eqb c "/".

Definition no_slash (s : string) : bool :=
  all_chars (fun c => negb (is_slash c)) s.

Definition no_line_feed (s : string) : bool :=
  all_chars (fun c => negb (Ascii.eqb c (ascii_of_N 10))) s.

(** The characters a text produced by [encodeURIComponent] is made
    of. *)
Definition is_url_safe (c : ascii) : bool :=
  is_uri_unreserved c || Ascii.eqb c "%".

(** A path segment that names an entry of a directory. *)
Definition plain_segment (s : string) : bool :=
  no_slash s && negb (String.eqb s "") && negb (String.eqb s ".")
  && negb (String.eqb s "..").

(** [rest] does not go on with a character of the class [p]. *)
Definition stops (p : ascii -> bool) (rest : string) : bool :=
  match rest with
  | String c _ => negb (p c)
  | EmptyString => true
  end.

(** A non-empty run of characters of the class [p]. *)
Definition run_of (p : ascii -> bool) (s : string) : bool :=
  negb (String.eqb s "") && all_chars p s.

(** An absolute path in normal form: [/] followed by plain segments
    with one [/] between them. *)
Definition normal_absolute (p : string) (segs : list string) : Prop :=
  p = String "/" (join_slash segs) /\ forallb plain_segment segs = true.

(** Whether a text holds a NUL character. *)
Definition has_nul (s : string) : bool :=
  negb (all_chars (fun c => negb (Ascii.eqb c Ascii.zero)) s).

(** ** The base name of a declared file name

    What the multipart parser of the upload middleware keeps of the
    [filename] of a file part when paths are not preserved: the text
    after the last [/] or [\], and nothing when that text is [.] or
    [..]. *)
Definition is_separator (c : ascii) : bool :=
  Ascii.eqb c "/" || Ascii.eqb c "\".

(** [cur] is the text after the last separator seen so far. *)
Fixpoint after_separators (cur s : string) : string :=
  match s with
  | EmptyString => cur
  | String c r =>
      if is_separator c then after_separators r r
      else after_separators cur r
  end.

Definition basename (p : string) : string :=
  let b := after_separators p p in
  if String.eqb b ".." || String.eqb b "." then "" else b.

Definition no_separator (s : string) : bool :=
  all_chars (fun c => negb (is_separator c)) s.

End JSString.

(* ================================================================== *)
(** * The server *)
(* ================================================================== *)

Module Server.
Import JSNumber JSString.
Local Open Scope string_scope.
Local Open Scope Z_scope.

Local Infix "+++" := String.append (right associativity, at level 60).

Definition nl : string := String (ascii_of_N 10) "".

(** ** The request, as the upload middleware hands it over *)

(** [req.file]: the temporary path the middleware stored the upload at
    (a name it draws at random under the upload directory), and the
    original name: the base name of the file name the client declared,
    since the middleware is set up without [preservePath] (see
    [multer_single] below). *)
Record UploadedFile : Type := {
  path : string;
  originalname : string
}.

(** [req]: [file] is [None] when the form had no [file] part
    ([req.file] is [undefined]); a text field is [None] when absent;
    [host] is [req.get("host")]. *)
Record Request : Type := {
  file : option UploadedFile;
  factor_field : option string;
  fps_field : option string;
  bitrate_field : option string;
  protocol : string;
  host : option string
}.

(** ** Child processes

    What a spawned process delivers to its listeners, in order. *)
Inductive ChildEvent : Type :=
| Stdout (chunk : string)
| Stderr (chunk : string)
| Close (code : option Z)     (* [null] when killed by a signal *)
| Error.

(** ** Observable state: the response and the file system *)

Record Response : Type := {
  statusCode : Z;
  headers : list (string * string);
  body : list string;           (* the chunks written before [end()] *)
  ended : bool;
  dropped : list string         (* [write] calls made after [end()] *)
}.

Record World : Type := {
  res : Response;
  files : list string;          (* paths of the files that exist *)
  unlinks : list (string * bool) (* [fs.unlink] calls: path, success *)
}.

Definition setHeader (k v : string) (w : World) : World :=
  let r := res w in
  {| res := {| statusCode := statusCode r;
               headers := headers r ++ [(k, v)];
               body := body r; ended := ended r; dropped := dropped r |};
     files := files w; unlinks := unlinks w |}.

(** [res.write(s)]: nothing reaches the client once the response has
    ended. *)
Definition write (s : string) (w : World) : World :=
  let r := res w in
  {| res := if ended r
            then {| statusCode := statusCode r; headers := headers r;
                    body := body r; ended := true;
                    dropped := dropped r ++ [s] |}
            else {| statusCode := statusCode r; headers := headers r;
                    body := body r ++ [s]; ended := false;
                    dropped := dropped r |};
     files := files w; unlinks := unlinks w |}.

(** [res.end()] *)
Definition end_response (w : World) : World :=
  let r := res w in
  {| res := {| statusCode := statusCode r; headers := headers r;
               body := body r; ended := true; dropped := dropped r |};
     files := files w; unlinks := unlinks w |}.

Definition file_exists (p : string) (fs : list string) : bool :=
  existsb (String.eqb p) fs.

(** [fs.unlink(p, () => {})]: removes [p] when it exists; the outcome
    goes to a callback that ignores it. *)
Definition unlink (p : string) (w : World) : World :=
  {| res := res w;
     files := filter (fun q => negb (String.eqb p q)) (files w);
     unlinks := unlinks w ++ [(p, file_exists p (files w))] |}.

(** A fresh response (status 200 until the handler says otherwise) and
    the files present when the handler starts. *)
Definition initial_world (fs : list string) : World :=
  {| res := {| statusCode := 200; headers := []; body := [];
               ended := false; dropped := [] |};
     files := fs; unlinks := [] |}.

(** ** [probeDuration]

    [out] accumulates the standard output.  The promise is settled by
    the first [close] or [error]; later calls of [resolve] have no
    effect, and with neither event it stays pending ([None]). *)
Fixpoint probe_run (out : string) (evs : list ChildEvent) : option number :=
  match evs with
  | [] => None
  | Stdout d :: rest => probe_run (out +++ d) rest
  | Stderr _ :: rest => probe_run out rest
  | Close _ :: _ =>
      let sec := parseFloat (trim out) in
      Some (if isFinite sec then sec else Zero false)
  | Error :: _ => Some (Zero false)
  end.

Definition probeDuration (evs : list ChildEvent) : option number :=
  probe_run "" evs.

(** ** Request parameters *)

(** [field || dflt] for a form field: the default replaces an absent
    or empty field. *)
Definition or_default (field : option string) (dflt : string) : string :=
  match field with
  | None | Some EmptyString => dflt
  | Some s => s
  end.

(** [Math.max(1, parseFloat(req.body.factor || "1"))] *)
Definition get_factor (req : Request) : number :=
  Math_max (of_Z 1) (parseFloat (or_default (factor_field req) "1")).

(** [req.body.fps === "copy" ? null
      : parseInt(req.body.fps || "0", 10) || null] *)
Definition get_fps (req : Request) : option number :=
  match fps_field req with
  | Some "copy" => None
  | f =>
      let n := parseInt (or_default f "0") in
      if truthy n then Some n else None
  end.

(** [parseInt(req.body.bitrate || "8000000", 10)] *)
Definition get_bitrate (req : Request) : number :=
  parseInt (or_default (bitrate_field req) "8000000").

(** [req.file.originalname.replace(/\.[^.]+$/, '')] *)
Definition origName (f : UploadedFile) : string :=
  strip_extension (originalname f).

(** What the handler reads from outside the request: the clock, the
    directory of the script, whether [fs.mkdirSync] throws, and the
    events of the two child processes. *)
Record Env : Type := {
  now : Z;
  dirname : string;
  mkdir_throws : bool;
  probe_events : list ChildEvent;
  ffmpeg_events : list ChildEvent
}.

Definition downloadsDir (env : Env) : string :=
  path_join (dirname env) "downloads".

Definition outBase (f : UploadedFile) (env : Env) : string :=
  origName f +++ "_desq_" +++ number_to_string (of_Z (now env)) +++ ".mp4".

Definition outPath (f : UploadedFile) (env : Env) : string :=
  path_join (downloadsDir env) (outBase f env).

(** The filter expression. *)
Definition vf (factor : number) : string :=
  "scale=trunc(iw*" +++ number_to_string factor +++ "/2)*2:ih,setsar=1".

(** The argument list of the encoder. *)
Definition ffmpeg_args (req : Request) (f : UploadedFile) (env : Env)
  : list string :=
  ["-y"; "-i"; path f]
  ++ match get_fps req with
     | Some n => if truthy n then ["-r"; number_to_string n] else []
     | None => []
     end
  ++ ["-c:v"; "libx264"; "-b:v"; number_to_string (get_bitrate req);
      "-pix_fmt"; "yuv420p";
      "-vf"; vf (get_factor req);
      "-c:a"; "copy";
      "-movflags"; "faststart";
      outPath f env].

(** [spawn(command, args)] throws, and starts no process, when an
    argument holds a NUL character.  (The command is the path of the
    bundled tool, taken to be a proper string.) *)
Definition spawn_throws (args : list string) : bool :=
  existsb has_nul args.

(** ** The progress translator: the [stderr] listener *)

(** The elapsed time of a marker,
    [parseInt(m[1])*3600 + parseInt(m[2])*60 + parseFloat(m[3])]. *)
Definition elapsed (g : string * string * string) : number :=
  let '(h, m, sec) := g in
  add (add (mul (parseInt h) (of_Z 3600)) (mul (parseInt m) (of_Z 60)))
      (parseFloat sec).

(** [Math.max(0, Math.min(100, Math.floor((t / dur) * 100)))] *)
Definition percent (t dur : number) : number :=
  Math_max (of_Z 0)
    (Math_min (of_Z 100) (Math_floor (mul (div t dur) (of_Z 100)))).

Definition progress_line (pct : number) : string :=
  "progress:" +++ number_to_string pct +++ nl.

(** The percentage a chunk yields: the guard [m && dur > 0] and the
    two assignments under it. *)
Definition chunk_percent (dur : number) (buf : string) : option number :=
  match match_time buf with
  | Some g =>
      if gt dur (of_Z 0) then Some (percent (elapsed g) dur) else None
  | None => None
  end.

(** The listener proper; its state is [lastPct] and the world. *)
Definition on_stderr (dur : number) (buf : string) (st : number * World)
  : number * World :=
  let (lastPct, w) := st in
  match chunk_percent dur buf with
  | Some pct =>
      if strict_neq pct lastPct
      then (pct, write (progress_line pct) w)
      else st
  | None => st
  end.

(** ** Terminal lines *)

Definition status_done : string := "status:done" +++ nl.
Definition status_error : string := "status:error" +++ nl.

Definition publicUrl (req : Request) (f : UploadedFile) (env : Env) : string :=
  protocol req +++ "://"
  +++ match host req with Some h => h | None => "undefined" end
  +++ "/downloads/" +++ encodeURIComponent (outBase f env).

Definition download_line (url : string) : string := "download:" +++ url +++ nl.

(** The [close] listener. *)
Definition on_close (req : Request) (f : UploadedFile) (env : Env)
  (code : option Z) (w : World) : World :=
  let w := unlink (path f) w in
  let w :=
    match code with
    | Some 0 =>
        write status_done (write (download_line (publicUrl req f env)) w)
    | _ => write status_error w
    end in
  end_response w.

(** The [error] listener. *)
Definition on_error (f : UploadedFile) (w : World) : World :=
  end_response (write status_error (unlink (path f) w)).

(** One event of the encoder, dispatched to the listeners. *)
Definition on_event (req : Request) (f : UploadedFile) (env : Env)
  (dur : number) (ev : ChildEvent) (st : number * World) : number * World :=
  match ev with
  | Stderr buf => on_stderr dur buf st
  | Stdout _ => st
  | Close code => (fst st, on_close req f env code (snd st))
  | Error => (fst st, on_error f (snd st))
  end.

Definition run_events (req : Request) (f : UploadedFile) (env : Env)
  (dur : number) (evs : list ChildEvent) (st : number * World)
  : number * World :=
  fold_left (fun st ev => on_event req f env dur ev st) evs st.

(** ** The [POST /upload] handler

    The [catch] block: the inner [try] swallows the [TypeError] of
    [req.file.path] when there is no upload. *)
Definition on_exception (req : Request) (w : World) : World :=
  let w := match file req with
           | Some f => unlink (path f) w
           | None => w
           end in
  end_response (write status_error w).

(** The world once every event of [env] has been handled.  When the
    probe never settles the handler stays suspended at its [await].
    When [spawn] throws, the [catch] block runs at once: no encoder
    was started, and the events [env] holds for it are not read. *)
Definition upload (req : Request) (env : Env) (fs : list string) : World :=
  let w := setHeader "Content-Type" "text/plain; charset=utf-8"
             (initial_world fs) in
  let w := setHeader "Transfer-Encoding" "chunked" w in
  match file req with
  | None => on_exception req w
  | Some f =>
      if mkdir_throws env then on_exception req w
      else
        match probeDuration (probe_events env) with
        | None => w
        | Some dur =>
            if spawn_throws (ffmpeg_args req f env) then on_exception req w
            else
              snd (run_events req f env dur (ffmpeg_events env)
                     (of_Z (-1), w))
        end
  end.

Definition write_all (ls : list string) (w : World) : World :=
  fold_left (fun w s => write s w) ls w.

(** ** Reading an event sequence *)

Definition is_terminal (ev : ChildEvent) : bool :=
  match ev with
  | Close _ | Error => true
  | _ => false
  end.

(** The first [close] or [error] of a process, if it delivers one. *)
Fixpoint first_terminal (evs : list ChildEvent) : option ChildEvent :=
  match evs with
  | [] => None
  | ev :: rest => if is_terminal ev then Some ev else first_terminal rest
  end.

(** The events before the first [close] or [error]. *)
Fixpoint before_terminal (evs : list ChildEvent) : list ChildEvent :=
  match evs with
  | [] => []
  | ev :: rest => if is_terminal ev then [] else ev :: before_terminal rest
  end.

Fixpoint stderr_chunks (evs : list ChildEvent) : list string :=
  match evs with
  | [] => []
  | Stderr buf :: rest => buf :: stderr_chunks rest
  | _ :: rest => stderr_chunks rest
  end.

Fixpoint stdout_text (evs : list ChildEvent) : string :=
  match evs with
  | [] => ""
  | Stdout d :: rest => d +++ stdout_text rest
  | _ :: rest => stdout_text rest
  end.

(** The percentages the [stderr] listener signals for a sequence of
    chunks, [lastPct] being the value it starts from. *)
Fixpoint signaled_from (dur lastPct : number) (chunks : list string)
  : list number :=
  match chunks with
  | [] => []
  | buf :: rest =>
      match chunk_percent dur buf with
      | Some pct =>
          if strict_neq pct lastPct
          then pct :: signaled_from dur pct rest
          else signaled_from dur lastPct rest
      | None => signaled_from dur lastPct rest
      end
  end.

Definition signaled (dur : number) (chunks : list string) : list number :=
  signaled_from dur (of_Z (-1)) chunks.

(** The percentages computed for the chunks that carry a marker,
    whether signaled or not. *)
Fixpoint computed (dur : number) (chunks : list string) : list number :=
  match chunks with
  | [] => []
  | buf :: rest =>
      match chunk_percent dur buf with
      | Some pct => pct :: computed dur rest
      | None => computed dur rest
      end
  end.

(** The value signaled last, if any. *)
Fixpoint last_signaled (l : list number) : option number :=
  match l with
  | [] => None
  | [v] => Some v
  | _ :: rest => last_signaled rest
  end.

(** Whether [pct] differs from the value signaled last; with nothing
    signaled yet it does. *)
Definition differs_from_last (pct : number) (l : list number) : bool :=
  match last_signaled l with
  | Some v => negb (number_eqb pct v)
  | None => true
  end.

(** The two terminal outcomes of a job and the lines that convey
    them. *)
Inductive Outcome : Type :=
| Done (url : string)
| Failed.

Definition terminal_lines (o : Outcome) : list string :=
  match o with
  | Done url => [download_line url; status_done]
  | Failed => [status_error]
  end.

(** The outcome the listeners write for a terminal event. *)
Definition outcome_of (req : Request) (f : UploadedFile) (env : Env)
  (ev : ChildEvent) : Outcome :=
  match ev with
  | Close (Some 0) => Done (publicUrl req f env)
  | _ => Failed
  end.

(** A job terminates when the handler throws before it spawns the
    encoder, or when the probe settles and either [spawn] throws or the
    encoder delivers [close] or [error]. *)
Definition terminates (req : Request) (env : Env) : bool :=
  match file req with
  | None => true
  | Some f =>
      mkdir_throws env ||
      match probeDuration (probe_events env) with
      | Some _ =>
          spawn_throws (ffmpeg_args req f env) ||
          match first_terminal (ffmpeg_events env) with
          | Some _ => true
          | None => false
          end
      | None => false
      end
  end.

(** A job fails when the handler throws ([spawn] included), or when the
    first terminal event of the encoder is not a [close] with exit code
    0. *)
Definition fails (req : Request) (env : Env) : bool :=
  match file req with
  | None => true
  | Some f =>
      mkdir_throws env ||
      match probeDuration (probe_events env) with
      | Some _ =>
          spawn_throws (ffmpeg_args req f env) ||
          match first_terminal (ffmpeg_events env) with
          | Some (Close (Some 0)) => false
          | Some _ => true
          | None => false
          end
      | None => false
      end
  end.

Definition is_progress_line (s : string) : bool :=
  match starts_with "progress:" s with Some _ => true | None => false end.

Definition is_status_line (s : string) : bool :=
  String.eqb s status_done || String.eqb s status_error.

Definition is_download_line (s : string) : bool :=
  match starts_with "download:" s with Some _ => true | None => false end.

(** The lines that convey an outcome. *)
Definition is_terminal_line (s : string) : bool :=
  is_status_line s || is_download_line s.

(** The number of [close] and [error] events a process delivers. *)
Definition terminal_count (evs : list ChildEvent) : nat :=
  List.length (filter is_terminal evs).

(** A world is settled for [p] when the response has ended and the
    file [p] is gone. *)
Definition settled (p : string) (w : World) : Prop :=
  ended (res w) = true /\ file_exists p (files w) = false.

(** What an observer keeps of a world: the response without the
    dropped writes, the files, the successful deletions. *)
Definition observed (w : World)
  : Z * list (string * string) * list string * bool * list string
    * list (string * bool) :=
  (statusCode (res w), headers (res w), body (res w), ended (res w),
   files w, filter snd (unlinks w)).

(** The headers the handler sets. *)
Definition response_headers : list (string * string) :=
  [("Content-Type", "text/plain; charset=utf-8");
   ("Transfer-Encoding", "chunked")].

(** The files [fs] without the one named [q]. *)
Definition without (q : string) (fs : list string) : list string :=
  filter (fun q' => negb (String.eqb q q')) fs.

(** The successful deletions of a job whose temporary file is [p]. *)
Definition deleted_once (p : string) (fs : list string)
  : list (string * bool) :=
  if file_exists p fs then [(p, true)] else [].

(** ** The percentage formula in the words of the specification

    [floor(clamp(elapsed / duration, 0, 1) * 100)], with the same
    Number arithmetic. *)
Definition clamp (x lo hi : number) : number :=
  Math_max lo (Math_min hi x).

Definition spec_percent (t dur : number) : number :=
  Math_floor (mul (clamp (div t dur) (of_Z 0) (of_Z 1)) (of_Z 100)).

(** Integer percentages. *)
Definition is_percentage (v : number) : Prop :=
  exists n : Z, v = of_Z n /\ 0 <= n <= 100.

(** Order on the Numbers that are integers. *)
Definition int_le (x y : number) : Prop :=
  exists a b : Z, x = of_Z a /\ y = of_Z b /\ a <= b.
Definition int_lt (x y : number) : Prop :=
  exists a b : Z, x = of_Z a /\ y = of_Z b /\ a < b.

(** [R] holds between each element of a list and the next. *)
Fixpoint chain (R : number -> number -> Prop) (l : list number) : Prop :=
  match l with
  | a :: ((b :: _) as rest) => R a b /\ chain R rest
  | _ => True
  end.

(** No two neighbours of a list are equal. *)
Definition adjacent_distinct (l : list number) : Prop :=
  chain (fun a b => a <> b) l.

(** The value [lastPct] holds after the values [l] were signaled. *)
Definition final_pct (lastPct : number) (l : list number) : number :=
  match last_signaled l with
  | Some v => v
  | None => lastPct
  end.

(** A chunk whose time marker, if it has one, carries a seconds field
    that [parseFloat] reads as a number. *)
Definition numeric_marker (buf : string) : Prop :=
  match match_time buf with
  | Some (_, _, sec) => parseFloat sec <> NaN
  | None => True
  end.

(** ** [GET /download/:name]

    The file the route hands to [res.download]. *)
Definition download_file (env : Env) (name : string) : string :=
  path_join (downloadsDir env) name.

(** A chunk of the body that is one line: a text without line feed,
    then a line feed. *)
Definition one_line (s : string) : Prop :=
  exists t, s = t +++ nl /\ no_line_feed t = true.

(** ** More readings of an event sequence *)

(** [env] with other events for the encoder. *)
Definition with_ffmpeg_events (env : Env) (evs : list ChildEvent) : Env :=
  {| now := now env; dirname := dirname env; mkdir_throws := mkdir_throws env;
     probe_events := probe_events env; ffmpeg_events := evs |}.

Definition has_marker (buf : string) : bool :=
  match match_time buf with Some _ => true | None => false end.

(** The events a listener of the handler acts on: [close], [error],
    and the [stderr] chunks that carry a time marker. *)
Definition acted_on (ev : ChildEvent) : bool :=
  match ev with
  | Stdout _ => false
  | Stderr buf => has_marker buf
  | Close _ | Error => true
  end.

(** The elapsed times of the chunks that carry a marker. *)
Fixpoint elapsed_times (chunks : list string) : list number :=
  match chunks with
  | [] => []
  | buf :: rest =>
      match match_time buf with
      | Some g => elapsed g :: elapsed_times rest
      | None => elapsed_times rest
      end
  end.

(** ** The elapsed time in the words of the specification

    [3600*HH + 60*MM + SS.fraction], with the same Number
    arithmetic. *)
Definition spec_elapsed (HH MM SS : number) : number :=
  add (add (mul (of_Z 3600) HH) (mul (of_Z 60) MM)) SS.

(** ** The route: [app.post("/upload", upload.single("file"), handler)]

    The middleware runs first.  It is multer's, set up with a
    destination directory only, and is not part of the source file; its
    treatment of the file parts of a form is modelled here from its
    documentation.  The parser hands over each file part with the base
    name of the file name the client declared, and a part without a
    name is passed by.  [single(field)] accepts one file, under the
    field [field]: it stores it and sets [req.file].  A file part under
    another field, or a second file, is an error ([LIMIT_UNEXPECTED_FILE]),
    which goes to the framework instead of the handler.  A request
    that is not a multipart form is handed on untouched. *)

(** A file part of a form: the field it is sent under, the file name
    the client declared, and the path the middleware stores it at. *)
Record FilePart : Type := {
  fieldname : string;
  filename : string;
  stored_at : string
}.

(** What a client posts: whether the body is a multipart form, its
    file parts in order, its text fields, and what [req.protocol] and
    [req.get("host")] give. *)
Record Submission : Type := {
  multipart : bool;
  file_parts : list FilePart;
  sent_factor : option string;
  sent_fps : option string;
  sent_bitrate : option string;
  sent_protocol : string;
  sent_host : option string
}.

(** The request the handler gets for a submission, [f] being
    [req.file]. *)
Definition hand_over (sub : Submission) (f : option UploadedFile) : Request :=
  {| file := f;
     factor_field := sent_factor sub; fps_field := sent_fps sub;
     bitrate_field := sent_bitrate sub;
     protocol := sent_protocol sub; host := sent_host sub |}.

Inductive Delivery : Type :=
| Handed (req : Request)      (* [next()]: the handler runs *)
| Refused.                    (* [next(err)]: the framework answers *)

(** The file parts that have a name. *)
Definition named_parts (parts : list FilePart) : list FilePart :=
  filter (fun p => negb (String.eqb (basename (filename p)) "")) parts.

Definition multer_single (field : string) (sub : Submission) : Delivery :=
  if multipart sub then
    match named_parts (file_parts sub) with
    | [] => Handed (hand_over sub None)
    | [p] =>
        if String.eqb (fieldname p) field
        then Handed (hand_over sub
                       (Some {| path := stored_at p;
                                originalname := basename (filename p) |}))
        else Refused
    | _ :: _ :: _ => Refused
    end
  else Handed (hand_over sub None).

(** Who answers a request, and how: the handler, with the world it
    leaves, or the framework's default error handler, with its status
    code. *)
Inductive Answer : Type :=
| FromHandler (w : World)
| FromFramework (status : Z).

(** The default error handler answers an error that names no status
    with 500. *)
Definition post_upload (sub : Submission) (env : Env) (fs : list string)
  : Answer :=
  match multer_single "file" sub with
  | Handed req => FromHandler (upload req env fs)
  | Refused => FromFramework 500
  end.

Definition status_of (a : Answer) : Z :=
  match a with
  | FromHandler w => statusCode (res w)
  | FromFramework status => status
  end.

End Server.

(* ================================================================== *)
(** * Sample requests and environments *)
(* ================================================================== *)

Module Examples.
Import JSNumber JSString Server.
Local Open Scope string_scope.
Local Open Scope Z_scope.

Definition clip : UploadedFile :=
  {| path := "/tmp/desq_uploads/3f9a"; originalname := "clip.mov" |}.

Definition request (factor fps bitrate : option string) : Request :=
  {| file := Some clip;
     factor_field := factor; fps_field := fps; bitrate_field := bitrate;
     protocol := "https"; host := Some "api.example.org" |}.

Definition plain_request : Request := request (Some "1.5") None None.

(** A probe that prints [out] and exits with [code]. *)
Definition probe (out : string) (code : Z) : list ChildEvent :=
  [Stdout out; Close (Some code)].

Definition environment (probe_evs ffmpeg_evs : list ChildEvent) : Env :=
  {| now := 1700000000000; dirname := "/srv/app"; mkdir_throws := false;
     probe_events := probe_evs; ffmpeg_events := ffmpeg_evs |}.

Definition disk : list string := ["/tmp/desq_uploads/3f9a"; "/srv/app/server.js"].

(** A twenty-second clip encoded without incident. *)
Definition good_run : Env :=
  environment (probe "20.000000" 0)
    [Stderr "frame=  120 fps= 60 time=00:00:05.00 bitrate= 900kbits/s";
     Stderr "frame=  240 fps= 60 time=00:00:10.00 bitrate= 900kbits/s";
     Stderr "frame=  480 fps= 60 time=00:00:20.00 bitrate= 900kbits/s";
     Close (Some 0)].

(** The encoder cannot be started: [error], then [close]. *)
Definition spawn_failure : Env :=
  environment (probe "20.000000" 0) [Error; Close (Some (-2))].

(** Time markers that go back and forth. *)
Definition jumpy_run : Env :=
  environment (probe "20.000000" 0)
    [Stderr "time=00:00:10.00"; Stderr "time=00:00:05.00";
     Stderr "time=00:00:10.00"; Close (Some 1)].

(** The probe fails; the encoder still reports times. *)
Definition unknown_duration : Env :=
  environment (probe "N/A" 1)
    [Stderr "time=00:00:05.00"; Stderr "time=00:00:10.00"; Close (Some 0)].

(** An upload whose name holds a NUL character, and a request for
    it. *)
Definition nul_clip : UploadedFile :=
  {| path := "/tmp/desq_uploads/51c0";
     originalname := String.append "cl" (String Ascii.zero "ip.mov") |}.

Definition nul_request : Request :=
  {| file := Some nul_clip;
     factor_field := None; fps_field := None; bitrate_field := None;
     protocol := "https"; host := Some "api.example.org" |}.

(** The probe fails and no encoder event arrives. *)
Definition silent_run : Env := environment (probe "N/A" 1) [].

(** A multipart form with the given file parts. *)
Definition form (parts : list FilePart) : Submission :=
  {| multipart := true; file_parts := parts;
     sent_factor := Some "1.5"; sent_fps := None; sent_bitrate := None;
     sent_protocol := "https"; sent_host := Some "api.example.org" |}.

(** The file sent under the field [video] instead of [file]. *)
Definition wrong_field : Submission :=
  form [{| fieldname := "video"; filename := "clip.mov";
           stored_at := "/tmp/desq_uploads/3f9a" |}].

(** A file whose declared name climbs out of the directory. *)
Definition climbing_name : Submission :=
  form [{| fieldname := "file"; filename := "../../etc/x.mp4";
           stored_at := "/tmp/desq_uploads/77aa" |}].

End Examples.

(* ================================================================== *)
(** * The filter expression, as the encoder reads it *)
(* ================================================================== *)

(** The encoder is an external program.  Its reading of the filter
    string is modelled here by a syntax tree that prints to the string
    the handler builds, and by the documented meaning of the operators:
    [iw] and [ih] are the input width and height, [trunc] rounds towards
    zero, [scale=w:h] sets the output size and [setsar] the sample
    aspect ratio.  The encoder computes with binary64 numbers as well,
    and reads a printed Number back as the Number it was. *)

Module Filter.
Import JSNumber JSString Server.
Local Open Scope string_scope.
Local Open Scope Z_scope.

Local Infix "+++" := String.append (right associativity, at level 60).

Inductive expr : Type :=
| Iw
| Ih
| Num (x : number)
| Mul (a b : expr)
| Div (a b : expr)
| Trunc (a : expr).

Record filtergraph : Type := {
  scale_w : expr;
  scale_h : expr;
  setsar : expr
}.

Fixpoint render (x : expr) : string :=
  match x with
  | Iw => "iw"
  | Ih => "ih"
  | Num n => number_to_string n
  | Mul a b => render a +++ "*" +++ render b
  | Div a b => render a +++ "/" +++ render b
  | Trunc a => "trunc(" +++ render a +++ ")"
  end.

Definition render_filter (f : filtergraph) : string :=
  "scale=" +++ render (scale_w f) +++ ":" +++ render (scale_h f)
  +++ ",setsar=" +++ render (setsar f).

(** The tree of [scale=trunc(iw*FACTOR/2)*2:ih,setsar=1]. *)
Definition vf_filter (factor : number) : filtergraph :=
  {| scale_w := Mul (Trunc (Div (Mul Iw (Num factor)) (Num (of_Z 2))))
                    (Num (of_Z 2));
     scale_h := Ih;
     setsar := Num (of_Z 1) |}.

Fixpoint eval (iw ih : Z) (x : expr) : number :=
  match x with
  | Iw => of_Z iw
  | Ih => of_Z ih
  | Num n => n
  | Mul a b => mul (eval iw ih a) (eval iw ih b)
  | Div a b => div (eval iw ih a) (eval iw ih b)
  | Trunc a => trunc (eval iw ih a)
  end.

(** Output width, height and sample aspect ratio for an input frame
    of [iw] by [ih] pixels. *)
Definition out_width (f : filtergraph) (iw ih : Z) : number :=
  eval iw ih (scale_w f).
Definition out_height (f : filtergraph) (iw ih : Z) : number :=
  eval iw ih (scale_h f).
Definition out_sar (f : filtergraph) (iw ih : Z) : number :=
  eval iw ih (setsar f).

End Filter.
(* ================================================================== *)
(** * Facts about Numbers *)
(* ================================================================== *)

Module JSNumberFacts.
Import JSNumber.
Local Open Scope Z_scope.

(** ** Powers of two *)

Lemma pow2_pos (e : Z) : (0 < pow2 e)%Q.
Proof. unfold pow2. apply Qpower_0_lt. reflexivity. Qed.

Lemma pow2_add (a b : Z) : (pow2 (a + b) == pow2 a * pow2 b)%Q.
Proof. unfold pow2. apply Qpower_plus. discriminate. Qed.

Lemma pow2_Z (e : Z) : 0 <= e -> (pow2 e == inject_Z (2 ^ e))%Q.
Proof. intros H. unfold pow2. now rewrite Zpower_Qpower. Qed.

Lemma pow2_le (a b : Z) : a <= b -> (pow2 a <= pow2 b)%Q.
Proof.
  intros H. unfold pow2. apply Qpower_le_compat_l; [exact H | discriminate].
Qed.

Lemma pow2_cancel (a : Z) : (pow2 a * pow2 (- a) == 1)%Q.
Proof. rewrite <- pow2_add, Z.add_opp_diag_r. reflexivity. Qed.

(** ** Values *)

Lemma strip_value (m : positive) :
  forall e, (inject_Z (Zpos (fst (strip m e))) * pow2 (snd (strip m e))
             == inject_Z (Zpos m) * pow2 e)%Q.
Proof.
  induction m as [m IH | m IH |]; intros e; simpl; try reflexivity.
  rewrite IH, pow2_add.
  change (Zpos m~0) with (2 * Zpos m).
  rewrite inject_Z_mult.
  change (pow2 1) with (inject_Z 2). ring.
Qed.

Lemma mkFin_shape neg m e :
  exists m' e', mkFin neg m e = Fin neg m' e'
                /\ (F2Q neg m' e' == F2Q neg m e)%Q.
Proof.
  unfold mkFin. pose proof (strip_value m e) as H.
  destruct (strip m e) as [m' e']. simpl in H.
  exists m', e'. split; [reflexivity|].
  unfold F2Q. destruct neg; [|exact H].
  change (inject_Z (Zneg m')) with (- inject_Z (Zpos m'))%Q.
  change (inject_Z (Zneg m)) with (- inject_Z (Zpos m))%Q.
  setoid_replace (- inject_Z (Zpos m') * pow2 e')%Q
    with (- (inject_Z (Zpos m') * pow2 e'))%Q by ring.
  rewrite H. ring.
Qed.

Lemma to_Q_mkFin neg m e : (to_Q (mkFin neg m e) == F2Q neg m e)%Q.
Proof.
  destruct (mkFin_shape neg m e) as (m' & e' & -> & H). exact H.
Qed.

Lemma to_Q_of_Z (z : Z) : (to_Q (of_Z z) == inject_Z z)%Q.
Proof.
  destruct z as [|p|p]; simpl of_Z; [reflexivity| |];
    rewrite to_Q_mkFin; unfold F2Q, pow2; simpl; ring.
Qed.

(** [of_Z] never builds NaN, an infinity or [-0]. *)
Lemma of_Z_cases (z : Z) :
  (z = 0 /\ of_Z z = Zero false)
  \/ (exists m e, of_Z z = Fin (z <? 0) m e).
Proof.
  destruct z as [|p|p]; [left; auto | right | right]; simpl of_Z.
  - destruct (mkFin_shape false p 0) as (m & e & -> & _). eauto.
  - destruct (mkFin_shape true p 0) as (m & e & -> & _). eauto.
Qed.

Lemma compare_of_Z (a b : Z) : compare (of_Z a) (of_Z b) = Some (a ?= b).
Proof.
  assert (H : compare (of_Z a) (of_Z b)
              = Some (to_Q (of_Z a) ?= to_Q (of_Z b))%Q).
  { destruct (of_Z_cases a) as [[_ ->] | (m & e & ->)];
      destruct (of_Z_cases b) as [[_ ->] | (m' & e' & ->)]; reflexivity. }
  rewrite H, !to_Q_of_Z. f_equal.
  unfold Qcompare. simpl. now rewrite !Z.mul_1_r.
Qed.

Lemma of_Z_inj (a b : Z) : of_Z a = of_Z b -> a = b.
Proof.
  intros H. apply Z.compare_eq.
  pose proof (compare_of_Z a b) as C. rewrite H, compare_of_Z in C.
  rewrite Z.compare_refl in C. now inversion C.
Qed.

Lemma of_Z_not_neg_zero (z : Z) : is_neg_zero (of_Z z) = false.
Proof.
  destruct (of_Z_cases z) as [[_ ->] | (m & e & ->)]; reflexivity.
Qed.

Lemma Math_min_of_Z (a b : Z) :
  Math_min (of_Z a) (of_Z b) = of_Z (Z.min a b).
Proof.
  unfold Math_min. rewrite compare_of_Z, of_Z_not_neg_zero.
  unfold Z.min. destruct (a ?= b) eqn:C; try reflexivity.
  apply Z.compare_eq in C. now subst.
Qed.

Lemma Math_max_of_Z (a b : Z) :
  Math_max (of_Z a) (of_Z b) = of_Z (Z.max a b).
Proof.
  unfold Math_max. rewrite compare_of_Z, of_Z_not_neg_zero.
  unfold Z.max. destruct (a ?= b) eqn:C; reflexivity.
Qed.

Lemma strict_neq_of_Z (a b : Z) :
  strict_neq (of_Z a) (of_Z b) = negb (a =? b).
Proof.
  unfold strict_neq, strict_eq. rewrite compare_of_Z, Z.eqb_compare.
  destruct (a ?= b); reflexivity.
Qed.

(** ** Rounding *)

Lemma round_half_even_upper (num den z : Z) :
  0 < den -> num <= z * den ->
  round_half_even (num / den) (num mod den) den <= z.
Proof.
  intros Hd H.
  pose proof (Z.div_mod num den ltac:(lia)) as E.
  pose proof (Z.mod_pos_bound num den Hd) as B.
  assert (Q1 : num / den <= z) by nia.
  unfold round_half_even.
  destruct (2 * (num mod den) ?= den) eqn:C; [ | exact Q1 | ].
  - apply Z.compare_eq in C. destruct (Z.even (num / den)); [exact Q1|]. nia.
  - apply Z.compare_gt_iff in C. nia.
Qed.

Lemma round_half_even_lower (num den z : Z) :
  0 < den -> z * den <= num ->
  z <= round_half_even (num / den) (num mod den) den.
Proof.
  intros Hd H.
  pose proof (Z.div_mod num den ltac:(lia)) as E.
  pose proof (Z.mod_pos_bound num den Hd) as B.
  assert (Q1 : z <= num / den) by nia.
  unfold round_half_even.
  destruct (2 * (num mod den) ?= den); [destruct (Z.even (num / den))| |]; lia.
Qed.

(** [2^(log2_ratio n d) <= n / d]. *)
Lemma log2_ratio_lower (n d : positive) :
  (pow2 (log2_ratio n d) * inject_Z (Zpos d) <= inject_Z (Zpos n))%Q.
Proof.
  unfold log2_ratio.
  pose proof (Z.log2_spec (Zpos n) ltac:(lia)) as [Ln _].
  pose proof (Z.log2_spec (Zpos d) ltac:(lia)) as [_ Ld].
  pose proof (Z.log2_nonneg (Zpos n)) as Nn.
  pose proof (Z.log2_nonneg (Zpos d)) as Nd.
  set (a := Z.log2 (Zpos n)) in *. set (b := Z.log2 (Zpos d)) in *.
  assert (Hfail : (pow2 (a - b - 1) * inject_Z (Zpos d) <= inject_Z (Zpos n))%Q).
  { apply Qle_trans with (pow2 a).
    - replace a with ((a - b - 1) + (b + 1)) at 2 by ring.
      rewrite pow2_add. apply Qmult_le_l; [apply pow2_pos|].
      rewrite pow2_Z by lia. rewrite <- Zle_Qle. lia.
    - rewrite pow2_Z by lia. rewrite <- Zle_Qle. exact Ln. }
  destruct (0 <=? a - b) eqn:S.
  - apply Z.leb_le in S.
    destruct (Zpos d * 2 ^ (a - b) <=? Zpos n) eqn:T; [|exact Hfail].
    apply Z.leb_le in T. rewrite pow2_Z by lia.
    rewrite <- inject_Z_mult, <- Zle_Qle. lia.
  - apply Z.leb_gt in S.
    destruct (Zpos d <=? Zpos n * 2 ^ (- (a - b))) eqn:T; [|exact Hfail].
    apply Z.leb_le in T.
    apply Qmult_le_l with (z := pow2 (- (a - b))); [apply pow2_pos|].
    rewrite Qmult_assoc. rewrite (Qmult_comm (pow2 (- (a - b)))).
    rewrite pow2_cancel, Qmult_1_l.
    rewrite pow2_Z by lia. rewrite <- inject_Z_mult, <- Zle_Qle. lia.
Qed.

(** The shape of a rounded value: the sign is kept. *)
Lemma round_ratio_shape (neg : bool) (n d : positive) (e : Z) :
  round_ratio neg n d e = Zero neg
  \/ round_ratio neg n d e = Inf neg
  \/ exists m' e', round_ratio neg n d e = Fin neg m' e'.
Proof.
  unfold round_ratio.
  destruct (round_half_even _ _ _) as [|p|p]; auto.
  destruct (emax <=? _); auto.
  destruct (mkFin_shape neg p (Z.max emin (log2_ratio n d + e - (prec - 1))))
    as (m' & e' & -> & _). eauto.
Qed.

(** From an inequality between scaled integers to the integers. *)
Lemma scaled_le_Z (A B a b : Z) :
  0 <= a -> 0 <= b ->
  (inject_Z A * pow2 a <= inject_Z B * pow2 b)%Q ->
  A * 2 ^ a <= B * 2 ^ b.
Proof.
  intros Ha Hb H. rewrite !pow2_Z in H by assumption.
  rewrite <- !inject_Z_mult, <- Zle_Qle in H. exact H.
Qed.

(** Multiplying an inequality by [2^k]. *)
Lemma shift_le (x y : Q) (k : Z) :
  (x <= y)%Q -> (x * pow2 k <= y * pow2 k)%Q.
Proof. intros H. apply Qmult_le_compat_r; [exact H|]. apply Qlt_le_weak, pow2_pos. Qed.

(** The numerator and denominator that [round_ratio] divides, against
    a bound [c * 2^kB] whose last bit is not below [2^E]. *)
Lemma round_ratio_operands (n d : positive) (e E : Z) (c kB : Z) :
  E <= kB ->
  let sh := e - E in
  let num := if 0 <=? sh then Zpos n * 2 ^ sh else Zpos n in
  let den := if 0 <=? sh then Zpos d else Zpos d * 2 ^ (- sh) in
  0 < den /\
  ((inject_Z (Zpos n) * pow2 e <= inject_Z c * pow2 kB * inject_Z (Zpos d))%Q
     -> num <= (c * 2 ^ (kB - E)) * den) /\
  ((inject_Z c * pow2 kB * inject_Z (Zpos d) <= inject_Z (Zpos n) * pow2 e)%Q
     -> (c * 2 ^ (kB - E)) * den <= num).
Proof.
  intros Hk sh num den. subst num den.
  assert (P : forall x, 0 <= x -> 0 < 2 ^ x) by (intros; apply Z.pow_pos_nonneg; lia).
  assert (Qeq_le : forall x y : Q, (x == y)%Q -> (x <= y)%Q)
    by (intros x y ->; apply Qle_refl).
  destruct (0 <=? sh) eqn:S; [apply Z.leb_le in S | apply Z.leb_gt in S].
  - split; [lia|]. split; intros H; apply (shift_le _ _ (- E)) in H.
    + assert (G : (inject_Z (Zpos n) * pow2 sh
                   <= inject_Z (c * Zpos d) * pow2 (kB - E))%Q).
      { unfold sh, Z.sub. rewrite !pow2_add, inject_Z_mult.
        eapply Qle_trans; [|eapply Qle_trans; [exact H|]];
          apply Qeq_le; ring. }
      apply scaled_le_Z in G; [|lia|lia]. lia.
    + assert (G : (inject_Z (c * Zpos d) * pow2 (kB - E)
                   <= inject_Z (Zpos n) * pow2 sh)%Q).
      { unfold sh, Z.sub. rewrite !pow2_add, inject_Z_mult.
        eapply Qle_trans; [|eapply Qle_trans; [exact H|]];
          apply Qeq_le; ring. }
      apply scaled_le_Z in G; [|lia|lia]. lia.
  - split; [specialize (P (- sh)); nia|].
    assert (X : 2 ^ (kB - e) = 2 ^ (kB - E) * 2 ^ (- sh)).
    { rewrite <- Z.pow_add_r by lia. f_equal. unfold sh. ring. }
    pose proof (pow2_cancel e) as Ce.
    split; intros H; apply (shift_le _ _ (- e)) in H.
    + assert (G : (inject_Z (Zpos n) * pow2 0
                   <= inject_Z (c * Zpos d) * pow2 (kB - e))%Q).
      { unfold Z.sub. rewrite inject_Z_mult, pow2_add.
        change (pow2 0) with 1%Q.
        eapply Qle_trans; [|eapply Qle_trans; [exact H|]]; apply Qeq_le.
        - rewrite <- Qmult_assoc, Ce. ring.
        - ring. }
      apply scaled_le_Z in G; [|lia|lia]. rewrite Z.pow_0_r in G. nia.
    + assert (G : (inject_Z (c * Zpos d) * pow2 (kB - e)
                   <= inject_Z (Zpos n) * pow2 0)%Q).
      { unfold Z.sub. rewrite inject_Z_mult, pow2_add.
        change (pow2 0) with 1%Q.
        eapply Qle_trans; [|eapply Qle_trans; [exact H|]]; apply Qeq_le.
        - ring.
        - rewrite <- Qmult_assoc, Ce. ring. }
      apply scaled_le_Z in G; [|lia|lia]. rewrite Z.pow_0_r in G. nia.
Qed.

(** Rounding does not cross 100: a value of at most 100 rounds to at
    most 100, a value of at least 100 to at least 100. *)
Lemma round_ratio_le_100 (n d : positive) (e : Z) :
  (inject_Z (Zpos n) * pow2 e <= 100 * inject_Z (Zpos d))%Q ->
  round_ratio false n d e = Zero false
  \/ exists m' e', round_ratio false n d e = Fin false m' e'
                   /\ (F2Q false m' e' <= 100)%Q.
Proof.
  intros H.
  pose proof (log2_ratio_lower n d) as L.
  set (lg := log2_ratio n d) in *.
  assert (S1 : lg + e <= 6).
  { destruct (Z_le_gt_dec (lg + e) 6) as [|G]; [assumption|exfalso].
    assert (G' : (pow2 7 <= pow2 (lg + e))%Q) by (apply pow2_le; lia).
    rewrite pow2_add in G'. change (pow2 7) with 128%Q in G'.
    apply (shift_le _ _ e) in L.
    assert (D : (0 < inject_Z (Zpos d))%Q) by (rewrite <- (Zlt_Qlt 0); lia).
    assert (U : (128 * inject_Z (Zpos d) <= 100 * inject_Z (Zpos d))%Q).
    { eapply Qle_trans; [|exact H]. eapply Qle_trans; [|exact L].
      setoid_replace (pow2 lg * inject_Z (Zpos d) * pow2 e)%Q
        with ((pow2 lg * pow2 e) * inject_Z (Zpos d))%Q by ring.
      apply Qmult_le_compat_r; [exact G' | apply Qlt_le_weak, D]. }
    clear - U D. revert U D. generalize (inject_Z (Zpos d)). intros q U D.
    apply (Qlt_irrefl (100 * q)).
    eapply Qlt_le_trans; [|exact U].
    apply Qmult_lt_compat_r; [exact D | reflexivity]. }
  unfold round_ratio. fold lg.
  set (E := Z.max emin (lg + e - (prec - 1))).
  assert (S2 : E <= -46) by (unfold E, emin, prec; lia).
  destruct (round_ratio_operands n d e E 25 2 ltac:(lia)) as (Dp & Up & _).
  cbv zeta in Dp, Up.
  set (num := if 0 <=? e - E then Zpos n * 2 ^ (e - E) else Zpos n) in *.
  set (den := if 0 <=? e - E then Zpos d else Zpos d * 2 ^ (- (e - E))) in *.
  assert (HM : round_half_even (num / den) (num mod den) den <= 25 * 2 ^ (2 - E)).
  { apply round_half_even_upper; [exact Dp|]. apply Up.
    change (inject_Z 25 * pow2 2)%Q with (100)%Q. exact H. }
  destruct (round_half_even (num / den) (num mod den) den) as [|p|p]; auto.
  right.
  assert (Lg : Z.log2 (Zpos p) <= 6 - E).
  { etransitivity; [apply Z.log2_le_mono, HM|].
    rewrite Z.log2_mul_pow2 by lia. change (Z.log2 25) with 4. lia. }
  destruct (emax <=? Z.log2 (Zpos p) + E) eqn:O.
  { apply Z.leb_le in O. unfold emax in O. lia. }
  destruct (mkFin_shape false p E) as (m' & e' & -> & V).
  exists m', e'. split; [reflexivity|]. rewrite V. unfold F2Q.
  apply Qle_trans with (inject_Z (25 * 2 ^ (2 - E)) * pow2 E)%Q.
  - apply Qmult_le_compat_r; [now rewrite <- Zle_Qle | apply Qlt_le_weak, pow2_pos].
  - rewrite inject_Z_mult, <- pow2_Z by lia.
    unfold Z.sub. rewrite pow2_add, <- !Qmult_assoc.
    rewrite (Qmult_comm (pow2 (- E))), pow2_cancel.
    change (pow2 2) with 4%Q. apply Qle_lteq; right; ring.
Qed.

(** Rounding does not go below a binary64 value [c * 2^kB] that the
    exact value reaches. *)
Lemma round_ratio_ge (n d : positive) (e : Z) (c kB : Z) :
  0 < c < 2 ^ prec -> emin <= kB ->
  (inject_Z c * pow2 kB * inject_Z (Zpos d) <= inject_Z (Zpos n) * pow2 e)%Q ->
  round_ratio false n d e = Inf false
  \/ exists m' e', round_ratio false n d e = Fin false m' e'
                   /\ (inject_Z c * pow2 kB <= F2Q false m' e')%Q.
Proof.
  intros Hc Hk H.
  pose proof (log2_ratio_lower n d) as L.
  set (lg := log2_ratio n d) in *.
  unfold round_ratio. fold lg.
  set (E := Z.max emin (lg + e - (prec - 1))).
  assert (D : (0 < inject_Z (Zpos d))%Q) by (rewrite <- (Zlt_Qlt 0); lia).
  (* a lower bound [c' * 2^k'] on the value, with [E <= k'], that is at
     least [c * 2^kB] *)
  assert (B : exists c' k', 0 < c' /\ E <= k' /\
              (inject_Z c' * pow2 k' * inject_Z (Zpos d)
               <= inject_Z (Zpos n) * pow2 e)%Q /\
              (inject_Z c * pow2 kB <= inject_Z c' * pow2 k')%Q).
  { destruct (Z_le_gt_dec E kB) as [S|S].
    - exists c, kB. repeat split; try lia; [exact H | apply Qle_refl].
    - exists (2 ^ 52), E.
      assert (EE : E = lg + e - 52) by (unfold E, emin, prec in *; lia).
      repeat split; try lia.
      + apply (shift_le _ _ e) in L.
        eapply Qle_trans; [|exact L].
        rewrite <- pow2_Z by lia.
        setoid_replace (pow2 lg * inject_Z (Zpos d) * pow2 e)%Q
          with ((pow2 lg * pow2 e) * inject_Z (Zpos d))%Q by ring.
        rewrite <- !pow2_add.
        apply Qmult_le_compat_r; [|apply Qlt_le_weak, D].
        apply pow2_le. lia.
      + rewrite <- pow2_Z, <- pow2_add by lia.
        apply Qle_trans with (pow2 prec * pow2 kB)%Q.
        * apply Qmult_le_compat_r; [|apply Qlt_le_weak, pow2_pos].
          rewrite pow2_Z by (unfold prec; lia). rewrite <- Zle_Qle. lia.
        * rewrite <- pow2_add. apply pow2_le. unfold prec. lia. }
  destruct B as (c' & k' & Hc' & HE & Hlow & Hbig).
  destruct (round_ratio_operands n d e E c' k' HE) as (Dp & _ & Lo).
  cbv zeta in Dp, Lo.
  set (num := if 0 <=? e - E then Zpos n * 2 ^ (e - E) else Zpos n) in *.
  set (den := if 0 <=? e - E then Zpos d else Zpos d * 2 ^ (- (e - E))) in *.
  assert (HM : c' * 2 ^ (k' - E) <= round_half_even (num / den) (num mod den) den).
  { apply round_half_even_lower; [exact Dp|]. apply Lo, Hlow. }
  assert (Pp : 0 < c' * 2 ^ (k' - E)).
  { apply Z.mul_pos_pos; [exact Hc'|]. apply Z.pow_pos_nonneg; lia. }
  destruct (round_half_even (num / den) (num mod den) den) as [|p|p]; try lia.
  destruct (emax <=? Z.log2 (Zpos p) + E); [left; reflexivity|right].
  destruct (mkFin_shape false p E) as (m' & e' & -> & V).
  exists m', e'. split; [reflexivity|]. rewrite V. unfold F2Q.
  eapply Qle_trans; [exact Hbig|].
  apply Qle_trans with (inject_Z (c' * 2 ^ (k' - E)) * pow2 E)%Q.
  - rewrite inject_Z_mult, <- pow2_Z by lia.
    unfold Z.sub. rewrite pow2_add, <- !Qmult_assoc.
    rewrite (Qmult_comm (pow2 (- E))), pow2_cancel.
    apply Qle_lteq; right; ring.
  - apply Qmult_le_compat_r; [now rewrite <- Zle_Qle | apply Qlt_le_weak, pow2_pos].
Qed.

Lemma round_ratio_ge_100 (n d : positive) (e : Z) :
  (100 * inject_Z (Zpos d) <= inject_Z (Zpos n) * pow2 e)%Q ->
  round_ratio false n d e = Inf false
  \/ exists m' e', round_ratio false n d e = Fin false m' e'
                   /\ (100 <= F2Q false m' e')%Q.
Proof.
  intros H.
  apply (round_ratio_ge n d e 25 2); [unfold prec; lia | unfold emin; lia|].
  exact H.
Qed.

(** ** Signs *)

Lemma F2Q_pos (m : positive) (e : Z) : (0 < F2Q false m e)%Q.
Proof.
  unfold F2Q. apply Qmult_lt_0_compat; [|apply pow2_pos].
  rewrite <- (Zlt_Qlt 0). lia.
Qed.

Lemma F2Q_neg (m : positive) (e : Z) : (F2Q true m e < 0)%Q.
Proof.
  pose proof (F2Q_pos m e) as H. unfold F2Q in *.
  change (inject_Z (Z.neg m)) with (- inject_Z (Z.pos m))%Q.
  setoid_replace (- inject_Z (Z.pos m) * pow2 e)%Q
    with (- (inject_Z (Z.pos m) * pow2 e))%Q by ring.
  revert H. generalize (inject_Z (Z.pos m) * pow2 e)%Q. intros q H.
  apply Qopp_lt_compat in H. exact H.
Qed.

Lemma round_ratio_nonneg n d e : nonneg (round_ratio false n d e).
Proof.
  destruct (round_ratio_shape false n d e) as [-> | [-> | (m & e' & ->)]];
    exact I.
Qed.

Lemma round_ratio_nonpos n d e : nonpos (round_ratio true n d e).
Proof.
  destruct (round_ratio_shape true n d e) as [-> | [-> | (m & e' & ->)]];
    exact I.
Qed.

(** ** [Math.floor] *)

Lemma Math_floor_Fin neg m e :
  Math_floor (Fin neg m e) = of_Z (Qfloor (F2Q neg m e)).
Proof. reflexivity. Qed.

Lemma Math_floor_nonpos x : nonpos x -> nonpos (Math_floor x).
Proof.
  destruct x as [|[]|[]|[] m e]; cbn [nonpos]; try tauto. intros _.
  rewrite Math_floor_Fin.
  pose proof (F2Q_neg m e) as H. pose proof (Qfloor_le (F2Q true m e)) as F.
  assert (Z1 : Qfloor (F2Q true m e) < 0).
  { rewrite Zlt_Qlt. eapply Qle_lt_trans; eassumption. }
  destruct (of_Z_cases (Qfloor (F2Q true m e))) as [[? _] | (m' & e' & ->)];
    [lia|].
  apply Z.ltb_lt in Z1. rewrite Z1. exact I.
Qed.

(** ** The clamp of the progress translator *)

Lemma clamp_nonpos x :
  nonpos x -> Math_max (of_Z 0) (Math_min (of_Z 100) x) = of_Z 0.
Proof.
  destruct x as [|[]|[]|[] m e]; cbn [nonpos]; try tauto; intros _;
    try reflexivity.
  pose proof (F2Q_neg m e) as H.
  assert (C1 : compare (of_Z 100) (Fin true m e) = Some Gt).
  { change (Some (to_Q (of_Z 100) ?= F2Q true m e)%Q = Some Gt). f_equal.
    apply Qgt_alt. eapply Qlt_trans; [exact H|]. reflexivity. }
  assert (C2 : compare (of_Z 0) (Fin true m e) = Some Gt).
  { change (Some (0 ?= F2Q true m e)%Q = Some Gt). f_equal.
    apply Qgt_alt. exact H. }
  unfold Math_min. rewrite C1. unfold Math_max. rewrite C2. reflexivity.
Qed.

Lemma clamp_of_Z (z : Z) :
  Math_max (of_Z 0) (Math_min (of_Z 100) (of_Z z))
  = of_Z (Z.max 0 (Z.min 100 z)).
Proof. now rewrite Math_min_of_Z, Math_max_of_Z. Qed.

(** The clamped floor of any Number but NaN is an integer of [0,100]. *)
Lemma clamp_floor_range (x : number) :
  x <> NaN ->
  exists n, Math_max (of_Z 0) (Math_min (of_Z 100) (Math_floor x)) = of_Z n
            /\ 0 <= n <= 100.
Proof.
  intros H. destruct x as [|[]|[]|neg m e]; try congruence.
  - exists 0. split; [reflexivity | lia].
  - exists 100. split; [reflexivity | lia].
  - exists 0. split; [reflexivity | lia].
  - exists 0. split; [reflexivity | lia].
  - rewrite Math_floor_Fin, clamp_of_Z. eexists; split; [reflexivity | lia].
Qed.

Lemma mul_100_le_1 (m : positive) (e : Z) :
  (F2Q false m e <= 1)%Q ->
  mul (Fin false m e) (of_Z 100) = Zero false
  \/ exists m' e', mul (Fin false m e) (of_Z 100) = Fin false m' e'
                   /\ (F2Q false m' e' <= 100)%Q.
Proof.
  intros H. change (of_Z 100) with (Fin false 25 2).
  cbn [mul xorb]. unfold round_dyadic.
  apply round_ratio_le_100.
  unfold F2Q in H. rewrite Pos2Z.inj_mul, inject_Z_mult, pow2_add.
  change (pow2 2) with 4%Q. change (inject_Z 25) with 25%Q.
  change (inject_Z 1) with 1%Q.
  revert H. generalize (inject_Z (Z.pos m)) (pow2 e). intros a b H.
  setoid_replace (a * 25 * (b * 4))%Q with (100 * (a * b))%Q by ring.
  setoid_replace (100 * 1)%Q with (100 * 1 * 1)%Q by ring.
  rewrite <- Qmult_assoc. apply Qmult_le_l; [reflexivity|].
  now rewrite Qmult_1_l.
Qed.

Lemma mul_100_ge_1 (m : positive) (e : Z) :
  (1 <= F2Q false m e)%Q ->
  mul (Fin false m e) (of_Z 100) = Inf false
  \/ exists m' e', mul (Fin false m e) (of_Z 100) = Fin false m' e'
                   /\ (100 <= F2Q false m' e')%Q.
Proof.
  intros H. change (of_Z 100) with (Fin false 25 2).
  cbn [mul xorb]. unfold round_dyadic.
  apply round_ratio_ge_100.
  unfold F2Q in H. rewrite Pos2Z.inj_mul, inject_Z_mult, pow2_add.
  change (pow2 2) with 4%Q. change (inject_Z 25) with 25%Q.
  change (inject_Z 1) with 1%Q.
  revert H. generalize (inject_Z (Z.pos m)) (pow2 e). intros a b H.
  setoid_replace (a * 25 * (b * 4))%Q with (100 * (a * b))%Q by ring.
  setoid_replace (100 * 1)%Q with (100 * 1 * 1)%Q by ring.
  rewrite <- Qmult_assoc. apply Qmult_le_l; [reflexivity|].
  now rewrite Qmult_1_l.
Qed.

(** Clamping the product to [0,100] after the floor, as the source
    does, or the ratio to [0,1] before the product, as the
    specification words it, is the same. *)
Lemma clamp_floor_commute (q : number) :
  Math_max (of_Z 0) (Math_min (of_Z 100) (Math_floor (mul q (of_Z 100))))
  = Math_floor (mul (Math_max (of_Z 0) (Math_min (of_Z 1) q)) (of_Z 100)).
Proof.
  destruct q as [|[]|[]|[] m e]; try reflexivity.
  - (* negative *)
    rewrite clamp_nonpos.
    2:{ apply Math_floor_nonpos. change (of_Z 100) with (Fin false 25 2).
        cbn [mul xorb]. apply round_ratio_nonpos. }
    pose proof (F2Q_neg m e) as H.
    assert (C1 : compare (of_Z 1) (Fin true m e) = Some Gt).
    { change (Some (1 ?= F2Q true m e)%Q = Some Gt). f_equal.
      apply Qgt_alt. eapply Qlt_trans; [exact H|]. reflexivity. }
    assert (C2 : compare (of_Z 0) (Fin true m e) = Some Gt).
    { change (Some (0 ?= F2Q true m e)%Q = Some Gt). f_equal.
      apply Qgt_alt. exact H. }
    unfold Math_min. rewrite C1. unfold Math_max. rewrite C2. reflexivity.
  - (* positive *)
    pose proof (F2Q_pos m e) as P.
    assert (C0 : compare (of_Z 0) (Fin false m e) = Some Lt).
    { change (Some (0 ?= F2Q false m e)%Q = Some Lt). f_equal.
      apply Qlt_alt. exact P. }
    assert (C1 : compare (of_Z 1) (Fin false m e)
                 = Some (1 ?= F2Q false m e)%Q) by reflexivity.
    destruct (Qcompare_spec 1 (F2Q false m e)) as [E1 | L1 | G1].
    + (* the ratio is 1 *)
      unfold Math_min at 2. rewrite C1.
      change (is_neg_zero (of_Z 1)) with false. cbv iota.
      unfold Math_max at 2. rewrite C0.
      destruct (mul_100_le_1 m e) as [-> | (m' & e' & -> & V)];
        [rewrite <- E1; apply Qle_refl | reflexivity |].
      rewrite Math_floor_Fin, clamp_of_Z. f_equal.
      pose proof (Qfloor_resp_le _ _ V) as U. change (Qfloor 100) with 100 in U.
      pose proof (Qfloor_resp_le _ _ (Qlt_le_weak _ _ (F2Q_pos m' e'))) as W.
      change (Qfloor 0) with 0 in W. lia.
    + (* the ratio is above 1 *)
      unfold Math_min at 2. rewrite C1.
      change (Math_floor (mul (Math_max (of_Z 0) (of_Z 1)) (of_Z 100)))
        with (of_Z 100).
      destruct (mul_100_ge_1 m e) as [-> | (m' & e' & -> & V)];
        [apply Qlt_le_weak, L1 | reflexivity |].
      rewrite Math_floor_Fin, clamp_of_Z. f_equal.
      pose proof (Qfloor_resp_le _ _ V) as U. change (Qfloor 100) with 100 in U.
      lia.
    + (* the ratio is below 1 *)
      unfold Math_min at 2. rewrite C1.
      unfold Math_max at 2. rewrite C0.
      destruct (mul_100_le_1 m e) as [-> | (m' & e' & -> & V)];
        [apply Qlt_le_weak, G1 | reflexivity |].
      rewrite Math_floor_Fin, clamp_of_Z. f_equal.
      pose proof (Qfloor_resp_le _ _ V) as U. change (Qfloor 100) with 100 in U.
      pose proof (Qfloor_resp_le _ _ (Qlt_le_weak _ _ (F2Q_pos m' e'))) as W.
      change (Qfloor 0) with 0 in W. lia.
Qed.

(** ** Values that need no rounding *)

Lemma strip_spec (m : positive) :
  forall e,
    Zpos m = Zpos (fst (strip m e)) * 2 ^ (snd (strip m e) - e)
    /\ e <= snd (strip m e)
    /\ Z.odd (Zpos (fst (strip m e))) = true.
Proof.
  induction m as [m IH | m IH |]; intros e; cbn [strip fst snd].
  - rewrite Z.sub_diag. split; [lia|]. split; [lia | reflexivity].
  - destruct (IH (e + 1)) as (V & L & O).
    split; [|split; [lia | exact O]].
    replace (snd (strip m (e + 1)) - e) with ((snd (strip m (e + 1)) - (e + 1)) + 1)
      by ring.
    rewrite Z.pow_add_r by lia. change (2 ^ 1) with 2. lia.
  - rewrite Z.sub_diag. split; [lia|]. split; [lia | reflexivity].
Qed.

Lemma strip_odd (m : positive) (e : Z) :
  Z.odd (Zpos m) = true -> strip m e = (m, e).
Proof. destruct m; try reflexivity. discriminate. Qed.

(** A mantissa times a power of two strips to the same pair. *)
Lemma strip_scaled (k : Z) :
  0 <= k ->
  forall p m e, Zpos p = Zpos m * 2 ^ k -> strip p e = strip m (e + k).
Proof.
  intros Hk. pattern k. apply natlike_ind; [| |exact Hk]; clear k Hk.
  - intros p m e H. rewrite Z.mul_1_r in H. injection H as ->.
    now rewrite Z.add_0_r.
  - intros k Hk IH p m e H.
    rewrite Z.pow_succ_r in H by exact Hk.
    destruct p as [p | p |]; try lia.
    cbn [strip]. rewrite (IH p m (e + 1)) by lia. f_equal. lia.
Qed.

Lemma strip_exponent (m : positive) :
  forall e k, strip m (e + k) = (fst (strip m e), snd (strip m e) + k).
Proof.
  induction m as [m IH | m IH |]; intros e k; cbn [strip fst snd];
    try reflexivity.
  replace (e + k + 1) with ((e + 1) + k) by ring. apply IH.
Qed.

Lemma mkFin_binary64 (neg : bool) (M : positive) (E : Z) :
  Zpos M <= 2 ^ prec -> emin <= E -> Z.log2 (Zpos M) + E < emax ->
  binary64 (mkFin neg M E).
Proof.
  intros B L O. unfold mkFin.
  destruct (strip_spec M E) as (V & G & Od).
  destruct (strip M E) as [m' e']. cbn [fst snd] in *. cbn [binary64].
  assert (P : 0 < 2 ^ (e' - E)) by (apply Z.pow_pos_nonneg; lia).
  split; [|split; [lia|split; [|exact Od]]].
  - assert (Zpos m' <= Zpos M) by nia.
    assert (Zpos m' <> 2 ^ prec).
    { intros X. rewrite X in Od. discriminate Od. }
    lia.
  - rewrite V, Z.log2_mul_pow2 in O by lia. lia.
Qed.

(** [n / d < 2^(log2_ratio n d + 1)]. *)
Lemma log2_ratio_upper (n d : positive) :
  (inject_Z (Zpos n) <= pow2 (log2_ratio n d + 1) * inject_Z (Zpos d))%Q.
Proof.
  unfold log2_ratio.
  pose proof (Z.log2_spec (Zpos n) ltac:(lia)) as [_ Ln].
  pose proof (Z.log2_spec (Zpos d) ltac:(lia)) as [Ld _].
  pose proof (Z.log2_nonneg (Zpos n)) as Nn.
  pose proof (Z.log2_nonneg (Zpos d)) as Nd.
  set (a := Z.log2 (Zpos n)) in *. set (b := Z.log2 (Zpos d)) in *.
  assert (Hpass : (inject_Z (Zpos n)
                   <= pow2 (a - b + 1) * inject_Z (Zpos d))%Q).
  { apply Qle_trans with (pow2 (a + 1)).
    - rewrite pow2_Z by lia. rewrite <- Zle_Qle. lia.
    - replace (a + 1) with ((a - b + 1) + b) at 1 by ring.
      rewrite pow2_add. apply Qmult_le_l; [apply pow2_pos|].
      rewrite pow2_Z by lia. rewrite <- Zle_Qle. exact Ld. }
  destruct (0 <=? a - b) eqn:S.
  - apply Z.leb_le in S.
    destruct (Zpos d * 2 ^ (a - b) <=? Zpos n) eqn:T; [exact Hpass|].
    apply Z.leb_gt in T. replace (a - b - 1 + 1) with (a - b) by ring.
    rewrite pow2_Z by lia. rewrite <- inject_Z_mult, <- Zle_Qle. lia.
  - apply Z.leb_gt in S.
    destruct (Zpos d <=? Zpos n * 2 ^ (- (a - b))) eqn:T; [exact Hpass|].
    apply Z.leb_gt in T. replace (a - b - 1 + 1) with (a - b) by ring.
    assert (T' : (inject_Z (Zpos n) * pow2 (- (a - b)) <= inject_Z (Zpos d))%Q).
    { rewrite pow2_Z by lia. rewrite <- inject_Z_mult, <- Zle_Qle. lia. }
    apply (shift_le _ _ (a - b)) in T'.
    pose proof (pow2_cancel (a - b)) as Ce.
    eapply Qle_trans; [|eapply Qle_trans; [exact T'|]].
    + rewrite <- Qmult_assoc, (Qmult_comm (pow2 (- (a - b)))), Ce.
      rewrite Qmult_1_r. apply Qle_refl.
    + rewrite Qmult_comm. apply Qle_refl.
Qed.

(** What [round_ratio] returns is a binary64 value. *)
Lemma round_ratio_binary64 (neg : bool) (n d : positive) (e : Z) :
  binary64 (round_ratio neg n d e).
Proof.
  pose proof (log2_ratio_upper n d) as U.
  unfold round_ratio. set (lg := log2_ratio n d) in *.
  set (E := Z.max emin (lg + e - (prec - 1))).
  set (kB := Z.max E (lg + 1 + e)).
  destruct (round_ratio_operands n d e E 1 kB ltac:(lia)) as (Dp & Up & _).
  cbv zeta in Dp, Up.
  set (num := if 0 <=? e - E then Zpos n * 2 ^ (e - E) else Zpos n) in *.
  set (den := if 0 <=? e - E then Zpos d else Zpos d * 2 ^ (- (e - E))) in *.
  assert (HM : round_half_even (num / den) (num mod den) den <= 2 ^ prec).
  { apply Z.le_trans with (1 * 2 ^ (kB - E)).
    - apply round_half_even_upper; [exact Dp|]. apply Up.
      apply (shift_le _ _ e) in U.
      eapply Qle_trans; [exact U|].
      change (inject_Z 1) with 1%Q. rewrite Qmult_1_l.
      setoid_replace (pow2 (lg + 1) * inject_Z (Z.pos d) * pow2 e)%Q
        with ((pow2 (lg + 1) * pow2 e) * inject_Z (Z.pos d))%Q by ring.
      rewrite <- pow2_add. apply Qmult_le_compat_r.
      + apply pow2_le. lia.
      + rewrite <- (Zle_Qle 0). lia.
    - rewrite Z.mul_1_l. apply Z.pow_le_mono_r; [lia|].
      unfold kB, E, prec, emin. lia. }
  destruct (round_half_even (num / den) (num mod den) den) as [|p|p];
    try exact I.
  destruct (emax <=? Z.log2 (Zpos p) + E) eqn:O; [exact I|].
  apply Z.leb_gt in O.
  apply mkFin_binary64; [exact HM | unfold E; lia | exact O].
Qed.

(** A binary64 value is its own rounding. *)
Lemma round_exact (neg : bool) (m : positive) (e : Z) :
  Zpos m < 2 ^ prec -> emin <= e -> Z.log2 (Zpos m) + e < emax ->
  round_ratio neg m 1 e = mkFin neg m e.
Proof.
  intros B L O. unfold round_ratio.
  assert (Lg : log2_ratio m 1 = Z.log2 (Zpos m)).
  { unfold log2_ratio. change (Z.log2 1) with 0. rewrite Z.sub_0_r.
    pose proof (Z.log2_nonneg (Zpos m)) as N.
    pose proof (Z.log2_spec (Zpos m) ltac:(lia)) as [S _].
    destruct (0 <=? Z.log2 (Zpos m)) eqn:T; [|apply Z.leb_gt in T; lia].
    destruct (1 * 2 ^ Z.log2 (Zpos m) <=? Zpos m) eqn:T2; [reflexivity|].
    apply Z.leb_gt in T2. lia. }
  rewrite Lg.
  assert (Lm : Z.log2 (Zpos m) < prec).
  { apply Z.log2_lt_pow2; [lia | exact B]. }
  set (E := Z.max emin (Z.log2 (Zpos m) + e - (prec - 1))).
  assert (HE : E <= e) by (unfold E; lia).
  assert (S : (0 <=? e - E) = true) by (apply Z.leb_le; lia).
  rewrite S. rewrite Z.div_1_r, Z.mod_1_r.
  unfold round_half_even. change (2 * 0 ?= 1) with Lt. cbv iota.
  assert (P : 0 < 2 ^ (e - E)) by (apply Z.pow_pos_nonneg; lia).
  destruct (Zpos m * 2 ^ (e - E)) as [|p|p] eqn:V; try lia.
  assert (Lp : Z.log2 (Zpos p) = Z.log2 (Zpos m) + (e - E)).
  { rewrite <- V. rewrite Z.log2_mul_pow2 by lia. lia. }
  destruct (emax <=? Z.log2 (Zpos p) + E) eqn:Ov.
  { apply Z.leb_le in Ov. lia. }
  unfold mkFin. rewrite (strip_scaled (e - E) ltac:(lia) p m E (eq_sym V)).
  replace (E + (e - E)) with e by ring. reflexivity.
Qed.

Lemma of_Z_binary64 (z : Z) : Z.abs z < 2 ^ prec -> binary64 (of_Z z).
Proof.
  intros B. destruct z as [|p|p]; [exact I| |]; cbn [of_Z Z.abs] in *;
    (apply mkFin_binary64; [lia | unfold emin; lia |]);
    pose proof (proj1 (Z.log2_lt_pow2 (Zpos p) prec ltac:(lia)) B) as L;
    unfold emax, prec in *; lia.
Qed.

(** A value of 1 or more has no bit below [2^-52]. *)
Lemma binary64_ge_1_exponent (m : positive) (e : Z) :
  Zpos m < 2 ^ prec -> (1 <= F2Q false m e)%Q -> - 52 <= e.
Proof.
  intros B H. destruct (Z_le_gt_dec (- 52) e) as [|G]; [assumption|exfalso].
  unfold F2Q in H.
  assert (U : (inject_Z (Zpos m) * pow2 e <= inject_Z (2 ^ prec - 1) * pow2 (- 53))%Q).
  { apply Qle_trans with (inject_Z (Zpos m) * pow2 (- 53))%Q.
    - apply Qmult_le_l; [rewrite <- (Zlt_Qlt 0); lia | apply pow2_le; lia].
    - apply Qmult_le_compat_r; [rewrite <- Zle_Qle; lia|].
      apply Qlt_le_weak, pow2_pos. }
  assert (X : (inject_Z (2 ^ prec - 1) * pow2 (- 53) < 1)%Q) by reflexivity.
  apply (Qlt_irrefl 1). eapply Qle_lt_trans; [exact H|].
  eapply Qle_lt_trans; [exact U | exact X].
Qed.

(** Halving a binary64 value of 1 or more is exact. *)
Lemma div_2_exact (m : positive) (e : Z) :
  binary64 (Fin false m e) -> (1 <= F2Q false m e)%Q ->
  div (Fin false m e) (of_Z 2) = Fin false m (e - 1).
Proof.
  intros (B & L & O & Od) H. change (of_Z 2) with (Fin false 1 1).
  cbn [div xorb].
  pose proof (binary64_ge_1_exponent m e B H) as X.
  rewrite round_exact; [|exact B|unfold emin; lia|lia].
  unfold mkFin. now rewrite strip_odd.
Qed.

(** Doubling an integer below [2^1023] whose odd part has at most 53
    bits is exact. *)
Lemma mul_2_exact (z : Z) :
  0 <= z -> binary64 (of_Z z) -> Z.log2 z + 1 < emax ->
  mul (of_Z z) (of_Z 2) = of_Z (2 * z).
Proof.
  intros Nz Bz Lz. destruct z as [|p|p]; [reflexivity| |lia].
  cbn [of_Z] in *. unfold mkFin in *.
  destruct (strip_spec p 0) as (V & G & Od).
  pose proof (strip_exponent p 0 1) as Sx.
  destruct (strip p 0) as [mz ez]. cbn [fst snd] in *.
  cbn [binary64] in Bz. destruct Bz as (B & _ & _ & _).
  change (of_Z 2) with (Fin false 1 1). change (2 * Z.pos p) with (Z.pos p~0).
  cbn [mul xorb of_Z strip]. unfold round_dyadic.
  rewrite Pos.mul_1_r. rewrite round_exact; [|exact B|unfold emin; lia|].
  - unfold mkFin. cbn [strip]. change (0 + 1) with 1 in *.
    now rewrite (strip_odd mz (ez + 1) Od), Sx.
  - rewrite V, Z.sub_0_r, Z.log2_mul_pow2 in Lz by lia. lia.
Qed.

Lemma F2Q_half (m : positive) (e : Z) :
  (F2Q false m (e - 1) == F2Q false m e / 2)%Q.
Proof.
  unfold F2Q, Z.sub. rewrite pow2_add. change (pow2 (-1)) with (1 # 2)%Q.
  unfold Qdiv. change (/ 2)%Q with (1 # 2)%Q.
  rewrite Qmult_assoc. reflexivity.
Qed.

(** [trunc (x / 2) * 2] on a binary64 value of 1 or more: the largest
    even integer that is not above it. *)
Lemma halve_trunc_double (m : positive) (e : Z) :
  binary64 (Fin false m e) -> (1 <= F2Q false m e)%Q ->
  mul (trunc (div (Fin false m e) (of_Z 2))) (of_Z 2)
  = of_Z (2 * Qfloor (F2Q false m e / 2)).
Proof.
  intros Bx H. rewrite div_2_exact by assumption.
  destruct Bx as (B & L & O & Od).
  pose proof (binary64_ge_1_exponent m e B H) as X.
  cbn [trunc]. rewrite <- (Qfloor_comp _ _ (F2Q_half m e)).
  set (z := Qfloor (F2Q false m (e - 1))).
  assert (Nz : 0 <= z).
  { change 0 with (Qfloor 0). apply Qfloor_resp_le.
    apply Qlt_le_weak, F2Q_pos. }
  assert (T : match z with
              | Z.pos p => mkFin false p 0
              | _ => Zero false
              end = of_Z z) by (destruct z; try reflexivity; lia).
  rewrite T. apply mul_2_exact; [exact Nz | |].
  - destruct (Z_le_gt_dec 1 e) as [G | G].
    + (* the half is an integer *)
      assert (Ez : z = Zpos m * 2 ^ (e - 1)).
      { unfold z, F2Q. rewrite pow2_Z by lia.
        rewrite <- inject_Z_mult. apply Qfloor_Z. }
      assert (P : 0 < 2 ^ (e - 1)) by (apply Z.pow_pos_nonneg; lia).
      destruct z as [|p|p]; try lia. cbn [of_Z]. unfold mkFin.
      rewrite (strip_scaled (e - 1) ltac:(lia) p m 0 Ez).
      rewrite strip_odd by exact Od. cbn [binary64].
      unfold emin in *. repeat split; try lia. exact Od.
    + apply of_Z_binary64. rewrite Z.abs_eq by exact Nz.
      apply Z.le_lt_trans with (Zpos m); [|exact B].
      rewrite Zle_Qle. eapply Qle_trans; [apply Qfloor_le|].
      unfold F2Q. rewrite <- (Qmult_1_r (inject_Z (Z.pos m))) at 2.
      apply Qmult_le_l; [rewrite <- (Zlt_Qlt 0); lia|].
      change 1%Q with (pow2 0). apply pow2_le. lia.
  - destruct (Z_le_gt_dec 1 e) as [G | G].
    + assert (Ez : z = Zpos m * 2 ^ (e - 1)).
      { unfold z, F2Q. rewrite pow2_Z by lia.
        rewrite <- inject_Z_mult. apply Qfloor_Z. }
      rewrite Ez, Z.log2_mul_pow2 by lia. lia.
    + assert (Uz : z <= Zpos m).
      { rewrite Zle_Qle. eapply Qle_trans; [apply Qfloor_le|].
        unfold F2Q. rewrite <- (Qmult_1_r (inject_Z (Z.pos m))) at 2.
        apply Qmult_le_l; [rewrite <- (Zlt_Qlt 0); lia|].
        change 1%Q with (pow2 0). apply pow2_le. lia. }
      pose proof (Z.log2_le_mono _ _ Uz) as Lm.
      pose proof (proj1 (Z.log2_lt_pow2 (Zpos m) prec ltac:(lia)) B) as Lp.
      unfold emax, prec in *. lia.
Qed.

(** The product of two values of 1 or more is an infinity or a
    binary64 value of 1 or more. *)
Lemma mul_ge_1 (m1 m2 : positive) (e1 e2 : Z) :
  (1 <= F2Q false m1 e1)%Q -> (1 <= F2Q false m2 e2)%Q ->
  mul (Fin false m1 e1) (Fin false m2 e2) = Inf false
  \/ exists m e, mul (Fin false m1 e1) (Fin false m2 e2) = Fin false m e
                 /\ binary64 (Fin false m e) /\ (1 <= F2Q false m e)%Q.
Proof.
  intros H1 H2. cbn [mul xorb]. unfold round_dyadic.
  pose proof (round_ratio_binary64 false (m1 * m2) 1 (e1 + e2)) as Bx.
  destruct (round_ratio_ge (m1 * m2) 1 (e1 + e2) 1 0) as [-> | (m & e & E & V)].
  - unfold prec. lia.
  - unfold emin. lia.
  - change (inject_Z 1 * pow2 0 * inject_Z 1)%Q with (1 * 1 * 1)%Q.
    rewrite Pos2Z.inj_mul, inject_Z_mult, pow2_add.
    unfold F2Q in H1, H2.
    setoid_replace (inject_Z (Z.pos m1) * inject_Z (Z.pos m2)
                    * (pow2 e1 * pow2 e2))%Q
      with ((inject_Z (Z.pos m1) * pow2 e1)
            * (inject_Z (Z.pos m2) * pow2 e2))%Q by ring.
    revert H1 H2.
    generalize (inject_Z (Z.pos m1) * pow2 e1)%Q
               (inject_Z (Z.pos m2) * pow2 e2)%Q.
    intros a b Ha Hb.
    apply Qle_trans with (1 * b)%Q.
    + rewrite !Qmult_1_l. exact Hb.
    + apply Qmult_le_compat_r; [exact Ha|].
      apply Qle_trans with 1%Q; [discriminate | exact Hb].
  - now left.
  - right. exists m, e. rewrite E in Bx. split; [exact E|]. split; [exact Bx|].
    eapply Qle_trans; [|exact V]. apply Qle_refl.
Qed.

(** ** Sums, products and quotients of non-negative Numbers *)

Lemma mul_nonneg (x : number) (m : positive) (e : Z) :
  nonneg x -> nonneg (mul x (Fin false m e)).
Proof.
  destruct x as [|[]|[]|[] m1 e1]; cbn [nonneg mul xorb]; try tauto.
  intros _. apply round_ratio_nonneg.
Qed.

Lemma add_nonneg (x y : number) : nonneg x -> nonneg y -> nonneg (add x y).
Proof.
  destruct x as [|[]|[]|[] m1 e1]; destruct y as [|[]|[]|[] m2 e2];
    cbn [nonneg add Bool.eqb andb]; try tauto.
  intros _ _.
  assert (P : forall k, 0 <= k -> 0 < 2 ^ k) by (intros; apply Z.pow_pos_nonneg; lia).
  pose proof (P (e1 - Z.min e1 e2) ltac:(lia)) as P1.
  pose proof (P (e2 - Z.min e1 e2) ltac:(lia)) as P2.
  destruct (Z.pos m1 * 2 ^ (e1 - Z.min e1 e2)
            + Z.pos m2 * 2 ^ (e2 - Z.min e1 e2)) as [|p|p] eqn:S; try nia.
  apply round_ratio_nonneg.
Qed.

Lemma div_nonneg (x : number) (m : positive) (e : Z) :
  nonneg x -> nonneg (div x (Fin false m e)).
Proof.
  destruct x as [|[]|[]|[] m1 e1]; cbn [nonneg div xorb]; try tauto.
  intros _. apply round_ratio_nonneg.
Qed.

Lemma nonneg_not_NaN (x : number) : nonneg x -> x <> NaN.
Proof. destruct x; cbn; [tauto | discriminate ..]. Qed.

(** A finite Number above 0 is a positive finite value. *)
Lemma positive_finite (x : number) :
  gt x (of_Z 0) = true -> isFinite x = true ->
  exists m e, x = Fin false m e.
Proof.
  destruct x as [|[]|[]|[] m e]; intros H F;
    try discriminate F; try discriminate H; [|eauto].
  exfalso. unfold gt, lt in H.
  assert (C : compare (of_Z 0) (Fin true m e) = Some Gt).
  { change (Some (0 ?= F2Q true m e)%Q = Some Gt). f_equal.
    apply Qgt_alt, F2Q_neg. }
  rewrite C in H. discriminate.
Qed.

(** ** Agreement with the kernel's binary64 arithmetic

    The operations on hardware floats and the ones above give the same
    Numbers on operands that need every rounding case: an inexact
    product and quotient, a tie, a sum, subnormal results, overflow. *)
Local Open Scope float_scope.

Example arithmetic_agrees_with_binary64 :
  let f := Binary64.of_float in
  mul (f 0x1.28f5c28f5c28fp-2) (f 100) = f (0x1.28f5c28f5c28fp-2 * 100)
  /\ div (f 29) (f 100) = f (29 / 100)
  /\ mul (f 0x1.6666666666666p+0) (f 10) = f 14
  /\ add (f 0x1.999999999999ap-4) (f 0x1.999999999999ap-3)
     = f (0x1.999999999999ap-4 + 0x1.999999999999ap-3)
  /\ div (f 1) (f 3) = f (1 / 3)
  /\ div (f 0x0.0000000000003p-1022) (f 2)
     = f (0x0.0000000000003p-1022 / 2)
  /\ mul (f 0x0.00000000007e8p-1022) (f 0x1.3333333333333p-2)
     = f (0x0.00000000007e8p-1022 * 0x1.3333333333333p-2)
  /\ mul (f 0x1.fffffffffffffp+1023) (f 0x1.0000000000001p+0)
     = f infinity
  /\ add (f 0x1.fffffffffffffp+1023) (f 0x1.9a742461887f6p+966)
     = f (0x1.fffffffffffffp+1023 + 0x1.9a742461887f6p+966)
  /\ add (f 1) (f (-1)) = f (1 + -1).
Proof. vm_compute. repeat split. Qed.

Local Close Scope float_scope.

End JSNumberFacts.

(* ================================================================== *)
(** * Facts about the string functions *)
(* ================================================================== *)

Module JSStringFacts.
Import JSNumber JSString JSNumberFacts.
Local Open Scope string_scope.
Local Open Scope Z_scope.

Local Infix "+++" := String.append (right associativity, at level 60).

Lemma append_assoc (a b c : string) : (a +++ b) +++ c = a +++ b +++ c.
Proof. induction a as [|x a IH]; cbn; [reflexivity | now rewrite IH]. Qed.

Lemma append_empty_r (a : string) : a +++ "" = a.
Proof. induction a as [|x a IH]; cbn; [reflexivity | now rewrite IH]. Qed.

Lemma span_head (p : ascii -> bool) (s : string) (c : ascii) (a b : string) :
  span p s = (String c a, b) -> p c = true /\ exists r, s = String c r.
Proof.
  destruct s as [|c' r]; cbn; [discriminate|].
  destruct (p c') eqn:P; [|discriminate].
  destruct (span p r). intros [= <- _ _]. eauto.
Qed.

(** A digit is neither white space nor a sign, and does not start
    [Infinity]; the same holds of a dot. *)
Lemma digit_or_dot_plain (c : ascii) :
  is_digit_or_dot c = true ->
  is_space c = false /\ c <> "-"%char /\ c <> "+"%char /\ c <> "I"%char.
Proof.
  destruct c as [[] [] [] [] [] [] [] []]; cbn; intros H;
    try discriminate H; repeat split; discriminate.
Qed.

Lemma digit_is_digit_or_dot (c : ascii) :
  is_digit c = true -> is_digit_or_dot c = true.
Proof. unfold is_digit_or_dot. now intros ->. Qed.

Lemma plain_prefix (c : ascii) (r : string) :
  is_digit_or_dot c = true ->
  trim_start (String c r) = String c r
  /\ split_sign (String c r) = (false, String c r)
  /\ starts_with "Infinity" (String c r) = None.
Proof.
  intros H. destruct (digit_or_dot_plain c H) as (S & M & P & I).
  repeat split.
  - cbn [trim_start]. now rewrite S.
  - unfold split_sign.
    destruct c as [[] [] [] [] [] [] [] []]; try reflexivity; congruence.
  - cbn [starts_with]. destruct (Ascii.eqb_spec "I" c); [congruence | reflexivity].
Qed.

Lemma int_to_number_nonneg (z : Z) : nonneg (int_to_number false z).
Proof. destruct z; cbn; try exact I. apply round_ratio_nonneg. Qed.

Lemma decimal_to_number_nonneg (d ex : Z) :
  nonneg (decimal_to_number false d ex).
Proof.
  destruct d; cbn [decimal_to_number]; try exact I.
  destruct (0 <=? ex); apply round_ratio_nonneg.
Qed.

(** [parseInt] of a text that starts with a digit. *)
Lemma parseInt_digit (c : ascii) (r : string) :
  is_digit c = true -> nonneg (parseInt (String c r)).
Proof.
  intros H. unfold parseInt.
  destruct (plain_prefix c r (digit_is_digit_or_dot c H)) as (-> & -> & _).
  cbn [span]. rewrite H. destruct (span is_digit r).
  apply int_to_number_nonneg.
Qed.

(** [parseFloat] of a text that starts with a digit or a dot. *)
Lemma parseFloat_unsigned (c : ascii) (r : string) :
  is_digit_or_dot c = true ->
  parseFloat (String c r) = NaN \/ nonneg (parseFloat (String c r)).
Proof.
  intros H. unfold parseFloat.
  destruct (plain_prefix c r H) as (-> & -> & ->).
  destruct (span is_digit (String c r)) as [ip r1].
  destruct r1 as [|c1 r2].
  - destruct ip; [now left | right; apply decimal_to_number_nonneg].
  - destruct (Ascii.eqb_spec c1 "."%char) as [-> | N].
    + destruct (span is_digit r2) as [fp r3].
      destruct ip; [destruct fp; [now left|] |];
        right; apply decimal_to_number_nonneg.
    + assert (G : match ip with
                  | "" => NaN
                  | String _ _ =>
                      decimal_to_number false (digits_value 0 ip)
                        (exponent_part (String c1 r2))
                  end = NaN
                  \/ nonneg match ip with
                     | "" => NaN
                     | String _ _ =>
                         decimal_to_number false (digits_value 0 ip)
                           (exponent_part (String c1 r2))
                     end).
      { destruct ip; [now left | right; apply decimal_to_number_nonneg]. }
      destruct c1 as [[] [] [] [] [] [] [] []]; try exact G; congruence.
Qed.

(** The groups of a match: digits, digits, digits and dots. *)
Lemma match_time_here_groups (s h m sec : string) :
  match_time_here s = Some (h, m, sec) ->
  (exists c r, h = String c r /\ is_digit c = true)
  /\ (exists c r, m = String c r /\ is_digit c = true)
  /\ (exists c r, sec = String c r /\ is_digit_or_dot c = true).
Proof.
  unfold match_time_here.
  destruct (starts_with "time=" s) as [r|]; [|discriminate].
  destruct (span is_digit r) as [h' r1] eqn:S1.
  destruct h' as [|ch h']; [discriminate|].
  destruct r1 as [|c1 r2]; [discriminate|].
  destruct c1 as [[] [] [] [] [] [] [] []]; try discriminate.
  destruct (span is_digit r2) as [m' r3] eqn:S2.
  destruct m' as [|cm m']; [discriminate|].
  destruct r3 as [|c3 r4]; [discriminate|].
  destruct c3 as [[] [] [] [] [] [] [] []]; try discriminate.
  destruct (span is_digit_or_dot r4) as [sec' r5] eqn:S3.
  destruct sec' as [|cs sec']; [discriminate|].
  intros [= <- <- <-].
  apply span_head in S1, S2, S3.
  destruct S1 as [D1 _], S2 as [D2 _], S3 as [D3 _].
  repeat split; eexists; eexists; (split; [reflexivity | assumption]).
Qed.

Lemma match_time_groups (s h m sec : string) :
  match_time s = Some (h, m, sec) ->
  (exists c r, h = String c r /\ is_digit c = true)
  /\ (exists c r, m = String c r /\ is_digit c = true)
  /\ (exists c r, sec = String c r /\ is_digit_or_dot c = true).
Proof.
  induction s as [|c r IH]; cbn [match_time].
  - destruct (match_time_here "") as [[[? ?] ?]|] eqn:E; [|discriminate].
    intros [= <- <- <-]. eapply match_time_here_groups, E.
  - destruct (match_time_here (String c r)) as [[[? ?] ?]|] eqn:E; [|exact IH].
    intros [= <- <- <-]. eapply match_time_here_groups, E.
Qed.

(** ** Agreement with the kernel's binary64 literals

    Reading a decimal text gives the Number the kernel reads from the
    same text, and printing gives the shortest text that reads back. *)

Local Open Scope float_scope.

Example parsing_agrees_with_binary64 :
  let f := Binary64.of_float in
  parseFloat "0.29" = f 0x1.28f5c28f5c28fp-2
  /\ parseFloat " 12.5xyz" = f 12.5
  /\ parseFloat "-1.5e3" = f (-1500)
  /\ parseFloat "1e-320" = f 0x0.00000000007e8p-1022
  /\ parseFloat "9007199254740993" = f 9007199254740992
  /\ parseFloat "1.7976931348623159e308" = f infinity
  /\ parseInt "8000000" = f 8000000
  /\ parseInt "29.97" = f 29
  /\ parseInt "-5px" = f (-5).
Proof. vm_compute. repeat split. Qed.

Example printing_round_trips :
  let f := Binary64.of_float in
  number_to_string (f 0x1.999999999999ap-4) = "0.1"
  /\ number_to_string (f (0x1.999999999999ap-4 + 0x1.999999999999ap-3))
     = "0.30000000000000004"
  /\ number_to_string (f 1.5) = "1.5"
  /\ number_to_string (f 8000000) = "8000000"
  /\ number_to_string (f 1e21) = "1e+21"
  /\ number_to_string (f 123456789012345683968) = "123456789012345680000"
  /\ number_to_string (f 0x1.0c6f7a0b5ed8dp-20) = "0.000001"
  /\ number_to_string (f 0x1.ad7f29abcaf48p-24) = "1e-7"
  /\ number_to_string (f 0x0.0000000000001p-1022) = "5e-324"
  /\ number_to_string (f 0x1.fffffffffffffp+1023) = "1.7976931348623157e+308"
  /\ number_to_string (f (-1.5)) = "-1.5"
  /\ number_to_string (f nan) = "NaN"
  /\ number_to_string (f neg_infinity) = "-Infinity".
Proof. vm_compute. repeat split. Qed.

Local Close Scope float_scope.

End JSStringFacts.

(* ================================================================== *)
(** * Facts about the server *)
(* ================================================================== *)

Module ServerFacts.
Import JSNumber JSString Server JSNumberFacts JSStringFacts.
Local Open Scope string_scope.
Local Open Scope Z_scope.
Local Open Scope list_scope.

Local Infix "+++" := String.append (right associativity, at level 60).

(** ** Writing to the response *)

Lemma write_open (s : string) (w : World) :
  ended (res w) = false ->
  body (res (write s w)) = body (res w) ++ [s]
  /\ ended (res (write s w)) = false.
Proof. destruct w as [[sc hs b en dr] fl ul]; cbn. intros ->. auto. Qed.

Lemma write_frame (s : string) (w : World) :
  statusCode (res (write s w)) = statusCode (res w)
  /\ headers (res (write s w)) = headers (res w)
  /\ files (write s w) = files w
  /\ unlinks (write s w) = unlinks w
  /\ ended (res (write s w)) = ended (res w).
Proof. destruct w as [[sc hs b [] dr] fl ul]; cbn; auto. Qed.

Lemma write_all_cons (s : string) (ls : list string) (w : World) :
  write_all (s :: ls) w = write_all ls (write s w).
Proof. reflexivity. Qed.

Lemma write_all_open (ls : list string) (w : World) :
  ended (res w) = false ->
  body (res (write_all ls w)) = body (res w) ++ ls
  /\ ended (res (write_all ls w)) = false.
Proof.
  revert w. induction ls as [|s ls IH]; intros w H.
  - cbn. now rewrite app_nil_r.
  - rewrite write_all_cons. destruct (write_open s w H) as [B E].
    destruct (IH (write s w) E) as [B' E'].
    rewrite B', B, <- app_assoc. auto.
Qed.

Lemma write_all_frame (ls : list string) (w : World) :
  statusCode (res (write_all ls w)) = statusCode (res w)
  /\ headers (res (write_all ls w)) = headers (res w)
  /\ files (write_all ls w) = files w
  /\ unlinks (write_all ls w) = unlinks w.
Proof.
  revert w. induction ls as [|s ls IH]; intros w; [cbn; auto|].
  rewrite write_all_cons.
  destruct (IH (write s w)) as (A & B & C & D).
  destruct (write_frame s w) as (A' & B' & C' & D' & _).
  rewrite A, B, C, D. auto.
Qed.

(** ** The listeners before the encoder ends *)

Lemma run_events_app req f env dur (e1 e2 : list ChildEvent) st :
  run_events req f env dur (e1 ++ e2) st
  = run_events req f env dur e2 (run_events req f env dur e1 st).
Proof. apply fold_left_app. Qed.

(** Until the first [close] or [error] the listeners only write the
    signaled percentages. *)
Lemma run_events_data req f env dur (evs : list ChildEvent) :
  forall lastPct w,
    forallb (fun ev => negb (is_terminal ev)) evs = true ->
    snd (run_events req f env dur evs (lastPct, w))
    = write_all (map progress_line
                   (signaled_from dur lastPct (stderr_chunks evs))) w.
Proof.
  induction evs as [|ev evs IH]; intros lastPct w H; [reflexivity|].
  cbn [forallb] in H. apply andb_true_iff in H as [T H].
  destruct ev as [d | buf | code |]; try discriminate T;
    cbn [run_events fold_left on_event stderr_chunks signaled_from].
  - apply (IH lastPct w H).
  - unfold on_stderr.
    destruct (chunk_percent dur buf) as [pct|]; [|apply (IH lastPct w H)].
    destruct (strict_neq pct lastPct); [|apply (IH lastPct w H)].
    cbn [map]. rewrite write_all_cons. apply (IH pct _ H).
Qed.

Lemma before_terminal_data (evs : list ChildEvent) :
  forallb (fun ev => negb (is_terminal ev)) (before_terminal evs) = true.
Proof.
  induction evs as [|ev evs IH]; [reflexivity|]. cbn.
  destruct (is_terminal ev) eqn:T; [reflexivity|]. cbn. now rewrite T.
Qed.

(** An event sequence is what comes before its first terminal event,
    that event, and a rest. *)
Lemma split_at_terminal (evs : list ChildEvent) :
  match first_terminal evs with
  | Some t => is_terminal t = true
              /\ exists post, evs = before_terminal evs ++ t :: post
  | None => evs = before_terminal evs
  end.
Proof.
  induction evs as [|ev evs IH]; [reflexivity|]. cbn.
  destruct (is_terminal ev) eqn:T.
  - split; [exact T|]. now exists evs.
  - destruct (first_terminal evs) as [t|].
    + destruct IH as [Tt [post E]]. split; [exact Tt|].
      exists post. cbn. now rewrite <- E.
    + cbn. now rewrite <- IH.
Qed.

(** ** The listeners once the response has ended *)

Lemma filter_absent (p : string) (fs : list string) :
  file_exists p fs = false ->
  filter (fun q => negb (String.eqb p q)) fs = fs.
Proof.
  induction fs as [|q fs IH]; [reflexivity|]. cbn.
  destruct (String.eqb p q); [discriminate|]. cbn. intros H. now rewrite IH.
Qed.

Lemma file_exists_filter (p : string) (fs : list string) :
  file_exists p (filter (fun q => negb (String.eqb p q)) fs) = false.
Proof.
  induction fs as [|q fs IH]; [reflexivity|]. cbn.
  destruct (String.eqb p q) eqn:E; cbn; [exact IH|]. now rewrite E.
Qed.

Lemma filter_other (p : string) (fs : list string) (q : string) :
  q <> p ->
  (In q (filter (fun q' => negb (String.eqb p q')) fs) <-> In q fs).
Proof.
  intros N. rewrite filter_In. split; [tauto|]. intros H. split; [exact H|].
  destruct (String.eqb_spec p q); [congruence | reflexivity].
Qed.

Lemma unlink_absent (p : string) (w : World) :
  file_exists p (files w) = false ->
  unlink p w = {| res := res w; files := files w;
                  unlinks := unlinks w ++ [(p, false)] |}.
Proof. intros H. unfold unlink. now rewrite H, filter_absent. Qed.

Lemma settled_step req f env dur (ev : ChildEvent) (lastPct : number) (w : World) :
  settled (path f) w ->
  let w' := snd (on_event req f env dur ev (lastPct, w)) in
  settled (path f) w' /\ observed w' = observed w.
Proof.
  destruct w as [[sc hs b en dr] fl ul]. intros [E F]. cbn in E, F. subst en.
  assert (U : file_exists (path f) fl = false) by exact F.
  assert (Same : settled (path f)
                   {| res := {| statusCode := sc; headers := hs; body := b;
                                ended := true; dropped := dr |};
                      files := fl; unlinks := ul |})
    by (split; [reflexivity | exact F]).
  destruct ev as [d | buf | code |]; cbn [on_event snd fst].
  - split; [exact Same | reflexivity].
  - unfold on_stderr.
    destruct (chunk_percent dur buf) as [pct|]; [|split; [exact Same | reflexivity]].
    destruct (strict_neq pct lastPct); [|split; [exact Same | reflexivity]].
    cbn. split; [split; [reflexivity | exact F] | reflexivity].
  - unfold on_close. rewrite unlink_absent by exact F.
    unfold settled, observed.
    destruct code as [[|?|?]|]; cbn; rewrite filter_app, app_nil_r; auto.
  - unfold on_error. rewrite unlink_absent by exact F.
    unfold settled, observed. cbn. rewrite filter_app, app_nil_r. auto.
Qed.

Lemma settled_run req f env dur (evs : list ChildEvent) :
  forall lastPct w,
    settled (path f) w ->
    let w' := snd (run_events req f env dur evs (lastPct, w)) in
    settled (path f) w' /\ observed w' = observed w.
Proof.
  induction evs as [|ev evs IH]; intros lastPct w S; [split; [exact S | reflexivity]|].
  cbn [run_events fold_left].
  destruct (on_event req f env dur ev (lastPct, w)) as [lp1 w1] eqn:E.
  pose proof (settled_step req f env dur ev lastPct w S) as [S1 O1].
  rewrite E in S1, O1. cbn [snd] in S1, O1.
  destruct (IH lp1 w1 S1) as [S2 O2]. split; [exact S2|].
  now rewrite <- O1.
Qed.

(** ** The terminal listeners on an open response *)

Lemma write_all_observed (ls : list string) (w : World) :
  ended (res w) = false ->
  observed (write_all ls w)
  = (statusCode (res w), headers (res w), body (res w) ++ ls, false,
     files w, filter snd (unlinks w)).
Proof.
  intros H. unfold observed.
  destruct (write_all_open ls w H) as [-> ->].
  destruct (write_all_frame ls w) as (-> & -> & -> & ->). reflexivity.
Qed.

Lemma on_terminal_open req f env dur (t : ChildEvent) (lastPct : number)
  (w : World) :
  is_terminal t = true -> ended (res w) = false ->
  let w' := snd (on_event req f env dur t (lastPct, w)) in
  settled (path f) w'
  /\ observed w'
     = (statusCode (res w), headers (res w),
        body (res w) ++ terminal_lines (outcome_of req f env t), true,
        without (path f) (files w),
        filter snd (unlinks w)
        ++ deleted_once (path f) (files w)).
Proof.
  destruct w as [[sc hs b en dr] fl ul]. cbn [res ended]. intros T ->.
  unfold deleted_once, without.
  destruct t as [d | buf | code |]; try discriminate T;
    cbn [on_event snd fst]; unfold settled, observed.
  - destruct code as [[|?|?]|];
      cbn -[file_exists String.eqb];
      rewrite file_exists_filter, filter_app, <- ?app_assoc;
      (split; [split; reflexivity|]);
      destruct (file_exists (path f) fl); reflexivity.
  - cbn -[file_exists String.eqb].
    rewrite file_exists_filter, filter_app.
    split; [split; reflexivity|].
    destruct (file_exists (path f) fl); reflexivity.
Qed.

(** ** The handler, case by case *)

(** No upload: the handler throws at [req.file.path]. *)
Lemma upload_no_file req env fs :
  file req = None ->
  observed (upload req env fs)
  = (200, response_headers, [status_error], true, fs, []).
Proof. intros H. unfold upload, on_exception. rewrite H. reflexivity. Qed.

(** [fs.mkdirSync] throws. *)
Lemma upload_mkdir_throws req f env fs :
  file req = Some f -> mkdir_throws env = true ->
  observed (upload req env fs)
  = (200, response_headers, [status_error], true,
     without (path f) fs, deleted_once (path f) fs).
Proof.
  intros H M. unfold upload, on_exception. rewrite H, M.
  unfold observed, deleted_once, without. cbn -[file_exists String.eqb].
  destruct (file_exists (path f) fs); reflexivity.
Qed.

(** The probe never settles. *)
Lemma upload_probe_pending req f env fs :
  file req = Some f -> mkdir_throws env = false ->
  probeDuration (probe_events env) = None ->
  observed (upload req env fs) = (200, response_headers, [], false, fs, []).
Proof. intros H M P. unfold upload. rewrite H, M, P. reflexivity. Qed.

(** The probe settles and [spawn] throws. *)
Lemma upload_spawn_throws req f env fs dur :
  file req = Some f -> mkdir_throws env = false ->
  probeDuration (probe_events env) = Some dur ->
  spawn_throws (ffmpeg_args req f env) = true ->
  observed (upload req env fs)
  = (200, response_headers, [status_error], true,
     without (path f) fs, deleted_once (path f) fs).
Proof.
  intros H M P S. unfold upload, on_exception. rewrite H, M, P, S.
  unfold observed, deleted_once, without. cbn -[file_exists String.eqb].
  destruct (file_exists (path f) fs); reflexivity.
Qed.

(** The encoder runs and never ends. *)
Lemma upload_encoder_pending req f env fs dur :
  file req = Some f -> mkdir_throws env = false ->
  probeDuration (probe_events env) = Some dur ->
  spawn_throws (ffmpeg_args req f env) = false ->
  first_terminal (ffmpeg_events env) = None ->
  observed (upload req env fs)
  = (200, response_headers,
     map progress_line (signaled dur (stderr_chunks (ffmpeg_events env))),
     false, fs, []).
Proof.
  intros H M P Sp T. unfold upload. rewrite H, M, P, Sp.
  pose proof (split_at_terminal (ffmpeg_events env)) as S. rewrite T in S.
  rewrite run_events_data by (rewrite S; apply before_terminal_data).
  rewrite write_all_observed by reflexivity. reflexivity.
Qed.

(** The encoder ends: [t] is its first [close] or [error]. *)
Lemma upload_encoder_ends req f env fs dur t :
  file req = Some f -> mkdir_throws env = false ->
  probeDuration (probe_events env) = Some dur ->
  spawn_throws (ffmpeg_args req f env) = false ->
  first_terminal (ffmpeg_events env) = Some t ->
  observed (upload req env fs)
  = (200, response_headers,
     map progress_line
       (signaled dur (stderr_chunks (before_terminal (ffmpeg_events env))))
     ++ terminal_lines (outcome_of req f env t),
     true, without (path f) fs, deleted_once (path f) fs).
Proof.
  intros H M P Sp T. unfold upload. rewrite H, M, P, Sp.
  pose proof (split_at_terminal (ffmpeg_events env)) as S. rewrite T in S.
  destruct S as [Tt [post S]].
  set (pre := before_terminal (ffmpeg_events env)) in *.
  rewrite S at 1. rewrite run_events_app.
  set (w0 := setHeader "Transfer-Encoding" "chunked" _).
  destruct (run_events req f env dur pre (of_Z (-1), w0)) as [lp1 w1] eqn:R1.
  assert (W1 : w1 = write_all (map progress_line
                                 (signaled dur (stderr_chunks pre))) w0).
  { pose proof (run_events_data req f env dur pre (of_Z (-1)) w0
                  (before_terminal_data _)) as D.
    rewrite R1 in D. exact D. }
  pose proof (write_all_observed
                (map progress_line (signaled dur (stderr_chunks pre))) w0
                eq_refl) as O1.
  rewrite <- W1 in O1.
  unfold observed in O1. injection O1 as Sc1 Hd1 Bd1 En1 Fl1 Ul1.
  cbn [run_events fold_left].
  destruct (on_event req f env dur t (lp1, w1)) as [lp2 w2] eqn:R2.
  pose proof (on_terminal_open req f env dur t lp1 w1 Tt En1) as [St O2].
  rewrite R2 in St, O2. cbn [snd] in St, O2.
  destruct (settled_run req f env dur post lp2 w2 St) as [_ O3].
  unfold run_events in O3. rewrite O3, O2.
  rewrite Sc1, Hd1, Bd1, Fl1, Ul1. reflexivity.
Qed.

(** ** The probe *)

Lemma probe_run_spec (evs : list ChildEvent) :
  forall out,
    probe_run out evs
    = match first_terminal evs with
      | None => None
      | Some Error => Some (of_Z 0)
      | Some _ =>
          let sec :=
            parseFloat (trim (out +++ stdout_text (before_terminal evs))) in
          Some (if isFinite sec then sec else of_Z 0)
      end.
Proof.
  induction evs as [|ev evs IH]; intros out; [reflexivity|].
  destruct ev as [d | buf | code |]; cbn [probe_run first_terminal
    before_terminal is_terminal stdout_text].
  - rewrite IH. destruct (first_terminal evs) as [[]|];
      try reflexivity; now rewrite append_assoc.
  - apply IH.
  - cbn. now rewrite append_empty_r.
  - reflexivity.
Qed.

Lemma probeDuration_finite (evs : list ChildEvent) (d : number) :
  probeDuration evs = Some d -> isFinite d = true.
Proof.
  unfold probeDuration. rewrite probe_run_spec.
  destruct (first_terminal evs) as [[]|]; try discriminate;
    cbv zeta; intros [= <-]; try reflexivity;
    match goal with
    | |- context [if isFinite ?s then _ else _] =>
        destruct (isFinite s) eqn:F; [exact F | reflexivity]
    end.
Qed.

(** ** The percentages *)

Lemma percent_spec (t dur : number) : percent t dur = spec_percent t dur.
Proof. unfold percent, spec_percent, clamp. apply clamp_floor_commute. Qed.

Lemma percent_cases (t dur : number) :
  percent t dur = NaN \/ is_percentage (percent t dur).
Proof.
  unfold percent. destruct (mul (div t dur) (of_Z 100)) eqn:E.
  - now left.
  - right. apply clamp_floor_range. discriminate.
  - right. apply clamp_floor_range. discriminate.
  - right. apply clamp_floor_range. discriminate.
Qed.

(** The elapsed time of a marker whose seconds field is numeric. *)
Lemma elapsed_nonneg (buf : string) (g : string * string * string) :
  match_time buf = Some g ->
  (let '(_, _, sec) := g in parseFloat sec <> NaN) ->
  nonneg (elapsed g).
Proof.
  destruct g as [[h m] sec]. intros M N.
  destruct (match_time_groups _ _ _ _ M)
    as ((ch & rh & -> & Dh) & (cm & rm & -> & Dm) & (cs & rs & -> & Ds)).
  unfold elapsed. apply add_nonneg; [apply add_nonneg|].
  - change (of_Z 3600) with (Fin false 225 4).
    apply mul_nonneg, parseInt_digit, Dh.
  - change (of_Z 60) with (Fin false 15 2).
    apply mul_nonneg, parseInt_digit, Dm.
  - destruct (parseFloat_unsigned cs rs Ds) as [E | P]; [contradiction | exact P].
Qed.

Lemma percent_numeric (t dur : number) :
  nonneg t -> gt dur (of_Z 0) = true -> isFinite dur = true ->
  is_percentage (percent t dur).
Proof.
  intros T G F. destruct (positive_finite dur G F) as (m & e & ->).
  unfold percent. apply clamp_floor_range, nonneg_not_NaN.
  change (of_Z 100) with (Fin false 25 2).
  apply mul_nonneg, div_nonneg, T.
Qed.

Lemma chunk_percent_numeric (dur : number) (buf : string) (pct : number) :
  isFinite dur = true -> numeric_marker buf ->
  chunk_percent dur buf = Some pct -> is_percentage pct.
Proof.
  unfold chunk_percent, numeric_marker. intros F N.
  destruct (match_time buf) as [g|] eqn:M; [|discriminate].
  destruct (gt dur (of_Z 0)) eqn:G; [|discriminate].
  intros [= <-]. apply percent_numeric; [|exact G|exact F].
  eapply elapsed_nonneg; [exact M|]. destruct g as [[? ?] ?]. exact N.
Qed.

Lemma chunk_percent_cases (dur : number) (buf : string) (pct : number) :
  chunk_percent dur buf = Some pct -> pct = NaN \/ is_percentage pct.
Proof.
  unfold chunk_percent.
  destruct (match_time buf) as [g|]; [|discriminate].
  destruct (gt dur (of_Z 0)); [|discriminate].
  intros [= <-]. apply percent_cases.
Qed.

(** Without a positive duration nothing is signaled. *)
Lemma signaled_from_unknown (dur lastPct : number) (chunks : list string) :
  gt dur (of_Z 0) = false -> signaled_from dur lastPct chunks = [].
Proof.
  intros G. induction chunks as [|buf rest IH]; [reflexivity|].
  cbn [signaled_from]. unfold chunk_percent. rewrite G.
  destruct (match_time buf); exact IH.
Qed.

(** [!==] on a percentage and a value that is NaN or an integer is
    structural difference. *)
Lemma strict_neq_percentage (pct v : number) :
  is_percentage pct -> (v = NaN \/ exists k, v = of_Z k) ->
  strict_neq pct v = negb (number_eqb pct v)
  /\ (number_eqb pct v = true <-> pct = v).
Proof.
  intros (n & -> & _) [-> | (k & ->)].
  - destruct (of_Z_cases n) as [[_ ->] | (m & e & ->)]; split;
      try reflexivity; split; discriminate.
  - rewrite strict_neq_of_Z.
    assert (E : number_eqb (of_Z n) (of_Z k) = (n =? k)).
    { destruct (Z.eqb_spec n k) as [-> | N].
      - destruct (of_Z_cases k) as [[_ ->] | (m & e & ->)]; cbn;
          [reflexivity|].
        now rewrite Bool.eqb_reflx, Pos.eqb_refl, Z.eqb_refl.
      - destruct (number_eqb (of_Z n) (of_Z k)) eqn:B; [|reflexivity].
        exfalso. apply N, of_Z_inj.
        destruct (of_Z n) as [|a|a|a m e], (of_Z k) as [|b|b|b m' e'];
          cbn in B; try discriminate; try reflexivity.
        + apply Bool.eqb_prop in B. now subst.
        + apply Bool.eqb_prop in B. now subst.
        + apply andb_true_iff in B as [B Be].
          apply andb_true_iff in B as [Bs Bm].
          apply Bool.eqb_prop in Bs. apply Pos.eqb_eq in Bm.
          apply Z.eqb_eq in Be. now subst. }
    rewrite E. split; [reflexivity|].
    rewrite Z.eqb_eq. split; [now intros -> | apply of_Z_inj].
Qed.

(** ** The sequence of signaled values *)

Lemma chain_cons2 (R : number -> number -> Prop) (a b : number) (l : list number) :
  chain R (a :: b :: l) <-> R a b /\ chain R (b :: l).
Proof. reflexivity. Qed.

Lemma chain_tail (R : number -> number -> Prop) (a : number) (l : list number) :
  chain R (a :: l) -> chain R l.
Proof. destruct l as [|b l]; [easy|]. now intros [_ H]. Qed.

Lemma last_signaled_cons (v : number) (l : list number) :
  last_signaled (v :: l) = Some (final_pct v l).
Proof.
  unfold final_pct. revert v. induction l as [|b l IH]; intros v; [reflexivity|].
  change (last_signaled (v :: b :: l)) with (last_signaled (b :: l)).
  now rewrite IH.
Qed.

Lemma last_signaled_In (l : list number) (v : number) :
  last_signaled l = Some v -> In v l.
Proof.
  induction l as [|a l IH]; [discriminate|].
  destruct l as [|b l]; [intros [= ->]; now left|].
  intros H. right. apply IH, H.
Qed.

Lemma signaled_from_app (dur : number) (a b : list string) :
  forall lastPct,
    signaled_from dur lastPct (a ++ b)
    = signaled_from dur lastPct a
      ++ signaled_from dur (final_pct lastPct (signaled_from dur lastPct a)) b.
Proof.
  induction a as [|buf a IH]; intros lastPct; [reflexivity|].
  cbn [app signaled_from].
  destruct (chunk_percent dur buf) as [pct|]; [|apply IH].
  destruct (strict_neq pct lastPct); [|apply IH].
  rewrite IH. cbn [app]. f_equal. f_equal.
  unfold final_pct at 2. now rewrite last_signaled_cons.
Qed.

Lemma signaled_from_source (dur : number) (chunks : list string) (v : number) :
  forall lastPct,
    In v (signaled_from dur lastPct chunks) ->
    exists buf, In buf chunks /\ chunk_percent dur buf = Some v.
Proof.
  induction chunks as [|buf rest IH]; intros lastPct; [intros []|].
  cbn [signaled_from].
  destruct (chunk_percent dur buf) as [pct|] eqn:C.
  - destruct (strict_neq pct lastPct).
    + intros [<- | H]; [exists buf; split; [now left | exact C]|].
      destruct (IH _ H) as (b & I & E). exists b. split; [now right | exact E].
    + intros H. destruct (IH _ H) as (b & I & E).
      exists b. split; [now right | exact E].
  - intros H. destruct (IH _ H) as (b & I & E).
    exists b. split; [now right | exact E].
Qed.

Lemma computed_percentages (dur : number) (chunks : list string) :
  isFinite dur = true -> Forall numeric_marker chunks ->
  Forall is_percentage (computed dur chunks).
Proof.
  intros F N. induction N as [|buf rest Nb Nr IH]; [constructor|].
  cbn [computed]. destruct (chunk_percent dur buf) as [pct|] eqn:C; [|exact IH].
  constructor; [|exact IH]. eapply chunk_percent_numeric; eassumption.
Qed.

Lemma int_le_inv (a b : Z) : int_le (of_Z a) (of_Z b) -> a <= b.
Proof.
  intros (x & y & Ex & Ey & L). apply of_Z_inj in Ex, Ey. now subst.
Qed.

(** With numeric markers, the signaled values are percentages, no
    value equals the one before it, and when the computed values never
    decrease the signaled ones increase. *)
Lemma signaled_from_props (dur : number) (chunks : list string) :
  isFinite dur = true -> Forall numeric_marker chunks ->
  forall k : Z,
    Forall is_percentage (signaled_from dur (of_Z k) chunks)
    /\ adjacent_distinct (of_Z k :: signaled_from dur (of_Z k) chunks)
    /\ (chain int_le (of_Z k :: computed dur chunks) ->
        chain int_lt (of_Z k :: signaled_from dur (of_Z k) chunks)).
Proof.
  intros F N. induction N as [|buf rest Nb Nr IH]; intros k.
  - split; [constructor | split; [exact I | intros _; exact I]].
  - cbn [signaled_from computed].
    destruct (chunk_percent dur buf) as [pct|] eqn:C; [|apply IH].
    destruct (chunk_percent_numeric dur buf pct F Nb C) as (n & -> & Rn).
    rewrite strict_neq_of_Z.
    destruct (Z.eqb_spec n k) as [-> | D]; cbn [negb].
    + destruct (IH k) as (P & A & M). split; [exact P | split; [exact A|]].
      intros H. apply M. apply chain_cons2 in H as [_ H]. exact H.
    + destruct (IH n) as (P & A & M). split; [|split].
      * constructor; [exists n; auto | exact P].
      * apply chain_cons2. split; [|exact A].
        intros E. apply of_Z_inj in E. congruence.
      * intros H. apply chain_cons2 in H as [L H].
        apply chain_cons2. split; [|apply M, H].
        apply int_le_inv in L. exists k, n. repeat split; lia.
Qed.

Lemma signaled_props (dur : number) (chunks : list string) :
  isFinite dur = true -> Forall numeric_marker chunks ->
  Forall is_percentage (signaled dur chunks)
  /\ adjacent_distinct (signaled dur chunks)
  /\ (chain int_le (computed dur chunks) -> chain int_lt (signaled dur chunks)).
Proof.
  intros F N. destruct (signaled_from_props dur chunks F N (-1)) as (P & A & M).
  split; [exact P | split; [eapply chain_tail, A|]].
  intros H. eapply chain_tail, M.
  pose proof (computed_percentages dur chunks F N) as Q.
  destruct (computed dur chunks) as [|c cs]; [exact I|].
  apply chain_cons2. split; [|exact H].
  inversion Q as [|? ? (n & -> & Rn) _]; subst.
  exists (-1), n. repeat split; lia.
Qed.

Lemma stderr_chunks_before (evs : list ChildEvent) (P : string -> Prop) :
  Forall P (stderr_chunks evs) ->
  Forall P (stderr_chunks (before_terminal evs)).
Proof.
  induction evs as [|ev evs IH]; [trivial|].
  destruct ev as [d | buf | code |]; cbn; auto.
  intros H. inversion H; subst. constructor; auto.
Qed.

(** ** Lines *)

Lemma progress_line_is_progress (v : number) :
  is_progress_line (progress_line v) = true.
Proof. reflexivity. Qed.

Lemma terminal_lines_not_progress (o : Outcome) :
  filter is_progress_line (terminal_lines o) = [].
Proof. destruct o; reflexivity. Qed.

Lemma filter_terminal_progress (vs : list number) :
  filter is_terminal_line (map progress_line vs) = [].
Proof. induction vs as [|v vs IH]; [reflexivity | exact IH]. Qed.

Lemma filter_terminal_lines (o : Outcome) :
  filter is_terminal_line (terminal_lines o) = terminal_lines o.
Proof. destruct o; reflexivity. Qed.

(** ** The deletions attempted *)

Lemma on_terminal_unlinks req f env dur (t : ChildEvent) (lastPct : number)
  (w : World) :
  is_terminal t = true ->
  unlinks (snd (on_event req f env dur t (lastPct, w)))
  = unlinks w ++ [(path f, file_exists (path f) (files w))].
Proof.
  destruct w as [[sc hs b en dr] fl ul].
  destruct t as [d | buf | [[|c|c]|] |]; try discriminate; intros _;
    destruct en; reflexivity.
Qed.

Lemma single_terminal_rest (pre post : list ChildEvent) (t : ChildEvent) :
  is_terminal t = true ->
  (terminal_count (pre ++ t :: post) <= 1)%nat ->
  forallb (fun ev => negb (is_terminal ev)) post = true.
Proof.
  intros T. unfold terminal_count. rewrite filter_app, length_app.
  cbn [filter]. rewrite T. cbn [List.length]. intros H.
  assert (L : List.length (filter is_terminal post) = 0%nat) by lia.
  apply length_zero_iff_nil in L. clear H.
  induction post as [|ev post IH]; [reflexivity|].
  cbn [filter] in L. cbn [forallb].
  destruct (is_terminal ev); [discriminate L|]. cbn. apply IH, L.
Qed.

(** With a single terminal event the temporary file is unlinked by a
    single call. *)
Lemma upload_single_unlink req f env fs dur :
  file req = Some f -> mkdir_throws env = false ->
  probeDuration (probe_events env) = Some dur ->
  spawn_throws (ffmpeg_args req f env) = false ->
  terminal_count (ffmpeg_events env) = 1%nat ->
  unlinks (upload req env fs) = [(path f, file_exists (path f) fs)].
Proof.
  intros F M P Sp C. unfold upload. rewrite F, M, P, Sp.
  pose proof (split_at_terminal (ffmpeg_events env)) as S.
  destruct (first_terminal (ffmpeg_events env)) as [t|].
  2:{ exfalso. rewrite S in C. unfold terminal_count in C.
      pose proof (before_terminal_data (ffmpeg_events env)) as D.
      revert C D. generalize (before_terminal (ffmpeg_events env)).
      intros l. induction l as [|ev l IH]; [discriminate|].
      cbn. destruct (is_terminal ev); [discriminate|]. exact IH. }
  destruct S as [Tt [post S]].
  set (pre := before_terminal (ffmpeg_events env)) in *.
  assert (Dp : forallb (fun ev => negb (is_terminal ev)) post = true).
  { apply (single_terminal_rest pre post t Tt). rewrite <- S, C. lia. }
  rewrite S. rewrite run_events_app.
  set (w0 := setHeader "Transfer-Encoding" "chunked" _).
  destruct (run_events req f env dur pre (of_Z (-1), w0)) as [lp1 w1] eqn:R1.
  assert (W1 : w1 = write_all (map progress_line
                                 (signaled dur (stderr_chunks pre))) w0).
  { pose proof (run_events_data req f env dur pre (of_Z (-1)) w0
                  (before_terminal_data _)) as D.
    rewrite R1 in D. exact D. }
  cbn [run_events fold_left].
  destruct (on_event req f env dur t (lp1, w1)) as [lp2 w2] eqn:R2.
  pose proof (on_terminal_unlinks req f env dur t lp1 w1 Tt) as U2.
  rewrite R2 in U2. cbn [snd] in U2.
  pose proof (run_events_data req f env dur post lp2 w2 Dp) as D3.
  unfold run_events in D3. rewrite D3.
  destruct (write_all_frame
              (map progress_line (signaled_from dur lp2 (stderr_chunks post)))
              w2) as (_ & _ & _ & ->).
  rewrite U2, W1.
  destruct (write_all_frame
              (map progress_line (signaled dur (stderr_chunks pre))) w0)
    as (_ & _ & -> & ->).
  reflexivity.
Qed.

End ServerFacts.

(* ================================================================== *)
(** * The properties of the specification *)
(* ================================================================== *)

Import JSNumber JSString Server Filter.
Import JSNumberFacts JSStringFacts ServerFacts.
Local Open Scope string_scope.
Local Open Scope Z_scope.
Local Open Scope list_scope.

Local Infix "+++" := String.append (right associativity, at level 60).

(** Split an equation between observations into its components. *)
Ltac observe H :=
  unfold observed in H;
  let Sc := fresh "Sc" in let Hd := fresh "Hd" in let Bd := fresh "Bd" in
  let En := fresh "En" in let Fl := fresh "Fl" in let Ul := fresh "Ul" in
  injection H as Sc Hd Bd En Fl Ul.

(** The five ways a job can go, read off the request and the
    environment. *)
Lemma upload_cases (req : Request) (env : Env) :
  (file req = None)
  \/ (exists f, file req = Some f /\ mkdir_throws env = true)
  \/ (exists f, file req = Some f /\ mkdir_throws env = false
                /\ probeDuration (probe_events env) = None)
  \/ (exists f dur, file req = Some f /\ mkdir_throws env = false
                    /\ probeDuration (probe_events env) = Some dur
                    /\ spawn_throws (ffmpeg_args req f env) = true)
  \/ (exists f dur, file req = Some f /\ mkdir_throws env = false
                    /\ probeDuration (probe_events env) = Some dur
                    /\ spawn_throws (ffmpeg_args req f env) = false).
Proof.
  destruct (file req) as [f|]; [|now left]. right.
  destruct (mkdir_throws env); [left; eauto|]. right.
  destruct (probeDuration (probe_events env)) as [dur|]; [right | left; eauto].
  destruct (spawn_throws (ffmpeg_args req f env)) eqn:S;
    [left | right]; exists f, dur; auto.
Qed.

(** C1.  A job that terminates (the handler throws, at [spawn] as
    elsewhere, or the probe settles and the encoder delivers [close] or
    [error]) ends its response after writing exactly one terminal
    outcome: the body is a run of progress lines followed by the lines
    of one outcome, either [download:<url>] and [status:done], or
    [status:error] alone.  These are the only download and status lines
    of the body, and they are its last lines. *)
Theorem upload_exactly_one_terminal_outcome
  (req : Request) (env : Env) (fs : list string) :
  terminates req env = true ->
  let w := upload req env fs in
  ended (res w) = true
  /\ exists pcts o,
       body (res w) = map progress_line pcts ++ terminal_lines o
       /\ filter is_terminal_line (body (res w)) = terminal_lines o
       /\ (o = Failed \/ exists url, o = Done url).
Proof.
  intros T w. subst w. unfold terminates in T.
  assert (Shape : forall pcts o,
             body (res (upload req env fs))
             = map progress_line pcts ++ terminal_lines o ->
             exists pcts o,
               body (res (upload req env fs))
               = map progress_line pcts ++ terminal_lines o
               /\ filter is_terminal_line (body (res (upload req env fs)))
                  = terminal_lines o
               /\ (o = Failed \/ exists url, o = Done url)).
  { intros pcts o E. exists pcts, o. split; [exact E|]. split.
    - rewrite E, filter_app, filter_terminal_progress.
      apply filter_terminal_lines.
    - destruct o; eauto. }
  destruct (upload_cases req env)
    as [N | [(f & F & M) | [(f & F & M & P)
       | [(f & dur & F & M & P & S) | (f & dur & F & M & P & S)]]]].
  - pose proof (upload_no_file req env fs N) as O. observe O.
    split; [exact En|]. now apply (Shape [] Failed).
  - pose proof (upload_mkdir_throws req f env fs F M) as O. observe O.
    split; [exact En|]. now apply (Shape [] Failed).
  - rewrite F, M, P in T. discriminate.
  - pose proof (upload_spawn_throws req f env fs dur F M P S) as O.
    observe O. split; [exact En|]. now apply (Shape [] Failed).
  - rewrite F, M, P, S in T. cbn [orb] in T.
    destruct (first_terminal (ffmpeg_events env)) as [t|] eqn:E;
      [|discriminate].
    pose proof (upload_encoder_ends req f env fs dur t F M P S E) as O.
    observe O. split; [exact En|]. eapply Shape, Bd.
Qed.

Lemma upload_exactly_one_terminal_outcome_witness :
  terminates Examples.plain_request Examples.good_run = true
  /\ (let w := upload Examples.plain_request Examples.good_run Examples.disk in
      ended (res w) = true
      /\ exists pcts o,
           body (res w) = map progress_line pcts ++ terminal_lines o
           /\ filter is_terminal_line (body (res w)) = terminal_lines o
           /\ (o = Failed \/ exists url, o = Done url)).
Proof.
  split; [reflexivity|].
  apply (upload_exactly_one_terminal_outcome
           Examples.plain_request Examples.good_run Examples.disk).
  reflexivity.
Defined.

(** The run above, line by line. *)
Example good_run_body :
  body (res (upload Examples.plain_request Examples.good_run Examples.disk))
  = [progress_line (of_Z 25); progress_line (of_Z 50);
     progress_line (of_Z 100);
     download_line
       "https://api.example.org/downloads/clip_desq_1700000000000.mp4";
     status_done].
Proof. vm_compute. reflexivity. Qed.

(** When the encoder cannot be started both listeners run: the second
    [status:error] is written after [end()] and never sent, and the
    second [unlink] finds the file gone. *)
Example spawn_failure_run :
  let w := upload Examples.plain_request Examples.spawn_failure Examples.disk in
  body (res w) = [status_error]
  /\ dropped (res w) = [status_error]
  /\ unlinks w = [(path Examples.clip, true); (path Examples.clip, false)].
Proof. vm_compute. auto. Qed.



(** With an unknown duration: a name with a NUL character makes
    [spawn] throw, and the job ends with [status:error] though no
    encoder event arrives; an encoder that runs to its end gives the
    download line and [status:done], and no progress line. *)
Example unknown_duration_runs :
  spawn_throws
    (ffmpeg_args Examples.nul_request Examples.nul_clip Examples.silent_run)
  = true
  /\ observed (upload Examples.nul_request Examples.silent_run
                 ["/tmp/desq_uploads/51c0"])
     = (200, response_headers, [status_error], true, [],
        [("/tmp/desq_uploads/51c0", true)])
  /\ body (res (upload Examples.plain_request Examples.silent_run
                  Examples.disk)) = []
  /\ ended (res (upload Examples.plain_request Examples.silent_run
                   Examples.disk)) = false
  /\ body (res (upload Examples.plain_request Examples.unknown_duration
                  Examples.disk))
     = [download_line
          "https://api.example.org/downloads/clip_desq_1700000000000.mp4";
        status_done].
Proof. repeat split; vm_compute; reflexivity. Qed.

(** C9, as stated, fails: the route puts the upload middleware in
    front of the handler, and a form whose file is sent under another
    field than [file] is refused there; the framework answers it with
    status 500, and the handler, which would set the headers and write
    [status:error], does not run. *)
Lemma refused_upload_counterexample :
  multer_single "file" Examples.wrong_field = Refused
  /\ post_upload Examples.wrong_field Examples.good_run Examples.disk
     = FromFramework 500
  /\ status_of (post_upload Examples.wrong_field Examples.good_run
                  Examples.disk) <> 200.
Proof.
  split; [reflexivity|]. split; [reflexivity|]. vm_compute. discriminate.
Qed.

(** The forms the middleware refuses: a multipart form with a named
    file part under another field than the one asked for, or with more
    than one named file part. *)
Lemma multer_single_refused (field : string) (sub : Submission) :
  multer_single field sub = Refused
  <-> multipart sub = true
      /\ ((exists p, named_parts (file_parts sub) = [p]
                     /\ fieldname p <> field)
          \/ (2 <= List.length (named_parts (file_parts sub)))%nat).
Proof.
  unfold multer_single.
  destruct (multipart sub).
  2:{ split; [discriminate|]. intros [X _]. discriminate X. }
  destruct (named_parts (file_parts sub)) as [|p [|q l]].
  - split; [discriminate|].
    intros [_ [(p & X & _) | X]]; [discriminate X | cbn in X; lia].
  - destruct (String.eqb_spec (fieldname p) field) as [E|E].
    + split; [discriminate|].
      intros [_ [(p' & X & N) | X]]; [|cbn in X; lia].
      injection X as <-. contradiction.
    + split; [|reflexivity]. intros _. split; [reflexivity|].
      left. now exists p.
  - split; [|reflexivity]. intros _. split; [reflexivity|].
    right. cbn [List.length]. lia.
Qed.

(** C9, amended.  Every response the handler writes carries status 200
    and exactly the two headers [Content-Type: text/plain;
    charset=utf-8] and [Transfer-Encoding: chunked]; a job that fails
    (the handler throws, the encoder cannot be spawned or exits with a
    non-zero code) is told apart only by the last line of the body,
    [status:error].  On the route this covers every submission the
    upload middleware hands on.  The others (a file part under another
    field than [file], or more than one file part) are answered by the
    framework, with status 500. *)
Theorem handler_responses_200_text_plain
  (req : Request) (sub : Submission) (env : Env) (fs : list string) :
  (let w := upload req env fs in
   statusCode (res w) = 200
   /\ headers (res w) = response_headers
   /\ (fails req env = true ->
       exists pcts, body (res w) = map progress_line pcts ++ [status_error]))
  /\ match multer_single "file" sub with
     | Handed given =>
         post_upload sub env fs = FromHandler (upload given env fs)
         /\ status_of (post_upload sub env fs) = 200
     | Refused =>
         status_of (post_upload sub env fs) = 500
         /\ multipart sub = true
         /\ ((exists p, named_parts (file_parts sub) = [p]
                        /\ fieldname p <> "file")
             \/ (2 <= List.length (named_parts (file_parts sub)))%nat)
     end.
Proof.
  assert (H : forall r,
             statusCode (res (upload r env fs)) = 200
             /\ headers (res (upload r env fs)) = response_headers
             /\ (fails r env = true ->
                 exists pcts,
                   body (res (upload r env fs))
                   = map progress_line pcts ++ [status_error])).
  { intros r. unfold fails.
    destruct (upload_cases r env)
      as [N | [(f & F & M) | [(f & F & M & P)
         | [(f & dur & F & M & P & S) | (f & dur & F & M & P & S)]]]].
    - pose proof (upload_no_file r env fs N) as O. observe O.
      rewrite Sc, Hd, Bd. repeat split. intros _. now exists [].
    - pose proof (upload_mkdir_throws r f env fs F M) as O. observe O.
      rewrite Sc, Hd, Bd. repeat split. intros _. now exists [].
    - pose proof (upload_probe_pending r f env fs F M P) as O. observe O.
      rewrite Sc, Hd, F, M, P. repeat split. discriminate.
    - pose proof (upload_spawn_throws r f env fs dur F M P S) as O.
      observe O. rewrite Sc, Hd, Bd. repeat split. intros _. now exists [].
    - rewrite F, M, P, S. cbn [orb].
      destruct (first_terminal (ffmpeg_events env)) as [t|] eqn:E.
      + pose proof (upload_encoder_ends r f env fs dur t F M P S E) as O.
        observe O. rewrite Sc, Hd, Bd. repeat split.
        destruct t as [d | buf | [[|c|c]|] |]; try discriminate;
          intros _; eexists; reflexivity.
      + pose proof (upload_encoder_pending r f env fs dur F M P S E) as O.
        observe O. rewrite Sc, Hd. repeat split. discriminate. }
  split; [exact (H req)|].
  unfold post_upload.
  destruct (multer_single "file" sub) as [given|] eqn:D.
  - split; [reflexivity|]. cbn [status_of]. apply (H given).
  - split; [reflexivity|]. now apply multer_single_refused.
Qed.

(** A failing job on the route: the encoder cannot be started, the
    status is 200 and the body is [status:error]. *)
Example spawn_failure_on_route :
  let form := Examples.form [{| fieldname := "file"; filename := "clip.mov";
                                stored_at := "/tmp/desq_uploads/3f9a" |}] in
  multer_single "file" form = Handed Examples.plain_request
  /\ post_upload form Examples.spawn_failure Examples.disk
     = FromHandler (upload Examples.plain_request Examples.spawn_failure
                      Examples.disk)
  /\ fails Examples.plain_request Examples.spawn_failure = true
  /\ status_of (post_upload form Examples.spawn_failure Examples.disk) = 200
  /\ body (res (upload Examples.plain_request Examples.spawn_failure
                  Examples.disk)) = [status_error].
Proof. cbv zeta. repeat split; vm_compute; reflexivity. Qed.

(** C4.  For a job whose temporary upload exists and that terminates
    (encoder exit code 0, non-zero exit, spawn error, or an exception
    in the handler), the temporary file is gone afterwards, exactly one
    deletion was performed and it removed that file, and every other
    file, the produced output among them, is where it was.  When the
    handler throws, or the encoder delivers one terminal event, that
    deletion is the only call of [unlink]; a second terminal event
    ([close] after [error]) calls it again, on a file that is gone. *)
Theorem temporary_file_deleted_once
  (req : Request) (f : UploadedFile) (env : Env) (fs : list string) :
  file req = Some f -> In (path f) fs -> terminates req env = true ->
  let w := upload req env fs in
  ~ In (path f) (files w)
  /\ filter snd (unlinks w) = [(path f, true)]
  /\ (forall q, q <> path f -> (In q (files w) <-> In q fs))
  /\ (mkdir_throws env = true \/ terminal_count (ffmpeg_events env) = 1%nat ->
      unlinks w = [(path f, true)]).
Proof.
  intros F I T w. subst w.
  assert (X : file_exists (path f) fs = true).
  { apply existsb_exists. exists (path f). split; [exact I|].
    apply String.eqb_refl. }
  assert (Goal : forall w,
             files w = without (path f) fs ->
             filter snd (unlinks w) = deleted_once (path f) fs ->
             ~ In (path f) (files w)
             /\ filter snd (unlinks w) = [(path f, true)]
             /\ (forall q, q <> path f -> (In q (files w) <-> In q fs))).
  { intros w Fl Ul. rewrite Fl, Ul. unfold deleted_once, without.
    rewrite X. split; [|split; [reflexivity|]].
    - intros H. apply filter_In in H as [_ H].
      now rewrite String.eqb_refl in H.
    - intros q N. now apply filter_other. }
  unfold terminates in T. rewrite F in T.
  destruct (mkdir_throws env) eqn:M.
  - pose proof (upload_mkdir_throws req f env fs F M) as O. observe O.
    destruct (Goal _ Fl Ul) as (G1 & G2 & G3).
    split; [exact G1|]. split; [exact G2|]. split; [exact G3|].
    intros _. unfold upload, on_exception. rewrite F, M.
    cbn -[file_exists String.eqb]. now rewrite X.
  - cbn [orb] in T.
    destruct (probeDuration (probe_events env)) as [dur|] eqn:P;
      [|discriminate].
    destruct (spawn_throws (ffmpeg_args req f env)) eqn:S.
    + pose proof (upload_spawn_throws req f env fs dur F M P S) as O.
      observe O. destruct (Goal _ Fl Ul) as (G1 & G2 & G3).
      split; [exact G1|]. split; [exact G2|]. split; [exact G3|].
      intros _. unfold upload, on_exception. rewrite F, M, P, S.
      cbn -[file_exists String.eqb]. now rewrite X.
    + cbn [orb] in T.
      destruct (first_terminal (ffmpeg_events env)) as [t|] eqn:E;
        [|discriminate].
      pose proof (upload_encoder_ends req f env fs dur t F M P S E) as O.
      observe O. destruct (Goal _ Fl Ul) as (G1 & G2 & G3).
      split; [exact G1|]. split; [exact G2|]. split; [exact G3|].
      intros [C | C]; [discriminate C|].
      rewrite (upload_single_unlink req f env fs dur F M P S C).
      now rewrite X.
Qed.

Lemma temporary_file_deleted_once_witness :
  file Examples.plain_request = Some Examples.clip
  /\ In (path Examples.clip) Examples.disk
  /\ terminates Examples.plain_request Examples.good_run = true
  /\ (let w := upload Examples.plain_request Examples.good_run
                 Examples.disk in
      ~ In (path Examples.clip) (files w)
      /\ filter snd (unlinks w) = [(path Examples.clip, true)]
      /\ (forall q, q <> path Examples.clip ->
                    (In q (files w) <-> In q Examples.disk))
      /\ (mkdir_throws Examples.good_run = true
          \/ terminal_count (ffmpeg_events Examples.good_run) = 1%nat ->
          unlinks w = [(path Examples.clip, true)])).
Proof.
  split; [reflexivity|]. split; [now left|]. split; [reflexivity|].
  apply (temporary_file_deleted_once Examples.plain_request Examples.clip
           Examples.good_run Examples.disk);
    [reflexivity | now left | reflexivity].
Defined.

(** C5, as stated, fails: the probe resolves with a negative value
    when the tool prints one, and with the printed value, not 0, when
    the tool exits abnormally after printing a number. *)
Lemma probeDuration_counterexample :
  (exists d, probeDuration (Examples.probe "-3.5" 0) = Some d
             /\ lt d (of_Z 0) = true)
  /\ (exists d, probeDuration (Examples.probe "12.5" 1) = Some d
                /\ strict_neq d (of_Z 0) = true).
Proof. split; eexists; split; reflexivity. Qed.

(** C5, amended.  Once the probing tool delivers [close] or [error]
    the promise is resolved, never rejected, with a finite Number.  It
    is 0 when [error] comes first (the tool failed to start), and when
    the trimmed standard output does not parse to a finite number;
    otherwise it is the parsed value, whatever its sign and whatever
    the exit code. *)
Theorem probeDuration_settles (evs : list ChildEvent) :
  first_terminal evs <> None ->
  exists d,
    probeDuration evs = Some d
    /\ isFinite d = true
    /\ (first_terminal evs = Some Error -> d = of_Z 0)
    /\ (forall code, first_terminal evs = Some (Close code) ->
        let sec := parseFloat (trim (stdout_text (before_terminal evs))) in
        (isFinite sec = false -> d = of_Z 0)
        /\ (isFinite sec = true -> d = sec)).
Proof.
  intros T.
  pose proof (probe_run_spec evs "") as S. fold (probeDuration evs) in S.
  cbn [String.append] in S.
  destruct (first_terminal evs) as [t|] eqn:E; [|congruence].
  pose proof (split_at_terminal evs) as Sp. rewrite E in Sp.
  destruct Sp as [Tt _].
  destruct t as [d | buf | code |]; try discriminate Tt.
  - cbv zeta in S.
    destruct (isFinite (parseFloat (trim (stdout_text (before_terminal evs)))))
      eqn:Fi; eexists; (split; [exact S|]);
      (split; [first [exact Fi | reflexivity]|]);
      (split; [discriminate|]); intros code' _; cbv zeta; rewrite Fi;
      split; congruence.
  - exists (of_Z 0). split; [exact S|]. split; [reflexivity|].
    split; [reflexivity|]. discriminate.
Qed.

Lemma probeDuration_settles_witness :
  first_terminal (Examples.probe "N/A" 1) <> None
  /\ exists d,
       probeDuration (Examples.probe "N/A" 1) = Some d
       /\ isFinite d = true
       /\ (first_terminal (Examples.probe "N/A" 1) = Some Error -> d = of_Z 0)
       /\ (forall code,
             first_terminal (Examples.probe "N/A" 1) = Some (Close code) ->
             let sec :=
               parseFloat
                 (trim (stdout_text (before_terminal (Examples.probe "N/A" 1))))
             in
             (isFinite sec = false -> d = of_Z 0)
             /\ (isFinite sec = true -> d = sec)).
Proof.
  split; [discriminate|].
  apply (probeDuration_settles (Examples.probe "N/A" 1)). discriminate.
Defined.

(** C3, as stated, fails for the bitrate: a field that is present but
    not a number is not replaced by the default, [parseInt] gives NaN. *)
Lemma bitrate_counterexample :
  let req := Examples.request None None (Some "fast") in
  parseInt "fast" = NaN
  /\ get_bitrate req = NaN
  /\ get_bitrate req <> of_Z 8000000.
Proof. repeat split. discriminate. Qed.

(** [Math.max(1, x)] is 1 or more unless [x] is NaN. *)
Lemma Math_max_1_ge (x : number) :
  x <> NaN ->
  compare (of_Z 1) (Math_max (of_Z 1) x) = Some Lt
  \/ compare (of_Z 1) (Math_max (of_Z 1) x) = Some Eq.
Proof.
  intros N. unfold Math_max.
  destruct (compare (of_Z 1) x) as [[]|] eqn:C; auto.
  destruct x as [|[]|[]|[] m e]; try congruence; discriminate C.
Qed.

(** C3, amended.  The scale factor is [Math.max(1, parseFloat(field))]:
    1 when the field is absent or empty, and at least 1 whenever the
    field parses as a number.  The frame rate is "preserve" when the
    field is absent, empty, ["copy"], or does not parse to a non-zero
    integer.  The bitrate is 8,000,000 when the field is absent or
    empty; a field that is present is parsed as it is, without a
    default when it is not a number. *)
Theorem request_parameters (req : Request) :
  (match factor_field req with
   | None | Some "" => get_factor req = of_Z 1
   | Some s =>
       get_factor req = Math_max (of_Z 1) (parseFloat s)
       /\ (parseFloat s <> NaN ->
           compare (of_Z 1) (get_factor req) = Some Lt
           \/ compare (of_Z 1) (get_factor req) = Some Eq)
   end)
  /\ (match fps_field req with
      | None | Some "" | Some "copy" => get_fps req = None
      | Some s =>
          (truthy (parseInt s) = false -> get_fps req = None)
          /\ (truthy (parseInt s) = true -> get_fps req = Some (parseInt s))
      end)
  /\ (match bitrate_field req with
      | None | Some "" => get_bitrate req = of_Z 8000000
      | Some s => get_bitrate req = parseInt s
      end).
Proof.
  unfold get_factor, get_fps, get_bitrate.
  split; [|split].
  - destruct (factor_field req) as [[|c s]|]; try reflexivity.
    split; [reflexivity|]. apply Math_max_1_ge.
  - destruct (fps_field req) as [s|]; [|reflexivity].
    destruct (String.eqb_spec s "copy") as [-> | N]; [reflexivity|].
    destruct (String.eqb_spec s "") as [-> | N']; [reflexivity|].
    assert (E : get_fps req = get_fps req) by reflexivity.
    assert (G : (truthy (parseInt s) = false ->
                 (if truthy (parseInt (or_default (Some s) "0"))
                  then Some (parseInt (or_default (Some s) "0")) else None)
                 = None)
                /\ (truthy (parseInt s) = true ->
                    (if truthy (parseInt (or_default (Some s) "0"))
                     then Some (parseInt (or_default (Some s) "0")) else None)
                    = Some (parseInt s))).
    { destruct s; [congruence|]. cbn [or_default].
      split; intros ->; reflexivity. }
    clear E.
    destruct s as [|c1 s1]; [congruence|].
    destruct c1 as [[] [] [] [] [] [] [] []]; try exact G.
    destruct s1 as [|c2 s2]; [exact G|].
    destruct c2 as [[] [] [] [] [] [] [] []]; try exact G.
    destruct s2 as [|c3 s3]; [exact G|].
    destruct c3 as [[] [] [] [] [] [] [] []]; try exact G.
    destruct s3 as [|c4 s4]; [exact G|].
    destruct c4 as [[] [] [] [] [] [] [] []]; try exact G.
    destruct s4 as [|c5 s5]; [congruence | exact G].
  - destruct (bitrate_field req) as [[|c s]|]; reflexivity.
Qed.

(** The three defaults at work. *)
Example request_defaults :
  let req := Examples.request None None None in
  get_factor req = of_Z 1 /\ get_fps req = None
  /\ get_bitrate req = of_Z 8000000.
Proof. repeat split. Qed.

Example request_values :
  let req := Examples.request (Some "0.5") (Some "24") (Some "12000000") in
  get_factor req = of_Z 1 /\ get_fps req = Some (of_Z 24)
  /\ get_bitrate req = of_Z 12000000.
Proof. repeat split. Qed.

(** What the extension pattern removes: nothing, or a final dot with
    the dot-free, non-empty text after it. *)
Lemma strip_extension_spec (s : string) :
  exists ext,
    s = strip_extension s +++ ext
    /\ (ext = ""
        \/ exists e, ext = String "." e /\ e <> "" /\ no_dot e = true).
Proof.
  induction s as [|c r (ext & E & H)].
  - exists "". auto.
  - cbn [strip_extension].
    destruct (is_dot c && negb (r =? "")%string && no_dot r) eqn:B.
    + apply andb_true_iff in B as [B Nd].
      apply andb_true_iff in B as [D Ne].
      unfold is_dot in D. apply Ascii.eqb_eq in D. subst c.
      exists (String "." r). split; [reflexivity|]. right.
      exists r. repeat split; [|exact Nd].
      intros ->. discriminate Ne.
    + exists ext. split; [|exact H]. cbn. now rewrite <- E.
Qed.

(** Only the last extension goes; the handler looks at no other
    character of the name it is given. *)
Example origName_keeps_the_rest :
  origName {| path := "/tmp/u"; originalname := "a/b\c d.final.mov" |}
  = "a/b\c d.final".
Proof. reflexivity. Qed.

(** ** The filter *)

Lemma vf_renders (factor : number) :
  render_filter (vf_filter factor) = vf factor.
Proof.
  unfold render_filter, vf_filter, vf. cbn [scale_w scale_h setsar render].
  change (number_to_string (of_Z 2)) with "2".
  change (number_to_string (of_Z 1)) with "1".
  generalize (number_to_string factor). intros s.
  cbn [String.append]. rewrite !append_assoc. reflexivity.
Qed.

(** A finite scale factor is 1 or more. *)
Lemma finite_factor_ge_1 (req : Request) :
  isFinite (get_factor req) = true -> (1 <= to_Q (get_factor req))%Q.
Proof.
  unfold get_factor.
  set (x := parseFloat (or_default (factor_field req) "1")).
  intros Hfin.
  assert (N : x <> NaN) by (intros E; rewrite E in Hfin; discriminate Hfin).
  assert (C : compare (of_Z 1) (Math_max (of_Z 1) x)
              = Some (1 ?= to_Q (Math_max (of_Z 1) x))%Q).
  { destruct (Math_max (of_Z 1) x) as [|[]|[]|[] m e];
      try discriminate Hfin; reflexivity. }
  apply Qle_alt.
  destruct (Math_max_1_ge x N) as [L | L]; rewrite C in L;
    intros G; rewrite G in L; discriminate L.
Qed.

(** A finite product of a width and the scale factor is a binary64
    value of 1 or more. *)
Lemma width_product (req : Request) (iw : Z) :
  1 <= iw ->
  isFinite (mul (of_Z iw) (get_factor req)) = true ->
  exists m e,
    mul (of_Z iw) (get_factor req) = Fin false m e
    /\ binary64 (Fin false m e) /\ (1 <= F2Q false m e)%Q.
Proof.
  intros W Hfin.
  destruct (of_Z_cases iw) as [[Z0 _] | (mi & ei & Ei)]; [lia|].
  assert (Vi : (1 <= F2Q (iw <? 0) mi ei)%Q).
  { change (F2Q (iw <? 0) mi ei) with (to_Q (Fin (iw <? 0) mi ei)).
    rewrite <- Ei, to_Q_of_Z. rewrite <- (Zle_Qle 1). exact W. }
  destruct (Z.ltb_spec iw 0) as [|_]; [lia|].
  rewrite Ei in *.
  pose proof (finite_factor_ge_1 req) as G.
  destruct (get_factor req) as [| s | s | [] mf ef] eqn:Ef;
    try discriminate Hfin.
  - exfalso. specialize (G eq_refl). apply G. reflexivity.
  - exfalso. specialize (G eq_refl). cbn [to_Q] in G.
    pose proof (F2Q_neg mf ef) as Ng.
    apply (Qlt_irrefl 1). eapply Qle_lt_trans; [exact G|].
    eapply Qlt_trans; [exact Ng | reflexivity].
  - specialize (G eq_refl). cbn [to_Q] in G.
    destruct (mul_ge_1 mi mf ei ef Vi G) as [E | (m & e & E & B & V)].
    + rewrite E in Hfin. discriminate Hfin.
    + exists m, e. auto.
Qed.



(** The product is the binary64 one: ten times the Number read from
    [1.4] is 14, and the width is 14. *)
Example width_of_rounded_product :
  let factor := get_factor (Examples.request (Some "1.4") None None) in
  number_to_string factor = "1.4"
  /\ mul (of_Z 10) factor = of_Z 14
  /\ out_width (vf_filter factor) 10 10 = of_Z 14.
Proof. cbv zeta. repeat split; vm_compute; reflexivity. Qed.

(** The filter strings of the two factors of the specification. *)
Example vf_strings :
  vf (get_factor (Examples.request (Some "1") None None))
  = "scale=trunc(iw*1/2)*2:ih,setsar=1"
  /\ vf (get_factor (Examples.request (Some "1.5") None None))
     = "scale=trunc(iw*1.5/2)*2:ih,setsar=1".
Proof. split; vm_compute; reflexivity. Qed.

(** The arithmetic is that of the source: 29 seconds out of 100 give
    28, since [29 / 100 * 100] is [28.999999999999996]. *)
Example percent_rounding :
  percent (of_Z 29) (of_Z 100) = of_Z 28
  /\ number_to_string (mul (div (of_Z 29) (of_Z 100)) (of_Z 100))
     = "28.999999999999996".
Proof. split; vm_compute; reflexivity. Qed.

(** A seconds field without a digit is read as NaN, and NaN is
    signaled each time. *)
Example percent_of_bare_dot :
  signaled (of_Z 20) ["time=0:0:."; "time=0:0:."] = [NaN; NaN]
  /\ progress_line NaN = "progress:NaN" +++ nl.
Proof. split; vm_compute; reflexivity. Qed.

(** C2, as stated, fails: the listener compares a percentage with the
    last one signaled only, so markers that go back make the written
    values decrease and recur. *)
Lemma progress_counterexample :
  let vs := signaled (of_Z 20)
              ["time=00:00:10.00"; "time=00:00:05.00"; "time=00:00:10.00"] in
  body (res (upload Examples.plain_request Examples.jumpy_run Examples.disk))
  = map progress_line vs ++ [status_error]
  /\ vs = [of_Z 50; of_Z 25; of_Z 50]
  /\ ~ chain int_le vs
  /\ ~ NoDup vs.
Proof.
  cbv zeta.
  assert (E : signaled (of_Z 20)
                ["time=00:00:10.00"; "time=00:00:05.00"; "time=00:00:10.00"]
              = [of_Z 50; of_Z 25; of_Z 50]) by (vm_compute; reflexivity).
  rewrite E. split; [vm_compute; reflexivity|]. split; [reflexivity|]. split.
  - intros [H _]. apply int_le_inv in H. lia.
  - intros H. inversion H as [|? ? X _]. apply X. right. now left.
Qed.

(** C2, amended.  When the seconds field of every time marker is a
    number, the body of the response starts with the progress lines,
    the values written are integers of [0,100], and no value equals
    the one written just before it.  A value can recur later and the
    sequence can decrease; but when the percentages computed from the
    successive chunks never decrease, the written values increase
    strictly, so they are non-decreasing and pairwise distinct. *)
Theorem progress_values_bounded_and_changing
  (req : Request) (env : Env) (fs : list string) :
  Forall numeric_marker (stderr_chunks (ffmpeg_events env)) ->
  exists vs rest,
    body (res (upload req env fs)) = map progress_line vs ++ rest
    /\ filter is_progress_line rest = []
    /\ Forall is_percentage vs
    /\ adjacent_distinct vs
    /\ (forall dur,
          probeDuration (probe_events env) = Some dur ->
          chain int_le
            (computed dur (stderr_chunks (before_terminal (ffmpeg_events env)))) ->
          chain int_lt vs).
Proof.
  intros N.
  assert (Trivial : forall b,
             body (res (upload req env fs)) = b ->
             filter is_progress_line b = [] ->
             exists vs rest,
               body (res (upload req env fs)) = map progress_line vs ++ rest
               /\ filter is_progress_line rest = []
               /\ Forall is_percentage vs
               /\ adjacent_distinct vs
               /\ (forall dur,
                     probeDuration (probe_events env) = Some dur ->
                     chain int_le
                       (computed dur
                          (stderr_chunks (before_terminal (ffmpeg_events env)))) ->
                     chain int_lt vs)).
  { intros b Bd Fb. exists [], b. split; [exact Bd|]. split; [exact Fb|].
    split; [constructor|]. split; [exact I|]. intros; exact I. }
  destruct (upload_cases req env)
    as [Nf | [(f & F & M) | [(f & F & M & P)
       | [(f & dur & F & M & P & S) | (f & dur & F & M & P & S)]]]].
  - pose proof (upload_no_file req env fs Nf) as O. observe O.
    now apply (Trivial [status_error]).
  - pose proof (upload_mkdir_throws req f env fs F M) as O. observe O.
    now apply (Trivial [status_error]).
  - pose proof (upload_probe_pending req f env fs F M P) as O. observe O.
    now apply (Trivial []).
  - pose proof (upload_spawn_throws req f env fs dur F M P S) as O.
    observe O. now apply (Trivial [status_error]).
  - pose proof (probeDuration_finite _ _ P) as Fi.
    pose proof (stderr_chunks_before _ _ N) as Nb.
    destruct (signaled_props dur _ Fi Nb) as (Pc & Ad & Mo).
    assert (Bd : exists rest,
               body (res (upload req env fs))
               = map progress_line
                   (signaled dur
                      (stderr_chunks (before_terminal (ffmpeg_events env))))
                 ++ rest
               /\ filter is_progress_line rest = []).
    { destruct (first_terminal (ffmpeg_events env)) as [t|] eqn:E.
      - pose proof (upload_encoder_ends req f env fs dur t F M P S E) as O.
        observe O. eexists. split; [exact Bd|]. apply terminal_lines_not_progress.
      - pose proof (upload_encoder_pending req f env fs dur F M P S E) as O.
        observe O. exists []. rewrite app_nil_r. split; [|reflexivity].
        pose proof (split_at_terminal (ffmpeg_events env)) as St.
        rewrite E in St. rewrite <- St. exact Bd. }
    destruct Bd as (rest & Bd & Fr).
    eexists _, rest. split; [exact Bd|]. split; [exact Fr|].
    split; [exact Pc|]. split; [exact Ad|].
    intros dur' P' H. rewrite P in P'. injection P' as <-. now apply Mo.
Qed.

Lemma progress_values_bounded_and_changing_witness :
  Forall numeric_marker (stderr_chunks (ffmpeg_events Examples.jumpy_run))
  /\ exists vs rest,
       body (res (upload Examples.plain_request Examples.jumpy_run
                    Examples.disk))
       = map progress_line vs ++ rest
       /\ filter is_progress_line rest = []
       /\ Forall is_percentage vs
       /\ adjacent_distinct vs
       /\ (forall dur,
             probeDuration (probe_events Examples.jumpy_run) = Some dur ->
             chain int_le
               (computed dur
                  (stderr_chunks
                     (before_terminal (ffmpeg_events Examples.jumpy_run)))) ->
             chain int_lt vs).
Proof.
  assert (N : Forall numeric_marker
                (stderr_chunks (ffmpeg_events Examples.jumpy_run))).
  { repeat constructor; vm_compute; discriminate. }
  split; [exact N|].
  apply (progress_values_bounded_and_changing Examples.plain_request
           Examples.jumpy_run Examples.disk N).
Defined.

(* ================================================================== *)
(** * Further properties of the code *)
(* ================================================================== *)

(** ** Text *)

Lemma trim_start_spaces (ws s : string) :
  all_chars is_space ws = true -> trim_start (ws +++ s) = trim_start s.
Proof.
  induction ws as [|c r IH]; cbn [all_chars String.append trim_start];
    [reflexivity|].
  intros H. apply andb_true_iff in H as [Hc Hr]. rewrite Hc. auto.
Qed.

Lemma trim_start_all_spaces (ws : string) :
  all_chars is_space ws = true -> trim_start ws = "".
Proof.
  intros H. rewrite <- (append_empty_r ws). now rewrite trim_start_spaces.
Qed.

Lemma trim_start_append (s t : string) :
  trim_start s <> "" -> trim_start (s +++ t) = trim_start s +++ t.
Proof.
  induction s as [|c r IH]; cbn [trim_start String.append];
    [congruence|].
  destruct (is_space c); [exact IH | reflexivity].
Qed.

Lemma trim_start_cases (s : string) :
  (trim_start s = "" /\ all_chars is_space s = true)
  \/ (exists c r, trim_start s = String c r /\ is_space c = false).
Proof.
  induction s as [|c r IH]; cbn [trim_start all_chars]; [now left|].
  destruct (is_space c) eqn:Hc; [exact IH|].
  right. exists c, r. now split.
Qed.

Lemma rev_string_acc (s acc : string) :
  rev_string acc s = rev_string "" s +++ acc.
Proof.
  revert acc. induction s as [|c r IH]; intros acc; cbn [rev_string];
    [reflexivity|].
  rewrite (IH (String c acc)), (IH (String c "")), append_assoc.
  reflexivity.
Qed.

Lemma rev_string_append (s t : string) :
  rev_string "" (s +++ t) = rev_string "" t +++ rev_string "" s.
Proof.
  induction s as [|c r IH]; cbn [String.append rev_string].
  - now rewrite append_empty_r.
  - rewrite (rev_string_acc (r +++ t)), (rev_string_acc r), IH, append_assoc.
    reflexivity.
Qed.

Lemma all_chars_append (p : ascii -> bool) (s t : string) :
  all_chars p (s +++ t) = all_chars p s && all_chars p t.
Proof.
  induction s as [|c r IH]; cbn [String.append all_chars]; [reflexivity|].
  now rewrite IH, andb_assoc.
Qed.

Lemma all_chars_rev (p : ascii -> bool) (s : string) :
  all_chars p (rev_string "" s) = all_chars p s.
Proof.
  induction s as [|c r IH]; cbn [rev_string all_chars]; [reflexivity|].
  rewrite rev_string_acc, all_chars_append, IH. cbn [all_chars].
  rewrite andb_true_r. apply andb_comm.
Qed.

(** White space around a text does not survive [trim]. *)
Lemma trim_spaces (pre s post : string) :
  all_chars is_space pre = true -> all_chars is_space post = true ->
  trim (pre +++ s +++ post) = trim s.
Proof.
  intros Hpre Hpost. unfold trim.
  rewrite trim_start_spaces by exact Hpre.
  destruct (trim_start_cases s) as [[E A]|(c & r & E & Hc)].
  - rewrite E.
    rewrite (trim_start_all_spaces (s +++ post))
      by (rewrite all_chars_append, A, Hpost; reflexivity).
    reflexivity.
  - rewrite trim_start_append by (rewrite E; discriminate).
    rewrite rev_string_append, trim_start_spaces
      by (rewrite all_chars_rev; exact Hpost).
    reflexivity.
Qed.

(** ** The duration probe *)

(** X1.  [probeDuration] reads nothing but the standard output that
    arrives before the first [close]: two runs of the probe that end
    with [close] and whose output chunks concatenate to the same text
    resolve with the same value, however the text is cut into chunks,
    whatever the exit codes, and whatever is delivered on the other
    stream or after the [close]. *)
Theorem probeDuration_reads_stdout_only (evs evs' : list ChildEvent)
  (c c' : option Z) :
  first_terminal evs = Some (Close c) ->
  first_terminal evs' = Some (Close c') ->
  stdout_text (before_terminal evs) = stdout_text (before_terminal evs') ->
  probeDuration evs = probeDuration evs'.
Proof.
  intros T T' E. unfold probeDuration.
  rewrite !probe_run_spec, T, T', E. reflexivity.
Qed.

Lemma probeDuration_reads_stdout_only_witness :
  probeDuration
    [Stdout "12"; Stderr "warning"; Stdout ".5"; Close (Some 1); Stdout "9"]
  = probeDuration [Stdout "12.5"; Close (Some 0)].
Proof.
  apply (probeDuration_reads_stdout_only _ _ (Some 1) (Some 0));
    reflexivity.
Defined.

(** X2.  White space around the text the probe prints (the newline
    that ends its line, for one) does not change the duration. *)
Theorem probeDuration_ignores_surrounding_space (pre s post : string)
  (c : option Z) :
  all_chars is_space pre = true -> all_chars is_space post = true ->
  probeDuration [Stdout (pre +++ s +++ post); Close c]
  = probeDuration [Stdout s; Close c].
Proof.
  intros Hpre Hpost. unfold probeDuration. cbn [probe_run String.append].
  now rewrite trim_spaces.
Qed.

Lemma probeDuration_ignores_surrounding_space_witness :
  probeDuration [Stdout (" " +++ "20.5" +++ nl); Close (Some 0)]
  = probeDuration [Stdout "20.5"; Close (Some 0)].
Proof.
  apply probeDuration_ignores_surrounding_space; reflexivity.
Defined.

(** ** The handler and the events of the encoder *)

Lemma on_event_with_events req f env dur evs ev st :
  on_event req f (with_ffmpeg_events env evs) dur ev st
  = on_event req f env dur ev st.
Proof. destruct ev; reflexivity. Qed.

Lemma run_events_with_events req f env dur evs' (evs : list ChildEvent) :
  forall st,
    run_events req f (with_ffmpeg_events env evs') dur evs st
    = run_events req f env dur evs st.
Proof.
  unfold run_events.
  induction evs as [|ev evs IH]; intros st; cbn [fold_left]; [reflexivity|].
  now rewrite on_event_with_events, IH.
Qed.

Lemma on_event_not_acted_on req f env dur ev st :
  acted_on ev = false -> on_event req f env dur ev st = st.
Proof.
  destruct ev as [d|buf|code|]; cbn [acted_on on_event];
    try discriminate; [reflexivity|].
  unfold has_marker, on_stderr, chunk_percent. destruct st as [lastPct w].
  destruct (match_time buf); [discriminate | reflexivity].
Qed.

Lemma run_events_acted_on req f env dur (evs : list ChildEvent) :
  forall st,
    run_events req f env dur (filter acted_on evs) st
    = run_events req f env dur evs st.
Proof.
  unfold run_events.
  induction evs as [|ev evs IH]; intros st; cbn [filter fold_left];
    [reflexivity|].
  destruct (acted_on ev) eqn:A; cbn [fold_left].
  - apply IH.
  - rewrite (on_event_not_acted_on _ _ _ _ _ _ A). apply IH.
Qed.

(** X3.  The handler acts on three kinds of encoder events only:
    [close], [error], and the diagnostic chunks in which the time
    pattern matches.  Standard output and the other diagnostic chunks
    leave the response, the files and the listener's state as they
    are: removing them from the run changes nothing at all. *)
Theorem upload_acts_on_markers_and_ends (req : Request) (env : Env)
  (fs : list string) :
  upload req (with_ffmpeg_events env (filter acted_on (ffmpeg_events env))) fs
  = upload req env fs.
Proof.
  unfold upload.
  destruct (file req) as [f|]; [|reflexivity].
  change (mkdir_throws (with_ffmpeg_events env
                          (filter acted_on (ffmpeg_events env))))
    with (mkdir_throws env).
  destruct (mkdir_throws env); [reflexivity|].
  change (probe_events (with_ffmpeg_events env
                          (filter acted_on (ffmpeg_events env))))
    with (probe_events env).
  destruct (probeDuration (probe_events env)) as [dur|]; [|reflexivity].
  change (ffmpeg_args req f (with_ffmpeg_events env
                               (filter acted_on (ffmpeg_events env))))
    with (ffmpeg_args req f env).
  destruct (spawn_throws (ffmpeg_args req f env)); [reflexivity|].
  change (ffmpeg_events (with_ffmpeg_events env
                           (filter acted_on (ffmpeg_events env))))
    with (filter acted_on (ffmpeg_events env)).
  now rewrite run_events_with_events, run_events_acted_on.
Qed.

Lemma first_terminal_app (evs post : list ChildEvent) (t : ChildEvent) :
  first_terminal evs = Some t ->
  first_terminal (evs ++ post) = Some t
  /\ before_terminal (evs ++ post) = before_terminal evs.
Proof.
  induction evs as [|ev evs IH]; cbn [first_terminal before_terminal app];
    [discriminate|].
  destruct (is_terminal ev); [now split|].
  intros H. destruct (IH H) as [A B]. now rewrite A, B.
Qed.

Lemma on_exception_with_events req env evs fs :
  upload req (with_ffmpeg_events env evs) fs = upload req env fs
  \/ exists f dur, file req = Some f /\ mkdir_throws env = false
                   /\ probeDuration (probe_events env) = Some dur
                   /\ spawn_throws (ffmpeg_args req f env) = false.
Proof.
  unfold upload.
  destruct (file req) as [f|]; [|now left].
  change (mkdir_throws (with_ffmpeg_events env evs)) with (mkdir_throws env).
  destruct (mkdir_throws env); [now left|].
  change (probe_events (with_ffmpeg_events env evs)) with (probe_events env).
  destruct (probeDuration (probe_events env)) as [dur|]; [|now left].
  change (ffmpeg_args req f (with_ffmpeg_events env evs))
    with (ffmpeg_args req f env).
  destruct (spawn_throws (ffmpeg_args req f env)) eqn:S; [now left|].
  right. exists f, dur. auto.
Qed.

(** X4.  Once the encoder has delivered its first [close] or [error],
    nothing it delivers later reaches the client or the disk: the
    response (status, headers, body, ended) and the files are what they
    were, and no further deletion succeeds. *)
Theorem upload_deaf_after_first_end (req : Request) (env : Env)
  (fs : list string) (post : list ChildEvent) :
  first_terminal (ffmpeg_events env) <> None ->
  observed (upload req (with_ffmpeg_events env (ffmpeg_events env ++ post)) fs)
  = observed (upload req env fs).
Proof.
  intros T.
  destruct (on_exception_with_events req env (ffmpeg_events env ++ post) fs)
    as [E|(f & dur & Hf & Hm & Hp & Hs)]; [now rewrite E|].
  destruct (first_terminal (ffmpeg_events env)) as [t|] eqn:Ht;
    [clear T | congruence].
  destruct (first_terminal_app _ post _ Ht) as [A B].
  rewrite (upload_encoder_ends req f env fs dur t Hf Hm Hp Hs Ht).
  rewrite (upload_encoder_ends req f
             (with_ffmpeg_events env (ffmpeg_events env ++ post)) fs dur t
             Hf Hm Hp Hs A).
  change (ffmpeg_events (with_ffmpeg_events env (ffmpeg_events env ++ post)))
    with (ffmpeg_events env ++ post).
  rewrite B. reflexivity.
Qed.

Lemma upload_deaf_after_first_end_witness :
  observed (upload Examples.plain_request
              (with_ffmpeg_events Examples.good_run
                 (ffmpeg_events Examples.good_run
                  ++ [Stderr "time=00:00:01.00"; Error; Close (Some 1)]))
              Examples.disk)
  = observed (upload Examples.plain_request Examples.good_run Examples.disk).
Proof.
  apply upload_deaf_after_first_end. discriminate.
Defined.

Lemma filter_progress_lines (vs : list number) (o : list string) :
  filter is_progress_line o = [] ->
  filter is_progress_line (map progress_line vs ++ o) = map progress_line vs.
Proof.
  intros H. rewrite filter_app, H, app_nil_r.
  induction vs as [|v vs IH]; cbn [map filter]; [reflexivity|].
  now rewrite progress_line_is_progress, IH.
Qed.

Lemma signaled_from_nil (dur : number) (chunks : list string) :
  gt dur (of_Z 0) = true ->
  (signaled_from dur (of_Z (-1)) chunks = []
   <-> existsb has_marker chunks = false).
Proof.
  intros D.
  induction chunks as [|buf rest IH]; cbn [signaled_from existsb];
    [tauto|].
  unfold has_marker at 1.
  destruct (chunk_percent dur buf) as [pct|] eqn:C.
  - assert (M : exists g, match_time buf = Some g).
    { unfold chunk_percent in C. destruct (match_time buf); [eauto|discriminate]. }
    destruct M as [g ->]. cbn [orb].
    assert (S : strict_neq pct (of_Z (-1)) = true).
    { destruct (chunk_percent_cases _ _ _ C) as [->|(n & -> & R)];
        [reflexivity|].
      rewrite strict_neq_of_Z. apply negb_true_iff, Z.eqb_neq. lia. }
    rewrite S. split; discriminate.
  - assert (M : match_time buf = None).
    { unfold chunk_percent in C. rewrite D in C.
      destruct (match_time buf); [discriminate|reflexivity]. }
    rewrite M. cbn [orb]. exact IH.
Qed.

(** The progress lines of a response are those of the chunks received
    before the encoder's first [close] or [error]; there is none when
    the encoder could not be spawned. *)
Lemma upload_progress_lines (req : Request) (f : UploadedFile) (env : Env)
  (fs : list string) (dur : number) :
  file req = Some f -> mkdir_throws env = false ->
  probeDuration (probe_events env) = Some dur ->
  filter is_progress_line (body (res (upload req env fs)))
  = if spawn_throws (ffmpeg_args req f env) then []
    else map progress_line
           (signaled dur
              (stderr_chunks (before_terminal (ffmpeg_events env)))).
Proof.
  intros Hf Hm Hp.
  destruct (spawn_throws (ffmpeg_args req f env)) eqn:Hs.
  { pose proof (upload_spawn_throws req f env fs dur Hf Hm Hp Hs) as O.
    observe O. now rewrite Bd. }
  destruct (first_terminal (ffmpeg_events env)) as [t|] eqn:Ht.
  - pose proof (upload_encoder_ends req f env fs dur t Hf Hm Hp Hs Ht) as O.
    observe O. rewrite Bd.
    apply filter_progress_lines, terminal_lines_not_progress.
  - pose proof (upload_encoder_pending req f env fs dur Hf Hm Hp Hs Ht) as O.
    observe O. rewrite Bd.
    pose proof (split_at_terminal (ffmpeg_events env)) as S.
    rewrite Ht in S. rewrite <- S.
    rewrite <- (app_nil_r (map _ _)) at 1.
    now apply filter_progress_lines.
Qed.

(** X5.  Progress lines are written exactly when the probed duration
    is positive, the encoder was spawned, and some diagnostic chunk
    received before its first [close] or [error] carries a time marker;
    a negative duration silences them as a zero one does. *)
Theorem progress_written_iff (req : Request) (f : UploadedFile) (env : Env)
  (fs : list string) (dur : number) :
  file req = Some f -> mkdir_throws env = false ->
  probeDuration (probe_events env) = Some dur ->
  (filter is_progress_line (body (res (upload req env fs))) <> []
   <-> gt dur (of_Z 0) = true
       /\ spawn_throws (ffmpeg_args req f env) = false
       /\ existsb has_marker
            (stderr_chunks (before_terminal (ffmpeg_events env))) = true).
Proof.
  intros Hf Hm Hp.
  rewrite (upload_progress_lines req f env fs dur Hf Hm Hp).
  destruct (spawn_throws (ffmpeg_args req f env)).
  { split; [intros X; now exfalso | intros (_ & X & _); discriminate X]. }
  set (chunks := stderr_chunks (before_terminal (ffmpeg_events env))).
  unfold signaled.
  destruct (gt dur (of_Z 0)) eqn:D.
  - pose proof (signaled_from_nil dur chunks D) as N.
    destruct (existsb has_marker chunks).
    + split; [auto|]. intros _ E.
      apply map_eq_nil in E. apply N in E. discriminate E.
    + split; [|intros (_ & _ & X); discriminate X].
      intros X. exfalso. apply X.
      now rewrite (proj2 N eq_refl).
  - rewrite signaled_from_unknown by exact D.
    split; [intros X; now exfalso | intros [X _]; discriminate X].
Qed.

Lemma progress_written_iff_witness :
  filter is_progress_line
    (body (res (upload Examples.plain_request Examples.good_run
                  Examples.disk))) <> []
  <-> gt (of_Z 20) (of_Z 0) = true
      /\ spawn_throws
           (ffmpeg_args Examples.plain_request Examples.clip
              Examples.good_run) = false
      /\ existsb has_marker
           (stderr_chunks
              (before_terminal (ffmpeg_events Examples.good_run))) = true.
Proof.
  apply (progress_written_iff Examples.plain_request Examples.clip
           Examples.good_run Examples.disk (of_Z 20)); reflexivity.
Defined.

(** ** The download link *)

Lemma unreserved_not_percent (c : ascii) :
  is_uri_unreserved c = true -> c <> "%"%char.
Proof. intros H ->. discriminate H. Qed.

Lemma hex_digit_code (n : N) :
  (n < 16)%N ->
  N_of_ascii (hex_digit n) = (if (n <? 10)%N then 48 + n else 55 + n)%N.
Proof.
  intros H. unfold hex_digit.
  destruct (n <? 10)%N eqn:L; apply N_ascii_embedding;
    [apply N.ltb_lt in L|]; lia.
Qed.

Lemma hex_digit_inj (a b : N) :
  (a < 16)%N -> (b < 16)%N -> hex_digit a = hex_digit b -> a = b.
Proof.
  intros Ha Hb E. apply (f_equal N_of_ascii) in E.
  rewrite !hex_digit_code in E by assumption.
  destruct (a <? 10)%N eqn:La, (b <? 10)%N eqn:Lb;
    try apply N.ltb_lt in La; try apply N.ltb_lt in Lb;
    try apply N.ltb_ge in La; try apply N.ltb_ge in Lb; lia.
Qed.

Lemma hex_digit_unreserved (n : N) :
  (n < 16)%N -> is_uri_unreserved (hex_digit n) = true.
Proof.
  intros H.
  assert (C : In n [0;1;2;3;4;5;6;7;8;9;10;11;12;13;14;15]%N).
  { cbn [In]. lia. }
  cbn [In] in C.
  repeat (destruct C as [<-|C]; [reflexivity|]). destruct C.
Qed.

Lemma ascii_code_bound (c : ascii) : (N_of_ascii c < 256)%N.
Proof. apply N_ascii_bounded. Qed.

Lemma encodeURIComponent_append (a b : string) :
  encodeURIComponent (a +++ b)
  = encodeURIComponent a +++ encodeURIComponent b.
Proof.
  induction a as [|c r IH]; cbn [String.append encodeURIComponent];
    [reflexivity|].
  destruct (is_uri_unreserved c); cbn [String.append]; now rewrite IH.
Qed.

Lemma encodeURIComponent_url_safe (s : string) :
  all_chars is_url_safe (encodeURIComponent s) = true.
Proof.
  induction s as [|c r IH]; cbn [encodeURIComponent]; [reflexivity|].
  destruct (is_uri_unreserved c) eqn:U; cbn [all_chars].
  - unfold is_url_safe at 1. now rewrite U, IH.
  - pose proof (ascii_code_bound c) as B.
    unfold is_url_safe at 2 3.
    rewrite !hex_digit_unreserved, IH; [reflexivity| |].
    + apply N.mod_lt. discriminate.
    + apply N.Div0.div_lt_upper_bound. exact B.
Qed.

Lemma url_safe_plain (s : string) :
  all_chars is_url_safe s = true ->
  no_slash s = true
  /\ all_chars (fun c => negb (Ascii.eqb c (ascii_of_N 10))) s = true
  /\ all_chars (fun c => negb (Ascii.eqb c " ")) s = true.
Proof.
  unfold no_slash.
  induction s as [|c r IH]; cbn [all_chars]; [auto|].
  intros H. apply andb_true_iff in H as [Hc Hr].
  destruct (IH Hr) as (A & B & C). rewrite A, B, C, !andb_true_r.
  assert (N : c <> "/"%char /\ c <> ascii_of_N 10 /\ c <> " "%char).
  { repeat split; intros ->; discriminate Hc. }
  destruct N as (N1 & N2 & N3). unfold is_slash.
  repeat split; apply negb_true_iff, Ascii.eqb_neq; assumption.
Qed.

(** X6.  The link of a finished job is
    [<protocol>://<host>/downloads/<name>], where [<name>] is the
    encoded original base name followed by [_desq_], the encoded time
    stamp and [.mp4].  Whatever the client's file name holds, [<name>]
    is made of unreserved characters and [%] only: it has no [/], no
    space and no line break, so the [download:] line is one line and
    the link has one segment after [/downloads/]. *)
Theorem publicUrl_one_safe_segment (req : Request) (f : UploadedFile)
  (env : Env) :
  exists name : string,
    publicUrl req f env
    = protocol req +++ "://"
      +++ match host req with Some h => h | None => "undefined" end
      +++ "/downloads/" +++ name
    /\ name = encodeURIComponent (origName f) +++ "_desq_"
              +++ encodeURIComponent (number_to_string (of_Z (now env)))
              +++ ".mp4"
    /\ all_chars is_url_safe name = true
    /\ no_slash name = true
    /\ all_chars (fun c => negb (Ascii.eqb c (ascii_of_N 10))) name = true
    /\ all_chars (fun c => negb (Ascii.eqb c " ")) name = true.
Proof.
  exists (encodeURIComponent (outBase f env)).
  split; [reflexivity|]. split.
  - unfold outBase. rewrite !encodeURIComponent_append. reflexivity.
  - split; [apply encodeURIComponent_url_safe|].
    apply url_safe_plain, encodeURIComponent_url_safe.
Qed.

(** X7.  [encodeURIComponent] loses nothing: two texts with the same
    encoding are the same text, so two output names never share a
    link. *)
Theorem encodeURIComponent_injective (s t : string) :
  encodeURIComponent s = encodeURIComponent t -> s = t.
Proof.
  revert t. induction s as [|c r IH]; intros [|d u];
    cbn [encodeURIComponent].
  - reflexivity.
  - destruct (is_uri_unreserved d); discriminate.
  - destruct (is_uri_unreserved c); discriminate.
  - destruct (is_uri_unreserved c) eqn:Uc, (is_uri_unreserved d) eqn:Ud;
      intros E.
    + injection E as -> E. f_equal. now apply IH.
    + injection E as -> _. discriminate Uc.
    + injection E as <- _. discriminate Ud.
    + injection E as Hh Hl E.
      pose proof (ascii_code_bound c) as Bc.
      pose proof (ascii_code_bound d) as Bd.
      apply hex_digit_inj in Hh;
        [|apply N.Div0.div_lt_upper_bound; assumption ..].
      apply hex_digit_inj in Hl; [|apply N.mod_lt; discriminate ..].
      assert (N : N_of_ascii c = N_of_ascii d).
      { rewrite (N.div_mod (N_of_ascii c) 16) by discriminate.
        rewrite (N.div_mod (N_of_ascii d) 16) by discriminate.
        now rewrite Hh, Hl. }
      f_equal; [|now apply IH].
      rewrite <- (ascii_N_embedding c), <- (ascii_N_embedding d).
      now rewrite N.
Qed.

Lemma encodeURIComponent_injective_witness :
  encodeURIComponent "a b/c" = "a%20b%2Fc" /\ "a b/c" = "a b/c".
Proof.
  split; [reflexivity|].
  apply (encodeURIComponent_injective "a b/c" "a b/c"). reflexivity.
Defined.

(** ** The time marker *)

Lemma span_run (p : ascii -> bool) (s rest : string) :
  all_chars p s = true -> stops p rest = true ->
  span p (s +++ rest) = (s, rest).
Proof.
  intros A S. induction s as [|c r IH]; cbn [String.append span all_chars] in *.
  - destruct rest as [|d u]; [reflexivity|].
    cbn [stops] in S. apply negb_true_iff in S. cbn [span]. now rewrite S.
  - apply andb_true_iff in A as [Hc Hr]. now rewrite Hc, (IH Hr).
Qed.

Lemma span_before_stop (p : ascii -> bool) (b x : string) :
  stops p x = true ->
  span p (b +++ x) = (fst (span p b), snd (span p b) +++ x).
Proof.
  intros S. induction b as [|c r IH]; cbn [String.append span].
  - exact (span_run p "" x eq_refl S).
  - destruct (p c); [|reflexivity].
    rewrite IH. now destruct (span p r).
Qed.

Lemma starts_with_time_before (b x : string) :
  b <> "" ->
  starts_with "time=" (b +++ "time=" +++ x)
  = match starts_with "time=" b with
    | Some r => Some (r +++ "time=" +++ x)
    | None => None
    end.
Proof.
  intros N.
  destruct b as [|c1 b]; [congruence|]. clear N.
  cbn [String.append starts_with].
  destruct (Ascii.eqb_spec "t" c1) as [<-|]; [|reflexivity].
  destruct b as [|c2 b]; [reflexivity|]. cbn [String.append starts_with].
  destruct (Ascii.eqb_spec "i" c2) as [<-|]; [|reflexivity].
  destruct b as [|c3 b]; [reflexivity|]. cbn [String.append starts_with].
  destruct (Ascii.eqb_spec "m" c3) as [<-|]; [|reflexivity].
  destruct b as [|c4 b]; [reflexivity|]. cbn [String.append starts_with].
  destruct (Ascii.eqb_spec "e" c4) as [<-|]; [|reflexivity].
  destruct b as [|c5 b]; [reflexivity|]. cbn [String.append starts_with].
  destruct (Ascii.eqb_spec "=" c5) as [<-|]; reflexivity.
Qed.

(** A marker that follows does not change what matches before it. *)
Lemma match_time_here_before (b x : string) :
  b <> "" ->
  match_time_here (b +++ "time=" +++ x) = match_time_here b.
Proof.
  intros N. unfold match_time_here.
  rewrite starts_with_time_before by exact N.
  destruct (starts_with "time=" b) as [r|]; [|reflexivity].
  set (y := "time=" +++ x).
  assert (Sd : stops is_digit y = true) by reflexivity.
  assert (Sdd : stops is_digit_or_dot y = true) by reflexivity.
  rewrite (span_before_stop is_digit r y Sd).
  destruct (span is_digit r) as [h r1]. cbn [fst snd].
  destruct h as [|ch h]; [reflexivity|].
  destruct r1 as [|c1 r2]; [reflexivity|]. cbn [String.append].
  destruct (Ascii.eqb_spec c1 ":") as [->|Nc].
  2:{ destruct c1 as [[] [] [] [] [] [] [] []]; try reflexivity.
      now contradiction Nc. }
  rewrite (span_before_stop is_digit r2 y Sd).
  destruct (span is_digit r2) as [m r3]. cbn [fst snd].
  destruct m as [|cm m]; [reflexivity|].
  destruct r3 as [|c3 r4]; [reflexivity|]. cbn [String.append].
  destruct (Ascii.eqb_spec c3 ":") as [->|Nc].
  2:{ destruct c3 as [[] [] [] [] [] [] [] []]; try reflexivity.
      now contradiction Nc. }
  rewrite (span_before_stop is_digit_or_dot r4 y Sdd).
  destruct (span is_digit_or_dot r4) as [sec r5]. reflexivity.
Qed.

Lemma match_time_before (pre x : string) :
  match_time pre = None ->
  match_time (pre +++ "time=" +++ x) = match_time ("time=" +++ x).
Proof.
  induction pre as [|c r IH]; [reflexivity|].
  intros H. cbn [match_time] in H.
  change (String c r +++ "time=" +++ x) with (String c (r +++ "time=" +++ x)).
  cbn [match_time].
  change (String c (r +++ "time=" +++ x)) with (String c r +++ "time=" +++ x).
  rewrite match_time_here_before by discriminate.
  destruct (match_time_here (String c r)); [discriminate H|].
  apply IH, H.
Qed.

Lemma run_of_spec (p : ascii -> bool) (s : string) :
  run_of p s = true ->
  all_chars p s = true /\ exists c r, s = String c r.
Proof.
  unfold run_of. intros H. apply andb_true_iff in H as [N A].
  split; [exact A|]. destruct s as [|c r]; [discriminate N | eauto].
Qed.

Lemma match_time_here_marker (h m sec rest : string) :
  run_of is_digit h = true -> run_of is_digit m = true ->
  run_of is_digit_or_dot sec = true -> stops is_digit_or_dot rest = true ->
  match_time_here ("time=" +++ h +++ ":" +++ m +++ ":" +++ sec +++ rest)
  = Some (h, m, sec).
Proof.
  intros Hh Hm Hs Hr.
  apply run_of_spec in Hh as (Ah & ch & rh & Eh).
  apply run_of_spec in Hm as (Am & cm & rm & Em).
  apply run_of_spec in Hs as (As & cs & rs & Es).
  unfold match_time_here.
  change (starts_with "time=" ("time=" +++ h +++ ":" +++ m +++ ":" +++ sec +++ rest))
    with (Some (h +++ String ":" (m +++ String ":" (sec +++ rest)))).
  cbv iota beta.
  rewrite (span_run is_digit h (String ":" (m +++ String ":" (sec +++ rest)))
             Ah eq_refl).
  rewrite Eh at 1.
  rewrite (span_run is_digit m (String ":" (sec +++ rest)) Am eq_refl).
  rewrite Em at 1.
  rewrite (span_run is_digit_or_dot sec rest As Hr). rewrite Es at 1.
  reflexivity.
Qed.

(** X8.  The time pattern finds the first marker of a chunk and reads
    its three fields whole: when nothing before it matches, a marker
    [time=H:M:S] with digits for [H] and [M], digits and dots for [S],
    and no digit or dot right after it, yields the groups [H], [M] and
    [S]; with a positive duration the chunk then yields the percentage
    of that elapsed time. *)
Theorem match_time_finds_first_marker (pre h m sec rest : string)
  (dur : number) :
  match_time pre = None ->
  run_of is_digit h = true -> run_of is_digit m = true ->
  run_of is_digit_or_dot sec = true -> stops is_digit_or_dot rest = true ->
  let buf := pre +++ "time=" +++ h +++ ":" +++ m +++ ":" +++ sec +++ rest in
  match_time buf = Some (h, m, sec)
  /\ (gt dur (of_Z 0) = true ->
      chunk_percent dur buf = Some (percent (elapsed (h, m, sec)) dur)).
Proof.
  intros Hpre Hh Hm Hs Hr buf.
  assert (M : match_time buf = Some (h, m, sec)).
  { unfold buf. rewrite match_time_before by exact Hpre.
    pose proof (match_time_here_marker h m sec rest Hh Hm Hs Hr) as E.
    remember ("time=" +++ h +++ ":" +++ m +++ ":" +++ sec +++ rest) as y.
    destruct y as [|c y]; cbn [match_time]; now rewrite E. }
  split; [exact M|].
  intros D. unfold chunk_percent. now rewrite M, D.
Qed.

Lemma match_time_finds_first_marker_witness :
  let buf := "frame=  240 fps= 60 q=28.0 size=    1024kB "
             +++ "time=" +++ "00" +++ ":" +++ "01" +++ ":" +++ "05.25"
             +++ " bitrate= 900kbits/s" in
  match_time buf = Some ("00", "01", "05.25")
  /\ (gt (of_Z 20) (of_Z 0) = true ->
      chunk_percent (of_Z 20) buf
      = Some (percent (elapsed ("00", "01", "05.25")) (of_Z 20))).
Proof.
  apply (match_time_finds_first_marker
           "frame=  240 fps= 60 q=28.0 size=    1024kB "
           "00" "01" "05.25" " bitrate= 900kbits/s" (of_Z 20));
    reflexivity.
Defined.

(** ** Paths *)

Lemma split_slash_plain (s : string) :
  forall cur, no_slash s = true -> split_slash cur s = [cur +++ s].
Proof.
  unfold no_slash.
  induction s as [|c r IH]; intros cur H; cbn [split_slash all_chars] in *.
  - now rewrite append_empty_r.
  - apply andb_true_iff in H as [Hc Hr]. unfold is_slash in Hc.
    apply negb_true_iff in Hc. rewrite Hc, (IH _ Hr), append_assoc.
    reflexivity.
Qed.

Lemma split_slash_segment (a b : string) :
  forall cur,
    no_slash a = true ->
    split_slash cur (a +++ String "/" b) = (cur +++ a) :: split_slash "" b.
Proof.
  unfold no_slash.
  induction a as [|c r IH]; intros cur H;
    cbn [String.append split_slash all_chars] in *.
  - now rewrite append_empty_r.
  - apply andb_true_iff in H as [Hc Hr]. unfold is_slash in Hc.
    apply negb_true_iff in Hc. rewrite Hc, (IH _ Hr), append_assoc.
    reflexivity.
Qed.

Lemma plain_segment_spec (s : string) :
  plain_segment s = true ->
  no_slash s = true /\ (s =? "")%string = false
  /\ (s =? ".")%string = false /\ (s =? "..")%string = false.
Proof.
  unfold plain_segment. intros H.
  apply andb_true_iff in H as [H H4]. apply andb_true_iff in H as [H H3].
  apply andb_true_iff in H as [H1 H2].
  now rewrite (proj1 (negb_true_iff _) H2), (proj1 (negb_true_iff _) H3),
    (proj1 (negb_true_iff _) H4).
Qed.

Lemma join_slash_cons (a : string) (segs : list string) :
  segs <> [] -> join_slash (a :: segs) = a +++ String "/" (join_slash segs).
Proof. destruct segs; [congruence | reflexivity]. Qed.

Lemma join_slash_snoc (segs : list string) (b : string) :
  segs <> [] ->
  join_slash (segs ++ [b]) = join_slash segs +++ String "/" b.
Proof.
  induction segs as [|a rest IH]; [congruence|]. intros _.
  destruct rest as [|a' rest]; [reflexivity|].
  change ((a :: a' :: rest) ++ [b]) with (a :: ((a' :: rest) ++ [b])).
  rewrite join_slash_cons by discriminate.
  rewrite IH by discriminate.
  rewrite (join_slash_cons a (a' :: rest)) by discriminate.
  rewrite append_assoc. reflexivity.
Qed.

Lemma split_join_slash (segs : list string) :
  segs <> [] -> forallb plain_segment segs = true ->
  split_slash "" (join_slash segs) = segs.
Proof.
  induction segs as [|a rest IH]; [congruence|]. intros _ P.
  cbn [forallb] in P. apply andb_true_iff in P as [Pa Pr].
  apply plain_segment_spec in Pa as (Na & _).
  destruct rest as [|a' rest].
  - cbn [join_slash]. now rewrite split_slash_plain.
  - rewrite join_slash_cons by discriminate.
    rewrite split_slash_segment by exact Na.
    rewrite IH by (discriminate || exact Pr). reflexivity.
Qed.

Lemma normalize_segments_plain (above_root : bool) (segs : list string) :
  forall stack rest,
    forallb plain_segment segs = true ->
    normalize_segments above_root stack (segs ++ rest)
    = normalize_segments above_root (rev segs ++ stack) rest.
Proof.
  induction segs as [|a segs IH]; intros stack rest P; [reflexivity|].
  cbn [forallb] in P. apply andb_true_iff in P as [Pa Pr].
  apply plain_segment_spec in Pa as (_ & E1 & E2 & E3).
  cbn [app normalize_segments]. rewrite E1, E2, E3. cbn [orb].
  rewrite (IH _ _ Pr). cbn [rev]. now rewrite <- app_assoc.
Qed.

Lemma join_slash_nonempty (segs : list string) :
  segs <> [] -> forallb plain_segment segs = true ->
  exists c r, join_slash segs = String c r.
Proof.
  destruct segs as [|a rest]; [congruence|]. intros _ P.
  cbn [forallb] in P. apply andb_true_iff in P as [Pa _].
  apply plain_segment_spec in Pa as (_ & E1 & _).
  destruct a as [|c a]; [discriminate E1|].
  destruct rest; cbn [join_slash String.append]; eauto.
Qed.

Lemma ends_with_slash_plain (s b : string) :
  plain_segment b = true -> ends_with_slash (s +++ b) = false.
Proof.
  intros P. apply plain_segment_spec in P as (N & E & _).
  unfold ends_with_slash. rewrite rev_string_append.
  unfold no_slash in N. rewrite <- all_chars_rev in N.
  assert (R : rev_string "" b <> "").
  { destruct b as [|c r]; [discriminate E|]. cbn [rev_string].
    rewrite rev_string_acc. destruct (rev_string "" r); discriminate. }
  destruct (rev_string "" b) as [|c r]; [congruence|].
  cbn [all_chars] in N. apply andb_true_iff in N as [Nc _].
  unfold is_slash in Nc. apply negb_true_iff, Ascii.eqb_neq in Nc.
  cbn [String.append].
  destruct c as [[] [] [] [] [] [] [] []]; try reflexivity.
  now contradiction Nc.
Qed.

Lemma split_join_slash_tail (l : list string) :
  l <> [] -> forallb plain_segment l = true ->
  forall tl,
    split_slash "" (join_slash l +++ String "/" tl) = l ++ split_slash "" tl.
Proof.
  induction l as [|x l IH]; [congruence|]. intros _ Pl tl.
  cbn [forallb] in Pl. apply andb_true_iff in Pl as [Px Pl].
  apply plain_segment_spec in Px as (Nx & _).
  destruct l as [|x' l].
  - cbn [join_slash app]. now rewrite split_slash_segment.
  - rewrite join_slash_cons by discriminate.
    rewrite append_assoc. cbn [String.append].
    rewrite split_slash_segment by exact Nx.
    rewrite IH by (discriminate || exact Pl). reflexivity.
Qed.

Lemma split_slash_under (segs : list string) (tail : string) :
  forallb plain_segment segs = true ->
  normalize_segments false []
    (split_slash "" (String "/" (join_slash segs +++ String "/" tail)))
  = normalize_segments false (rev segs) (split_slash "" tail).
Proof.
  intros P. cbn [split_slash]. change (Ascii.eqb "/" "/") with true.
  cbv iota. cbn [normalize_segments String.eqb orb].
  destruct segs as [|a rest].
  - cbn [join_slash String.append split_slash].
    change (Ascii.eqb "/" "/") with true. cbv iota.
    reflexivity.
  - rewrite split_join_slash_tail by (discriminate || exact P).
    rewrite normalize_segments_plain by exact P.
    now rewrite app_nil_r.
Qed.

(** [path.join] of a normal absolute path and a relative one. *)
Lemma path_join_under (p tail : string) (segs out : list string) :
  normal_absolute p segs ->
  tail <> "" ->
  normalize_segments false (rev segs) (split_slash "" tail) = out ->
  out <> [] -> forallb plain_segment out = true ->
  ends_with_slash (p +++ String "/" tail) = false ->
  path_join p tail = String "/" (join_slash out)
  /\ normal_absolute (path_join p tail) out.
Proof.
  intros [Ep P] Nt No Ne Po Es.
  assert (G : path_join p tail = String "/" (join_slash out)).
  { unfold path_join. rewrite Ep at 1.
    destruct tail as [|c t]; [congruence|].
    change ("/" +++ String c t) with (String "/" (String c t)).
    unfold path_normalize. rewrite Es. rewrite Ep.
    cbn [String.append]. rewrite split_slash_under by exact P.
    rewrite No.
    destruct (join_slash_nonempty out Ne Po) as (c' & r' & ->).
    now rewrite append_empty_r. }
  split; [exact G|]. split; assumption.
Qed.

Lemma rev_snoc_plain (segs : list string) (b : string) :
  rev (b :: rev segs) = segs ++ [b].
Proof. cbn [rev]. now rewrite rev_involutive. Qed.

(** Joining a plain segment onto a normal absolute path appends it. *)
Lemma path_join_plain (p b : string) (segs : list string) :
  normal_absolute p segs -> plain_segment b = true ->
  path_join p b = String "/" (join_slash (segs ++ [b]))
  /\ normal_absolute (path_join p b) (segs ++ [b]).
Proof.
  intros Hp Pb.
  pose proof (plain_segment_spec b Pb) as (Nb & E1 & E2 & E3).
  apply (path_join_under p b segs (segs ++ [b]) Hp).
  - intros ->. discriminate E1.
  - rewrite (split_slash_plain b "" Nb). cbn [String.append].
    cbn [normalize_segments]. rewrite E1, E2, E3. cbn [orb].
    apply rev_snoc_plain.
  - destruct segs; discriminate.
  - rewrite forallb_app. destruct Hp as [_ ->]. cbn [forallb].
    now rewrite Pb.
  - change (String "/" b) with ("/" +++ b). rewrite <- append_assoc.
    now apply ends_with_slash_plain.
Qed.

(** ** The characters of the text of a Number *)

Section NumberText.

(** A class of characters that holds the digits, the signs, the dot
    and the letters of [NaN], [Infinity] and the exponent mark. *)
Variable p : ascii -> bool.
Hypothesis p_digit : forall c, is_digit c = true -> p c = true.
Hypothesis p_marks : all_chars p "-.+e" = true.
Hypothesis p_names : all_chars p "NaNInfinity" = true.

Lemma string_of_uint_chars (d : Decimal.uint) :
  all_chars p (NilEmpty.string_of_uint d) = true.
Proof.
  induction d; cbn [NilEmpty.string_of_uint all_chars];
    [reflexivity | rewrite IHd, p_digit; reflexivity ..].
Qed.

Lemma Z_to_string_chars (z : Z) : all_chars p (Z_to_string z) = true.
Proof.
  assert (M : p "-" = true).
  { pose proof p_marks as Pm. cbn [all_chars] in Pm.
    now apply andb_true_iff in Pm as [M _]. }
  assert (Z0 : all_chars p "0" = true)
    by (cbn [all_chars]; now rewrite p_digit).
  unfold Z_to_string, NilZero.string_of_int, NilZero.string_of_uint.
  destruct (Z.to_int z) as [d|d]; cbn [all_chars]; rewrite ?M; cbn [andb];
    (destruct d; [exact Z0 | exact (string_of_uint_chars _) ..]).
Qed.

Lemma chars_append (s t : string) :
  all_chars p s = true -> all_chars p t = true ->
  all_chars p (s +++ t) = true.
Proof. intros A B. now rewrite all_chars_append, A, B. Qed.

Lemma substring_chars (s : string) :
  forall n m, all_chars p s = true -> all_chars p (substring n m s) = true.
Proof.
  induction s as [|c r IH]; intros [|n] [|m] H; cbn [substring all_chars] in *;
    try reflexivity.
  - apply andb_true_iff in H as [Hc Hr]. now rewrite Hc, (IH 0%nat m Hr).
  - apply andb_true_iff in H as [Hc Hr]. exact (IH n 0%nat Hr).
  - apply andb_true_iff in H as [Hc Hr]. exact (IH n (S m) Hr).
Qed.

Lemma zeros_chars (n : nat) : all_chars p (zeros n) = true.
Proof.
  induction n; cbn [zeros all_chars]; [reflexivity|].
  now rewrite IHn, p_digit.
Qed.

Lemma format_digits_chars (s n : Z) : all_chars p (format_digits s n) = true.
Proof.
  pose proof (Z_to_string_chars s) as D.
  pose proof p_marks as Pm. cbn [all_chars] in Pm.
  apply andb_true_iff in Pm as [M1 Ms].
  apply andb_true_iff in Ms as [M2 Ms]. apply andb_true_iff in Ms as [M3 Ms].
  apply andb_true_iff in Ms as [M4 _].
  assert (Dot : all_chars p "." = true) by (cbn [all_chars]; now rewrite M2).
  assert (X : all_chars p (exponent_suffix n) = true).
  { unfold exponent_suffix. cbn [String.append all_chars]. rewrite M4.
    destruct (0 <=? n - 1); cbn [String.append all_chars];
      rewrite ?M1, ?M3; apply Z_to_string_chars. }
  unfold format_digits.
  set (ds := Z_to_string s) in *.
  set (k := Z.of_nat (String.length ds)).
  destruct ((k <=? n) && (n <=? 21)).
  { apply chars_append; [exact D | apply zeros_chars]. }
  destruct ((0 <? n) && (n <=? 21)).
  { apply chars_append; [now apply substring_chars|].
    apply chars_append; [exact Dot | now apply substring_chars]. }
  destruct ((-6 <? n) && (n <=? 0)).
  { apply (chars_append "0.");
      [cbn [all_chars]; now rewrite M2, p_digit|].
    apply chars_append; [apply zeros_chars | exact D]. }
  destruct (k =? 1).
  { apply chars_append; assumption. }
  apply chars_append; [now apply substring_chars|].
  apply chars_append; [exact Dot|].
  apply chars_append; [now apply substring_chars | exact X].
Qed.

Lemma number_to_string_chars (x : number) :
  all_chars p (number_to_string x) = true.
Proof.
  assert (M : p "-" = true).
  { pose proof p_marks as Pm. cbn [all_chars] in Pm.
    now apply andb_true_iff in Pm as [M _]. }
  assert (Names : all_chars p "NaN" = true /\ all_chars p "Infinity" = true).
  { pose proof p_names as Pn.
    change "NaNInfinity" with ("NaN" +++ "Infinity") in Pn.
    rewrite all_chars_append in Pn. now apply andb_true_iff in Pn. }
  destruct Names as [Hnan Hinf].
  destruct x as [|neg|neg|neg m e]; cbn [number_to_string].
  - exact Hnan.
  - destruct neg; [|exact Hinf].
    change "-Infinity" with ("-" +++ "Infinity").
    apply chars_append; [cbn [all_chars]; now rewrite M | exact Hinf].
  - cbn [all_chars]. now rewrite p_digit.
  - destruct (shortest_digits _ _ _ _ _ _) as [s n'].
    apply chars_append; [|apply format_digits_chars].
    destruct neg; [cbn [all_chars]; now rewrite M | reflexivity].
Qed.

End NumberText.

Lemma digit_code (c : ascii) :
  is_digit c = true -> (48 <= N_of_ascii c <= 57)%N.
Proof.
  unfold is_digit. intros H. apply andb_true_iff in H as [L U].
  apply N.leb_le in L. apply N.leb_le in U. auto.
Qed.

Lemma number_to_string_no_slash (x : number) :
  no_slash (number_to_string x) = true.
Proof.
  apply number_to_string_chars; try reflexivity.
  intros c H. apply digit_code in H.
  apply negb_true_iff, Ascii.eqb_neq. intros ->. cbn in H. lia.
Qed.

Lemma number_to_string_no_line_feed (x : number) :
  no_line_feed (number_to_string x) = true.
Proof.
  apply number_to_string_chars; try reflexivity.
  intros c H. apply digit_code in H.
  apply negb_true_iff, Ascii.eqb_neq. intros ->. cbn in H. lia.
Qed.

Lemma no_slash_append (s t : string) :
  no_slash s = true -> no_slash t = true -> no_slash (s +++ t) = true.
Proof.
  unfold no_slash. intros A B. now rewrite all_chars_append, A, B.
Qed.

Lemma no_slash_prefix (s t : string) :
  no_slash (s +++ t) = true -> no_slash s = true.
Proof.
  unfold no_slash. rewrite all_chars_append. intros H.
  now apply andb_true_iff in H as [A _].
Qed.

Lemma length_append (s t : string) :
  String.length (s +++ t) = (String.length s + String.length t)%nat.
Proof.
  induction s as [|c r IH]; cbn [String.append String.length];
    [reflexivity | now rewrite IH].
Qed.

Lemma outBase_plain (f : UploadedFile) (env : Env) :
  no_slash (originalname f) = true -> plain_segment (outBase f env) = true.
Proof.
  intros N.
  assert (No : no_slash (origName f) = true).
  { destruct (strip_extension_spec (originalname f)) as (ext & E & _).
    unfold origName. rewrite E in N. exact (no_slash_prefix _ _ N). }
  assert (Ns : no_slash (outBase f env) = true).
  { unfold outBase. repeat apply no_slash_append;
      try reflexivity; [exact No | apply number_to_string_no_slash]. }
  assert (L : (6 <= String.length (outBase f env))%nat).
  { unfold outBase. rewrite !length_append. cbn [String.length]. lia. }
  unfold plain_segment. rewrite Ns.
  destruct (outBase f env) as [|c1 [|c2 [|c3 r]]];
    cbn [String.length] in L; try lia.
  cbn [String.eqb andb negb].
  destruct (Ascii.eqb c1 "."); [|reflexivity].
  destruct (Ascii.eqb c2 "."); reflexivity.
Qed.

(** X9.  When the application directory is a normal absolute path and
    the client's file name holds no [/], the output file is an entry of
    the downloads directory, which is an entry of the application
    directory: [outPath] is [downloadsDir], [/] and [outBase], and
    [outBase] has no [/].  The download route, given that name, serves
    that file. *)
Theorem outPath_inside_downloads (f : UploadedFile) (env : Env)
  (segs : list string) :
  normal_absolute (dirname env) segs ->
  no_slash (originalname f) = true ->
  downloadsDir env = String "/" (join_slash (segs ++ ["downloads"]))
  /\ outPath f env = downloadsDir env +++ "/" +++ outBase f env
  /\ plain_segment (outBase f env) = true
  /\ download_file env (outBase f env) = outPath f env.
Proof.
  intros Hd N.
  destruct (path_join_plain (dirname env) "downloads" segs Hd eq_refl)
    as [Ed Nd].
  change (path_join (dirname env) "downloads") with (downloadsDir env) in *.
  pose proof (outBase_plain f env N) as Pb.
  destruct (path_join_plain (downloadsDir env) (outBase f env)
              (segs ++ ["downloads"]) Nd Pb) as [Eo _].
  change (path_join (downloadsDir env) (outBase f env))
    with (outPath f env) in Eo.
  split; [exact Ed|]. split; [|split; [exact Pb | reflexivity]].
  rewrite Eo, Ed.
  rewrite join_slash_snoc by (destruct segs; discriminate).
  cbn [String.append]. reflexivity.
Qed.

Lemma outPath_inside_downloads_witness :
  downloadsDir Examples.good_run
  = String "/" (join_slash (["srv"; "app"] ++ ["downloads"]))
  /\ outPath Examples.clip Examples.good_run
     = downloadsDir Examples.good_run +++ "/"
       +++ outBase Examples.clip Examples.good_run
  /\ plain_segment (outBase Examples.clip Examples.good_run) = true
  /\ download_file Examples.good_run (outBase Examples.clip Examples.good_run)
     = outPath Examples.clip Examples.good_run.
Proof.
  apply (outPath_inside_downloads Examples.clip Examples.good_run
           ["srv"; "app"]); [split|]; reflexivity.
Defined.

(** X10.  The download route resolves the name it is given against the
    downloads directory: a name that is a plain segment names an entry
    of that directory. *)
Theorem download_file_of_plain_name (env : Env) (segs : list string)
  (name : string) :
  normal_absolute (dirname env) segs ->
  plain_segment name = true ->
  download_file env name = downloadsDir env +++ "/" +++ name.
Proof.
  intros Hd Pn.
  destruct (path_join_plain (dirname env) "downloads" segs Hd eq_refl)
    as [Ed Nd].
  change (path_join (dirname env) "downloads") with (downloadsDir env) in *.
  destruct (path_join_plain (downloadsDir env) name
              (segs ++ ["downloads"]) Nd Pn) as [Eo _].
  unfold download_file. rewrite Eo, Ed.
  rewrite join_slash_snoc by (destruct segs; discriminate).
  reflexivity.
Qed.

Lemma download_file_of_plain_name_witness :
  download_file Examples.good_run "clip_desq_1700000000000.mp4"
  = downloadsDir Examples.good_run +++ "/" +++ "clip_desq_1700000000000.mp4".
Proof.
  apply (download_file_of_plain_name Examples.good_run ["srv"; "app"]);
    [split|]; reflexivity.
Defined.

(** X11.  The download route does not keep the file inside the
    downloads directory: it resolves [..] like any path, so a name
    [../b] names the entry [b] of the application directory itself. *)
Theorem download_file_leaves_downloads (env : Env) (segs : list string)
  (b : string) :
  normal_absolute (dirname env) segs ->
  plain_segment b = true ->
  download_file env ("../" +++ b) = String "/" (join_slash (segs ++ [b])).
Proof.
  intros Hd Pb.
  destruct (path_join_plain (dirname env) "downloads" segs Hd eq_refl)
    as [Ed Nd].
  change (path_join (dirname env) "downloads") with (downloadsDir env) in *.
  pose proof (plain_segment_spec b Pb) as (Nb & E1 & E2 & E3).
  unfold download_file.
  apply (path_join_under (downloadsDir env) ("../" +++ b)
           (segs ++ ["downloads"]) (segs ++ [b]) Nd).
  - discriminate.
  - change ("../" +++ b) with (".." +++ String "/" b).
    rewrite split_slash_segment by reflexivity.
    rewrite (split_slash_plain b "" Nb). cbn [String.append].
    rewrite rev_app_distr. cbn [rev app normalize_segments String.eqb
                                 Ascii.eqb Bool.eqb orb].
    rewrite E1, E2, E3. cbn [orb]. apply rev_snoc_plain.
  - destruct segs; discriminate.
  - rewrite forallb_app. destruct Hd as [_ ->]. cbn [forallb].
    now rewrite Pb.
  - change (String "/" ("../" +++ b)) with ("/../" +++ b).
    rewrite <- append_assoc. now apply ends_with_slash_plain.
Qed.

Lemma download_file_leaves_downloads_witness :
  download_file Examples.good_run ("../" +++ "server.js")
  = String "/" (join_slash (["srv"; "app"] ++ ["server.js"])).
Proof.
  apply (download_file_leaves_downloads Examples.good_run ["srv"; "app"]);
    [split|]; reflexivity.
Defined.

(** ** Rounding keeps the order *)

Lemma round_ratio_unfold (neg : bool) (n d : positive) (e : Z) :
  round_ratio neg n d e
  = match rounded_mantissa n d e with
    | Zpos p =>
        if emax <=? Z.log2 (rounded_mantissa n d e) + rounding_exponent n d e
        then Inf neg else mkFin neg p (rounding_exponent n d e)
    | _ => Zero neg
    end.
Proof. reflexivity. Qed.

Lemma Qeq_le (x y : Q) : (x == y)%Q -> (x <= y)%Q.
Proof. intros ->. apply Qle_refl. Qed.

Lemma inject_pos (p : positive) : (0 < inject_Z (Zpos p))%Q.
Proof. rewrite <- (Zlt_Qlt 0). lia. Qed.

Lemma pow2_lt_inv (a b : Z) : (pow2 a < pow2 b)%Q -> a < b.
Proof.
  intros H. destruct (Z_lt_ge_dec a b) as [|G]; [assumption|exfalso].
  apply (Qlt_irrefl (pow2 a)). eapply Qlt_le_trans; [exact H|].
  apply pow2_le. lia.
Qed.

Lemma round_half_even_mono (num1 den1 num2 den2 : Z) :
  0 < den1 -> 0 < den2 -> num1 * den2 <= num2 * den1 ->
  round_half_even (num1 / den1) (num1 mod den1) den1
  <= round_half_even (num2 / den2) (num2 mod den2) den2.
Proof.
  intros H1 H2 H.
  pose proof (Z.div_mod num1 den1 ltac:(lia)) as E1.
  pose proof (Z.mod_pos_bound num1 den1 H1) as B1.
  pose proof (Z.div_mod num2 den2 ltac:(lia)) as E2.
  pose proof (Z.mod_pos_bound num2 den2 H2) as B2.
  set (q1 := num1 / den1) in *. set (r1 := num1 mod den1) in *.
  set (q2 := num2 / den2) in *. set (r2 := num2 mod den2) in *.
  assert (Q : q1 <= q2).
  { destruct (Z_le_gt_dec q1 q2) as [|G]; [assumption|exfalso].
    assert (A : den1 * (q2 + 1) <= num1) by nia.
    assert (B : num2 < den2 * (q2 + 1)) by nia.
    assert (A' : den1 * (q2 + 1) * den2 <= num1 * den2)
      by (apply Z.mul_le_mono_nonneg_r; lia).
    assert (B' : num2 * den1 < den2 * (q2 + 1) * den1)
      by (apply Z.mul_lt_mono_pos_r; lia).
    lia. }
  assert (R1 : q1 <= round_half_even q1 r1 den1 <= q1 + 1).
  { unfold round_half_even.
    destruct (2 * r1 ?= den1); [destruct (Z.even q1)| |]; lia. }
  assert (R2 : q2 <= round_half_even q2 r2 den2 <= q2 + 1).
  { unfold round_half_even.
    destruct (2 * r2 ?= den2); [destruct (Z.even q2)| |]; lia. }
  destruct (Z.eq_dec q1 q2) as [Eq|Nq]; [|lia].
  assert (Rr : r1 * den2 <= r2 * den1).
  { rewrite E1, E2, <- Eq in H. lia. }
  assert (F1 : den1 <= 2 * r1 -> den2 <= 2 * r2).
  { intros G. destruct (Z_le_gt_dec den2 (2 * r2)) as [|L]; [assumption|exfalso].
    assert (A : 2 * r2 * den1 < den2 * den1)
      by (apply Z.mul_lt_mono_pos_r; lia).
    assert (B : den1 * den2 <= 2 * r1 * den2)
      by (apply Z.mul_le_mono_nonneg_r; lia).
    lia. }
  assert (F2 : den1 < 2 * r1 -> den2 < 2 * r2).
  { intros G. destruct (Z_lt_ge_dec den2 (2 * r2)) as [|L]; [assumption|exfalso].
    assert (A : 2 * r2 * den1 <= den2 * den1)
      by (apply Z.mul_le_mono_nonneg_r; lia).
    assert (B : den1 * den2 < 2 * r1 * den2)
      by (apply Z.mul_lt_mono_pos_r; lia).
    lia. }
  unfold round_half_even. rewrite <- Eq.
  destruct (Z.compare_spec (2 * r1) den1);
    destruct (Z.compare_spec (2 * r2) den2);
    try (destruct (Z.even q1)); lia.
Qed.

(** The operands of the division in [round_ratio], as a ratio. *)
Lemma operands_ratio (n d : positive) (e E : Z) :
  let sh := e - E in
  let num := if 0 <=? sh then Zpos n * 2 ^ sh else Zpos n in
  let den := if 0 <=? sh then Zpos d else Zpos d * 2 ^ (- sh) in
  0 < den
  /\ (inject_Z num * inject_Z (Zpos d)
      == inject_Z (Zpos n) * pow2 (e - E) * inject_Z den)%Q.
Proof.
  intros sh num den. subst num den. fold sh.
  destruct (0 <=? sh) eqn:S; [apply Z.leb_le in S | apply Z.leb_gt in S].
  - split; [lia|].
    rewrite inject_Z_mult, <- pow2_Z by lia. reflexivity.
  - assert (P : 0 < 2 ^ (- sh)) by (apply Z.pow_pos_nonneg; lia).
    split; [nia|].
    rewrite inject_Z_mult, <- pow2_Z by lia.
    setoid_replace (inject_Z (Z.pos n) * pow2 sh
                    * (inject_Z (Z.pos d) * pow2 (- sh)))%Q
      with (inject_Z (Z.pos n) * inject_Z (Z.pos d)
            * (pow2 sh * pow2 (- sh)))%Q by ring.
    rewrite pow2_cancel. ring.
Qed.

Lemma mantissa_upper (n d : positive) (e c kB : Z) :
  rounding_exponent n d e <= kB ->
  (inject_Z (Zpos n) * pow2 e <= inject_Z c * pow2 kB * inject_Z (Zpos d))%Q ->
  rounded_mantissa n d e <= c * 2 ^ (kB - rounding_exponent n d e).
Proof.
  intros Hk H. unfold rounded_mantissa.
  destruct (round_ratio_operands n d e (rounding_exponent n d e) c kB Hk)
    as (Dp & Up & _).
  cbv zeta in *. apply round_half_even_upper; [exact Dp | exact (Up H)].
Qed.

Lemma mantissa_lower (n d : positive) (e c kB : Z) :
  rounding_exponent n d e <= kB ->
  (inject_Z c * pow2 kB * inject_Z (Zpos d) <= inject_Z (Zpos n) * pow2 e)%Q ->
  c * 2 ^ (kB - rounding_exponent n d e) <= rounded_mantissa n d e.
Proof.
  intros Hk H. unfold rounded_mantissa.
  destruct (round_ratio_operands n d e (rounding_exponent n d e) c kB Hk)
    as (Dp & _ & Lo).
  cbv zeta in *. apply round_half_even_lower; [exact Dp | exact (Lo H)].
Qed.

Lemma mantissa_nonneg (n d : positive) (e : Z) : 0 <= rounded_mantissa n d e.
Proof.
  pose proof (mantissa_lower n d e 0 (rounding_exponent n d e) (Z.le_refl _))
    as L.
  rewrite Z.mul_0_l in L. apply L.
  change (inject_Z 0) with 0%Q. rewrite !Qmult_0_l.
  apply Qmult_le_0_compat; apply Qlt_le_weak;
    [apply inject_pos | apply pow2_pos].
Qed.

(** The value is at least [2^(L + e)] and at most [2^(L + 1 + e)],
    [L] being [log2_ratio n d]. *)
Lemma value_lower (n d : positive) (e : Z) :
  (pow2 (log2_ratio n d + e) * inject_Z (Zpos d)
   <= inject_Z (Zpos n) * pow2 e)%Q.
Proof.
  pose proof (shift_le _ _ e (log2_ratio_lower n d)) as L.
  eapply Qle_trans; [|exact L]. rewrite pow2_add. apply Qeq_le. ring.
Qed.

Lemma value_upper (n d : positive) (e : Z) :
  (inject_Z (Zpos n) * pow2 e
   <= pow2 (log2_ratio n d + 1 + e) * inject_Z (Zpos d))%Q.
Proof.
  pose proof (shift_le _ _ e (log2_ratio_upper n d)) as U.
  eapply Qle_trans; [exact U|].
  rewrite (pow2_add (log2_ratio n d + 1) e). apply Qeq_le. ring.
Qed.

Lemma Qmult_le_cancel_r (x y z : Q) :
  (0 < z)%Q -> (x * z <= y * z)%Q -> (x <= y)%Q.
Proof. intros Hz H. now apply (Qmult_le_r x y z Hz). Qed.

Lemma exponent_cases (n d : positive) (e : Z) :
  log2_ratio n d + e - 52 <= rounding_exponent n d e
  /\ emin <= rounding_exponent n d e
  /\ (emin < rounding_exponent n d e ->
      rounding_exponent n d e = log2_ratio n d + e - 52).
Proof. unfold rounding_exponent, prec, emin. lia. Qed.

(** The rounded value [M * 2^E] grows with the value rounded. *)
Lemma rounded_value_mono (n1 d1 n2 d2 : positive) (e1 e2 : Z) :
  (inject_Z (Zpos n1) * pow2 e1 * inject_Z (Zpos d2)
   <= inject_Z (Zpos n2) * pow2 e2 * inject_Z (Zpos d1))%Q ->
  (inject_Z (rounded_mantissa n1 d1 e1) * pow2 (rounding_exponent n1 d1 e1)
   <= inject_Z (rounded_mantissa n2 d2 e2)
      * pow2 (rounding_exponent n2 d2 e2))%Q.
Proof.
  intros H.
  pose proof (exponent_cases n1 d1 e1) as (X1 & Y1 & Z1).
  pose proof (exponent_cases n2 d2 e2) as (X2 & Y2 & Z2).
  pose proof (inject_pos d1) as D1. pose proof (inject_pos d2) as D2.
  pose proof (value_lower n1 d1 e1) as Lo1.
  pose proof (value_upper n1 d1 e1) as Up1.
  pose proof (value_lower n2 d2 e2) as Lo2.
  pose proof (value_upper n2 d2 e2) as Up2.
  set (E1 := rounding_exponent n1 d1 e1) in *.
  set (E2 := rounding_exponent n2 d2 e2) in *.
  set (L1 := log2_ratio n1 d1) in *. set (L2 := log2_ratio n2 d2) in *.
  assert (Scale : forall (c k E : Z), E <= k ->
            (inject_Z (c * 2 ^ (k - E)) * pow2 E == inject_Z c * pow2 k)%Q).
  { intros c k E HE. rewrite inject_Z_mult, <- pow2_Z by lia.
    rewrite <- Qmult_assoc, <- pow2_add.
    replace (k - E + E) with k by ring. reflexivity. }
  destruct (Z.lt_total E1 E2) as [Lt|[Eq|Gt]].
  - (* the exponent grows: a power of two lies between the values *)
    assert (M1 : rounded_mantissa n1 d1 e1 <= 2 ^ 53 * 2 ^ (E1 - E1)).
    { apply mantissa_upper; [lia|]. fold E1.
      eapply Qle_trans; [exact Up1|].
      apply Qmult_le_compat_r; [|apply Qlt_le_weak, D1].
      rewrite <- pow2_Z, <- pow2_add by lia. apply pow2_le. lia. }
    assert (M2 : 2 ^ 52 * 2 ^ (E2 - E2) <= rounded_mantissa n2 d2 e2).
    { apply mantissa_lower; [lia|]. fold E2.
      eapply Qle_trans; [|exact Lo2].
      apply Qmult_le_compat_r; [|apply Qlt_le_weak, D2].
      rewrite <- pow2_Z, <- pow2_add by lia. apply pow2_le. lia. }
    apply Qle_trans with (inject_Z (2 ^ 53 * 2 ^ (E1 - E1)) * pow2 E1)%Q.
    { apply Qmult_le_compat_r; [now rewrite <- Zle_Qle|].
      apply Qlt_le_weak, pow2_pos. }
    apply Qle_trans with (inject_Z (2 ^ 52 * 2 ^ (E2 - E2)) * pow2 E2)%Q.
    2:{ apply Qmult_le_compat_r; [now rewrite <- Zle_Qle|].
        apply Qlt_le_weak, pow2_pos. }
    rewrite !Scale by lia.
    rewrite <- !pow2_Z, <- !pow2_add by lia. apply pow2_le. lia.
  - (* the same exponent: the mantissas are in order *)
    rewrite <- Eq. apply Qmult_le_compat_r; [|apply Qlt_le_weak, pow2_pos].
    rewrite <- Zle_Qle. unfold rounded_mantissa. fold E1 E2. rewrite <- Eq.
    destruct (operands_ratio n1 d1 e1 E1) as (P1 & A1).
    destruct (operands_ratio n2 d2 e2 E1) as (P2 & A2).
    cbv zeta in *.
    set (num1 := if 0 <=? e1 - E1 then Zpos n1 * 2 ^ (e1 - E1) else Zpos n1)
      in *.
    set (den1 := if 0 <=? e1 - E1 then Zpos d1 else Zpos d1 * 2 ^ (- (e1 - E1)))
      in *.
    set (num2 := if 0 <=? e2 - E1 then Zpos n2 * 2 ^ (e2 - E1) else Zpos n2)
      in *.
    set (den2 := if 0 <=? e2 - E1 then Zpos d2 else Zpos d2 * 2 ^ (- (e2 - E1)))
      in *.
    apply round_half_even_mono; [exact P1 | exact P2 |].
    rewrite Zle_Qle, !inject_Z_mult.
    assert (R1 : (0 < inject_Z den1)%Q) by now rewrite <- (Zlt_Qlt 0).
    assert (R2 : (0 < inject_Z den2)%Q) by now rewrite <- (Zlt_Qlt 0).
    assert (H' : (inject_Z (Zpos n1) * pow2 (e1 - E1) * inject_Z (Zpos d2)
                  <= inject_Z (Zpos n2) * pow2 (e2 - E1) * inject_Z (Zpos d1))%Q).
    { apply (shift_le _ _ (- E1)) in H.
      eapply Qle_trans; [|eapply Qle_trans; [exact H|]]; apply Qeq_le;
        unfold Z.sub; rewrite pow2_add; ring. }
    apply Qmult_le_cancel_r
      with (z := (inject_Z (Zpos d1) * inject_Z (Zpos d2))%Q).
    { apply Qmult_lt_0_compat; assumption. }
    apply Qle_trans
      with (inject_Z (Zpos n1) * pow2 (e1 - E1) * inject_Z (Zpos d2)
            * (inject_Z den1 * inject_Z den2))%Q.
    { apply Qeq_le.
      setoid_replace (inject_Z num1 * inject_Z den2
                      * (inject_Z (Zpos d1) * inject_Z (Zpos d2)))%Q
        with ((inject_Z num1 * inject_Z (Zpos d1))
              * (inject_Z den2 * inject_Z (Zpos d2)))%Q by ring.
      rewrite A1. ring. }
    apply Qle_trans
      with (inject_Z (Zpos n2) * pow2 (e2 - E1) * inject_Z (Zpos d1)
            * (inject_Z den1 * inject_Z den2))%Q.
    { apply Qmult_le_compat_r; [exact H'|].
      apply Qlt_le_weak, Qmult_lt_0_compat; assumption. }
    apply Qeq_le.
    setoid_replace (inject_Z num2 * inject_Z den1
                    * (inject_Z (Zpos d1) * inject_Z (Zpos d2)))%Q
      with ((inject_Z num2 * inject_Z (Zpos d2))
            * (inject_Z den1 * inject_Z (Zpos d1)))%Q by ring.
    rewrite A2. ring.
  - (* the exponent shrinks: both values are one power of two *)
    assert (EE : E1 = L1 + e1 - 52) by (apply Z1; lia).
    assert (Hi : (inject_Z (Zpos n2) * pow2 e2
                  <= pow2 (L1 + e1) * inject_Z (Zpos d2))%Q).
    { eapply Qle_trans; [exact Up2|].
      apply Qmult_le_compat_r; [|apply Qlt_le_weak, D2].
      apply pow2_le. lia. }
    assert (M1 : rounded_mantissa n1 d1 e1 <= 2 ^ 52 * 2 ^ (E1 - E1)).
    { apply mantissa_upper; [lia|]. fold E1.
      apply Qmult_le_cancel_r with (z := inject_Z (Zpos d2)); [exact D2|].
      eapply Qle_trans; [exact H|].
      apply Qle_trans
        with (pow2 (L1 + e1) * inject_Z (Zpos d2) * inject_Z (Zpos d1))%Q.
      { apply Qmult_le_compat_r; [exact Hi | apply Qlt_le_weak, D1]. }
      rewrite <- pow2_Z, <- pow2_add by lia.
      replace (52 + E1) with (L1 + e1) by lia. apply Qeq_le. ring. }
    assert (M2 : 2 ^ 52 * 2 ^ (E1 - E2) <= rounded_mantissa n2 d2 e2).
    { apply mantissa_lower; [fold E2; lia|].
      apply Qmult_le_cancel_r with (z := inject_Z (Zpos d1)); [exact D1|].
      eapply Qle_trans; [|exact H].
      apply Qle_trans
        with (pow2 (L1 + e1) * inject_Z (Zpos d1) * inject_Z (Zpos d2))%Q.
      { rewrite <- pow2_Z, <- pow2_add by lia.
        replace (52 + E1) with (L1 + e1) by lia. apply Qeq_le. ring. }
      apply Qmult_le_compat_r; [exact Lo1 | apply Qlt_le_weak, D2]. }
    apply Qle_trans with (inject_Z (2 ^ 52 * 2 ^ (E1 - E1)) * pow2 E1)%Q.
    { apply Qmult_le_compat_r; [now rewrite <- Zle_Qle|].
      apply Qlt_le_weak, pow2_pos. }
    apply Qle_trans with (inject_Z (2 ^ 52 * 2 ^ (E1 - E2)) * pow2 E2)%Q.
    2:{ apply Qmult_le_compat_r; [now rewrite <- Zle_Qle|].
        apply Qlt_le_weak, pow2_pos. }
    rewrite !Scale by lia. apply Qle_refl.
Qed.

Lemma log2_scaled_le (p1 p2 : positive) (E1 E2 : Z) :
  (inject_Z (Zpos p1) * pow2 E1 <= inject_Z (Zpos p2) * pow2 E2)%Q ->
  Z.log2 (Zpos p1) + E1 <= Z.log2 (Zpos p2) + E2.
Proof.
  intros H.
  pose proof (Z.log2_spec (Zpos p1) ltac:(lia)) as [A _].
  pose proof (Z.log2_spec (Zpos p2) ltac:(lia)) as [_ B].
  pose proof (Z.log2_nonneg (Zpos p1)) as N1.
  pose proof (Z.log2_nonneg (Zpos p2)) as N2.
  assert (S : Z.log2 (Zpos p1) + E1 < Z.log2 (Zpos p2) + 1 + E2); [|lia].
  apply pow2_lt_inv. rewrite !pow2_add.
  apply Qle_lt_trans with (inject_Z (Zpos p1) * pow2 E1)%Q.
  { apply Qmult_le_compat_r; [|apply Qlt_le_weak, pow2_pos].
    rewrite pow2_Z by lia. now rewrite <- Zle_Qle. }
  eapply Qle_lt_trans; [exact H|].
  apply Qmult_lt_compat_r; [apply pow2_pos|].
  rewrite <- pow2_add, pow2_Z by lia. rewrite <- Zlt_Qlt.
  replace (Z.log2 (Zpos p2) + 1) with (Z.succ (Z.log2 (Zpos p2))) by lia.
  exact B.
Qed.

Lemma le_Fin_Fin (m1 m2 : positive) (e1 e2 : Z) :
  le (Fin false m1 e1) (Fin false m2 e2) = true
  <-> (F2Q false m1 e1 <= F2Q false m2 e2)%Q.
Proof.
  unfold le. cbn [compare to_Q]. rewrite Qle_alt.
  destruct (F2Q false m1 e1 ?= F2Q false m2 e2)%Q; split; congruence.
Qed.

Lemma le_Zero_nonneg (x : number) : nonneg x -> le (Zero false) x = true.
Proof.
  destruct x as [|[]|[]|[] m e]; cbn [nonneg]; try contradiction;
    intros _; try reflexivity.
  unfold le. cbn [compare to_Q].
  now rewrite (proj1 (Qlt_alt _ _) (F2Q_pos m e)).
Qed.

Lemma le_Inf (x : number) : nonneg x -> le x (Inf false) = true.
Proof.
  destruct x as [|[]|[]|[] m e]; cbn [nonneg]; try contradiction; reflexivity.
Qed.

(** Rounding to binary64 keeps the order. *)
Lemma round_ratio_mono (n1 d1 n2 d2 : positive) (e1 e2 : Z) :
  (inject_Z (Zpos n1) * pow2 e1 * inject_Z (Zpos d2)
   <= inject_Z (Zpos n2) * pow2 e2 * inject_Z (Zpos d1))%Q ->
  le (round_ratio false n1 d1 e1) (round_ratio false n2 d2 e2) = true.
Proof.
  intros H. pose proof (rounded_value_mono _ _ _ _ _ _ H) as V.
  pose proof (mantissa_nonneg n2 d2 e2) as N2.
  pose proof (round_ratio_nonneg n2 d2 e2) as R2.
  rewrite (round_ratio_unfold false n1 d1 e1).
  destruct (rounded_mantissa n1 d1 e1) as [|p1|p1] eqn:M1;
    [now apply le_Zero_nonneg | | now apply le_Zero_nonneg].
  rewrite (round_ratio_unfold false n2 d2 e2) in *.
  set (E1 := rounding_exponent n1 d1 e1) in *.
  set (E2 := rounding_exponent n2 d2 e2) in *.
  destruct (rounded_mantissa n2 d2 e2) as [|p2|p2] eqn:M2; [|clear N2|lia].
  { exfalso. change (inject_Z 0) with 0%Q in V. rewrite Qmult_0_l in V.
    apply (Qlt_irrefl 0). eapply Qlt_le_trans; [|exact V].
    apply Qmult_lt_0_compat; [apply inject_pos | apply pow2_pos]. }
  pose proof (log2_scaled_le p1 p2 E1 E2 V) as Lg.
  destruct (emax <=? Z.log2 (Zpos p1) + E1) eqn:O1.
  - apply Z.leb_le in O1.
    assert (O2 : (emax <=? Z.log2 (Zpos p2) + E2) = true)
      by (apply Z.leb_le; lia).
    rewrite O2. reflexivity.
  - destruct (emax <=? Z.log2 (Zpos p2) + E2).
    + destruct (mkFin_shape false p1 E1) as (m1 & x1 & -> & _). reflexivity.
    + destruct (mkFin_shape false p1 E1) as (m1 & x1 & -> & V1).
      destruct (mkFin_shape false p2 E2) as (m2 & x2 & -> & V2).
      apply le_Fin_Fin. rewrite V1, V2. exact V.
Qed.

Lemma le_Fin_inv (m1 : positive) (e1 : Z) (y : number) :
  nonneg y -> le (Fin false m1 e1) y = true ->
  y = Inf false
  \/ exists m2 e2, y = Fin false m2 e2
                   /\ (F2Q false m1 e1 <= F2Q false m2 e2)%Q.
Proof.
  destruct y as [|[]|[]|[] m2 e2]; cbn [nonneg]; try contradiction;
    intros _ H.
  - now left.
  - exfalso. unfold le in H. cbn [compare to_Q] in H.
    pose proof (F2Q_pos m1 e1) as P. apply Qgt_alt in P.
    now rewrite P in H.
  - right. exists m2, e2. split; [reflexivity | now apply le_Fin_Fin].
Qed.

Lemma le_Inf_inv (y : number) :
  nonneg y -> le (Inf false) y = true -> y = Inf false.
Proof.
  destruct y as [|[]|[]|[] m2 e2]; cbn [nonneg]; try contradiction;
    intros _ H; [reflexivity | discriminate H | discriminate H].
Qed.

(** Division by a positive finite Number keeps the order. *)
Lemma div_mono (t1 t2 : number) (m : positive) (e : Z) :
  nonneg t1 -> nonneg t2 -> le t1 t2 = true ->
  le (div t1 (Fin false m e)) (div t2 (Fin false m e)) = true.
Proof.
  intros N1 N2 H.
  pose proof (div_nonneg t2 m e N2) as R2.
  destruct t1 as [|[]|[]|[] m1 e1]; cbn [nonneg] in N1; try contradiction.
  - apply le_Inf_inv in H; [subst t2; reflexivity | exact N2].
  - now apply le_Zero_nonneg.
  - destruct (le_Fin_inv m1 e1 t2 N2 H) as [->|(m2 & e2 & -> & V)];
      [apply le_Inf, (div_nonneg (Fin false m1 e1)); exact I|].
    cbn [div xorb]. apply round_ratio_mono.
    unfold F2Q in V. apply (shift_le _ _ (- e)) in V.
    apply Qle_trans
      with (inject_Z (Zpos m1) * pow2 e1 * pow2 (- e) * inject_Z (Zpos m))%Q.
    { apply Qeq_le. unfold Z.sub. rewrite pow2_add. ring. }
    apply Qle_trans
      with (inject_Z (Zpos m2) * pow2 e2 * pow2 (- e) * inject_Z (Zpos m))%Q.
    { apply Qmult_le_compat_r; [exact V | apply Qlt_le_weak, inject_pos]. }
    apply Qeq_le. unfold Z.sub. rewrite pow2_add. ring.
Qed.

(** Multiplication by a positive finite Number keeps the order. *)
Lemma mul_mono (q1 q2 : number) (m : positive) (e : Z) :
  nonneg q1 -> nonneg q2 -> le q1 q2 = true ->
  le (mul q1 (Fin false m e)) (mul q2 (Fin false m e)) = true.
Proof.
  intros N1 N2 H.
  pose proof (mul_nonneg q2 m e N2) as R2.
  destruct q1 as [|[]|[]|[] m1 e1]; cbn [nonneg] in N1; try contradiction.
  - apply le_Inf_inv in H; [subst q2; reflexivity | exact N2].
  - now apply le_Zero_nonneg.
  - destruct (le_Fin_inv m1 e1 q2 N2 H) as [->|(m2 & e2 & -> & V)];
      [apply le_Inf, (mul_nonneg (Fin false m1 e1)); exact I|].
    cbn [mul xorb]. unfold round_dyadic. apply round_ratio_mono.
    unfold F2Q in V. apply (shift_le _ _ e) in V.
    change (inject_Z 1) with 1%Q. rewrite !Qmult_1_r.
    rewrite !Pos2Z.inj_mul, !inject_Z_mult, !pow2_add.
    apply Qle_trans
      with (inject_Z (Zpos m1) * pow2 e1 * pow2 e * inject_Z (Zpos m))%Q.
    { apply Qeq_le. ring. }
    apply Qle_trans
      with (inject_Z (Zpos m2) * pow2 e2 * pow2 e * inject_Z (Zpos m))%Q.
    { apply Qmult_le_compat_r; [exact V | apply Qlt_le_weak, inject_pos]. }
    apply Qeq_le. ring.
Qed.

Lemma int_le_of_Z (a b : Z) : a <= b -> int_le (of_Z a) (of_Z b).
Proof. intros H. exists a, b. auto. Qed.

(** [Math.floor] and the clamp to [0, 100] keep the order. *)
Lemma floor_clamp_mono (x y : number) :
  nonneg x -> nonneg y -> le x y = true ->
  int_le (Math_max (of_Z 0) (Math_min (of_Z 100) (Math_floor x)))
         (Math_max (of_Z 0) (Math_min (of_Z 100) (Math_floor y))).
Proof.
  intros Nx Ny H.
  assert (I : Math_max (of_Z 0) (Math_min (of_Z 100) (Inf false)) = of_Z 100)
    by reflexivity.
  assert (Z0 : Math_max (of_Z 0) (Math_min (of_Z 100) (Math_floor (Zero false)))
               = of_Z 0) by reflexivity.
  assert (F : forall m e,
             Math_max (of_Z 0) (Math_min (of_Z 100) (Math_floor (Fin false m e)))
             = of_Z (Z.max 0 (Z.min 100 (Qfloor (F2Q false m e))))).
  { intros m e. rewrite Math_floor_Fin. apply clamp_of_Z. }
  assert (P : forall m e, 0 <= Qfloor (F2Q false m e)).
  { intros m e. change 0 with (Qfloor 0). apply Qfloor_resp_le.
    apply Qlt_le_weak, F2Q_pos. }
  destruct x as [|[]|[]|[] m1 e1]; cbn [nonneg] in Nx; try contradiction.
  - apply le_Inf_inv in H; [subst y | exact Ny].
    cbn [Math_floor]. rewrite I. now apply int_le_of_Z.
  - rewrite Z0.
    destruct y as [|[]|[]|[] m2 e2]; cbn [nonneg] in Ny; try contradiction.
    + cbn [Math_floor]. rewrite I. apply int_le_of_Z. lia.
    + rewrite Z0. now apply int_le_of_Z.
    + rewrite F. apply int_le_of_Z. specialize (P m2 e2). lia.
  - rewrite F.
    destruct (le_Fin_inv m1 e1 y Ny H) as [->|(m2 & e2 & -> & V)].
    + cbn [Math_floor]. rewrite I. apply int_le_of_Z. lia.
    + rewrite F. apply int_le_of_Z.
      pose proof (Qfloor_resp_le _ _ V). lia.
Qed.

(** [percent] is monotone in the elapsed time. *)
Lemma percent_mono (t1 t2 dur : number) :
  nonneg t1 -> nonneg t2 -> le t1 t2 = true ->
  gt dur (of_Z 0) = true -> isFinite dur = true ->
  int_le (percent t1 dur) (percent t2 dur).
Proof.
  intros N1 N2 H D Hfin.
  destruct (positive_finite dur D Hfin) as (m & e & ->).
  unfold percent. apply floor_clamp_mono.
  - apply (mul_nonneg _ 25 2), div_nonneg, N1.
  - apply (mul_nonneg _ 25 2), div_nonneg, N2.
  - apply (mul_mono _ _ 25 2); try (apply div_nonneg; assumption).
    now apply div_mono.
Qed.

(** X12.  A later elapsed time never gives a smaller percentage: for a
    positive finite duration, the value
    [Math.max(0, Math.min(100, Math.floor((t / dur) * 100)))] is
    monotone in [t], the rounding of the division and of the
    multiplication included. *)
Theorem percent_monotone (t1 t2 dur : number) :
  nonneg t1 -> nonneg t2 -> le t1 t2 = true ->
  gt dur (of_Z 0) = true -> isFinite dur = true ->
  exists a b : Z,
    percent t1 dur = of_Z a /\ percent t2 dur = of_Z b /\ a <= b.
Proof.
  intros N1 N2 H D Hfin.
  destruct (positive_finite dur D Hfin) as (m & e & ->).
  pose proof (div_nonneg t1 m e N1) as Q1.
  pose proof (div_nonneg t2 m e N2) as Q2.
  pose proof (div_mono t1 t2 m e N1 N2 H) as Hq.
  pose proof (mul_mono _ _ 25 2 Q1 Q2 Hq) as Hp.
  exact (floor_clamp_mono _ _ (mul_nonneg _ 25 2 Q1) (mul_nonneg _ 25 2 Q2) Hp).
Qed.

Lemma percent_monotone_witness :
  exists a b : Z,
    percent (parseFloat "5.29") (of_Z 20) = of_Z a
    /\ percent (parseFloat "5.3") (of_Z 20) = of_Z b /\ a <= b.
Proof.
  apply percent_monotone; vm_compute; (reflexivity || exact I).
Defined.

(** ** Progress over a whole run *)

Lemma computed_of_times (dur : number) (chunks : list string) :
  gt dur (of_Z 0) = true ->
  computed dur chunks = map (fun t => percent t dur) (elapsed_times chunks).
Proof.
  intros D. induction chunks as [|buf rest IH];
    cbn [computed elapsed_times map]; [reflexivity|].
  unfold chunk_percent. rewrite D.
  destruct (match_time buf) as [g|]; cbn [map]; now rewrite IH.
Qed.

Lemma elapsed_times_nonneg (chunks : list string) :
  Forall numeric_marker chunks -> Forall nonneg (elapsed_times chunks).
Proof.
  induction 1 as [|buf rest Hb _ IH]; cbn [elapsed_times]; [constructor|].
  unfold numeric_marker in Hb.
  destruct (match_time buf) as [[[h m] sec]|] eqn:M; [|exact IH].
  constructor; [|exact IH].
  apply (elapsed_nonneg buf (h, m, sec) M). exact Hb.
Qed.

Lemma chain_percent (dur : number) (ts : list number) :
  gt dur (of_Z 0) = true -> isFinite dur = true ->
  Forall nonneg ts ->
  chain (fun a b => le a b = true) ts ->
  chain int_le (map (fun t => percent t dur) ts).
Proof.
  intros D Hfin N. induction N as [|a rest Na Nr IH]; [exact (fun _ => I)|].
  destruct Nr as [|b rest Nb Nr]; [exact (fun _ => I)|].
  intros [Hab C]. cbn [map]. split.
  - now apply percent_mono.
  - apply IH, C.
Qed.

(** A strictly increasing run of percentages has at most 101 terms. *)
Lemma increasing_percentages_length (l : list number) :
  Forall is_percentage l -> chain int_lt l ->
  match l with
  | [] => True
  | v :: _ => exists n, v = of_Z n /\ Z.of_nat (List.length l) <= 101 - n
  end.
Proof.
  induction 1 as [|v rest (n & -> & R) Pr IH]; [exact (fun _ => I)|].
  intros C. exists n. split; [reflexivity|].
  destruct rest as [|w rest].
  - cbn [List.length]. lia.
  - destruct C as [(a & b & Ea & Eb & Lt) C].
    destruct (IH C) as (k & Ek & Len).
    apply of_Z_inj in Ea. rewrite Ek in Eb. apply of_Z_inj in Eb.
    subst a b. change (List.length (of_Z n :: w :: rest))
      with (S (List.length (w :: rest))).
    lia.
Qed.

(** X13.  When the elapsed times of the markers the encoder prints
    never go back (and their seconds fields are numbers), the values of
    the progress lines of the response are integers in [0,100] that
    strictly increase: no value is written twice, and there are at most
    101 progress lines. *)
Theorem progress_increases_with_time (req : Request) (f : UploadedFile)
  (env : Env) (fs : list string) (dur : number) :
  file req = Some f -> mkdir_throws env = false ->
  probeDuration (probe_events env) = Some dur ->
  let chunks := stderr_chunks (before_terminal (ffmpeg_events env)) in
  Forall numeric_marker chunks ->
  chain (fun a b => le a b = true) (elapsed_times chunks) ->
  exists vs,
    filter is_progress_line (body (res (upload req env fs)))
    = map progress_line vs
    /\ Forall is_percentage vs /\ chain int_lt vs
    /\ (List.length vs <= 101)%nat.
Proof.
  intros Hf Hm Hp chunks Nm Ct.
  pose proof (upload_progress_lines req f env fs dur Hf Hm Hp) as Pl.
  destruct (spawn_throws (ffmpeg_args req f env)).
  { exists []. split; [exact Pl|].
    repeat split; [constructor | cbn; lia]. }
  exists (signaled dur chunks).
  split; [exact Pl|].
  pose proof (probeDuration_finite _ _ Hp) as Hfin.
  destruct (gt dur (of_Z 0)) eqn:D.
  - destruct (signaled_props dur chunks Hfin Nm) as (P & _ & Inc).
    assert (C : chain int_lt (signaled dur chunks)).
    { apply Inc. rewrite computed_of_times by exact D.
      apply chain_percent; try assumption.
      now apply elapsed_times_nonneg. }
    split; [exact P|]. split; [exact C|].
    pose proof (increasing_percentages_length _ P C) as L.
    destruct (signaled dur chunks) as [|v rest]; [cbn; lia|].
    destruct L as (n & E & L).
    assert (R : 0 <= n).
    { apply Forall_inv in P. destruct P as (k & Ek & Rk).
      rewrite E in Ek. apply of_Z_inj in Ek. lia. }
    lia.
  - unfold signaled. rewrite signaled_from_unknown by exact D.
    repeat split; [constructor | cbn; lia].
Qed.

Lemma progress_increases_with_time_witness :
  exists vs,
    filter is_progress_line
      (body (res (upload Examples.plain_request Examples.good_run
                    Examples.disk)))
    = map progress_line vs
    /\ Forall is_percentage vs /\ chain int_lt vs
    /\ (List.length vs <= 101)%nat.
Proof.
  apply (progress_increases_with_time Examples.plain_request Examples.clip
           Examples.good_run Examples.disk (of_Z 20));
    try reflexivity.
  - repeat constructor; discriminate.
  - vm_compute. auto.
Defined.

(** ** When the percentage reaches 100 *)

Lemma binary64_mul (x y : number) : binary64 (mul x y).
Proof.
  destruct x as [|a|a|a m1 e1], y as [|b|b|b m2 e2]; cbn [mul];
    try exact I; try (destruct a; exact I); try (destruct b; exact I).
  apply round_ratio_binary64.
Qed.

Lemma binary64_add (x y : number) :
  binary64 x -> binary64 y -> binary64 (add x y).
Proof.
  intros Bx By.
  destruct x as [|a|a|a m1 e1], y as [|b|b|b m2 e2]; cbn [add];
    try exact I; try assumption; try (destruct (Bool.eqb a b); exact I).
  destruct (_ + _) as [|p|p]; [exact I | |]; apply round_ratio_binary64.
Qed.

Lemma binary64_decimal (neg : bool) (d ex : Z) :
  binary64 (decimal_to_number neg d ex).
Proof.
  unfold decimal_to_number. destruct d as [|p|p]; try exact I.
  destruct (0 <=? ex); apply round_ratio_binary64.
Qed.

Lemma binary64_parseFloat (s : string) : binary64 (parseFloat s).
Proof.
  unfold parseFloat.
  destruct (split_sign (trim_start s)) as [neg r].
  destruct (starts_with "Infinity" r); [exact I|].
  destruct (span is_digit r) as [ip r1].
  destruct r1 as [|c r2].
  - destruct ip; [exact I | apply binary64_decimal].
  - destruct (Ascii.eqb_spec c ".") as [->|Nc].
    + destruct (span is_digit r2) as [fp r3].
      destruct ip, fp; try exact I; apply binary64_decimal.
    + assert (G : binary64
                    match ip with
                    | "" => NaN
                    | String _ _ =>
                        decimal_to_number neg (digits_value 0 ip)
                          (exponent_part (String c r2))
                    end)
        by (destruct ip; [exact I | apply binary64_decimal]).
      destruct c as [[] [] [] [] [] [] [] []]; try exact G.
      now contradiction Nc.
Qed.

Lemma binary64_parseInt (s : string) : binary64 (parseInt s).
Proof.
  unfold parseInt.
  destruct (split_sign (trim_start s)) as [neg r].
  destruct (span is_digit r) as [ds rest].
  destruct ds; [exact I|].
  unfold int_to_number.
  destruct (digits_value 0 _); try exact I. apply round_ratio_binary64.
Qed.

Lemma binary64_elapsed (g : string * string * string) : binary64 (elapsed g).
Proof.
  destruct g as [[h m] sec]. unfold elapsed.
  apply binary64_add; [|apply binary64_parseFloat].
  apply binary64_add; apply binary64_mul.
Qed.

Lemma binary64_probeDuration (evs : list ChildEvent) (dur : number) :
  probeDuration evs = Some dur -> binary64 dur.
Proof.
  unfold probeDuration. rewrite probe_run_spec.
  destruct (first_terminal evs) as [[| |code|]|]; try discriminate;
    intros E; injection E as <-; try exact I;
    destruct (isFinite _); (apply binary64_parseFloat || exact I).
Qed.

Lemma round_half_even_below_half (num den z : Z) :
  0 < den -> 2 * num < (2 * z + 1) * den ->
  round_half_even (num / den) (num mod den) den <= z.
Proof.
  intros Hd H.
  pose proof (Z.div_mod num den ltac:(lia)) as E.
  pose proof (Z.mod_pos_bound num den Hd) as B.
  set (q := num / den) in *. set (r := num mod den) in *.
  assert (Q : q <= z).
  { destruct (Z_le_gt_dec q z) as [|G]; [assumption|exfalso].
    assert (A : den * (z + 1) <= den * q)
      by (apply Z.mul_le_mono_nonneg_l; lia).
    lia. }
  unfold round_half_even.
  destruct (Z.eq_dec q z) as [->|Nq].
  - assert (R : 2 * r < den) by lia.
    destruct (Z.compare_spec (2 * r) den); lia.
  - destruct (Z.compare_spec (2 * r) den); try destruct (Z.even q); lia.
Qed.

Lemma scaled_value (c k E : Z) :
  E <= k -> (inject_Z (c * 2 ^ (k - E)) * pow2 E == inject_Z c * pow2 k)%Q.
Proof.
  intros HE. rewrite inject_Z_mult, <- pow2_Z by lia.
  rewrite <- Qmult_assoc, <- pow2_add.
  replace (k - E + E) with k by ring. reflexivity.
Qed.

Lemma pow2_53 : (pow2 53 == inject_Z (2 ^ 53))%Q.
Proof. apply pow2_Z. lia. Qed.

(** The quotient of two binary64 values, the smaller by the larger,
    is at most the binary64 value just below 1. *)
Lemma quotient_below_1 (m1 m2 : positive) (e1 e2 : Z) :
  Zpos m1 < 2 ^ 53 -> Zpos m2 < 2 ^ 53 ->
  (F2Q false m1 e1 < F2Q false m2 e2)%Q ->
  (inject_Z (Zpos m1) * pow2 (e1 - e2)
   <= inject_Z (2 ^ 53 - 1) * pow2 (- 53) * inject_Z (Zpos m2))%Q.
Proof.
  intros B1 B2 H. unfold F2Q in H.
  assert (Hx : (inject_Z (Zpos m1) * pow2 (e1 - e2) < inject_Z (Zpos m2))%Q).
  { apply (Qmult_lt_compat_r _ _ (pow2 (- e2)) (pow2_pos _)) in H.
    rewrite <- !Qmult_assoc, pow2_cancel, Qmult_1_r, <- pow2_add in H.
    exact H. }
  set (k := e1 - e2) in *.
  apply Qmult_le_cancel_r with (z := pow2 53); [apply pow2_pos|].
  assert (R : (inject_Z (2 ^ 53 - 1) * pow2 (- 53) * inject_Z (Zpos m2)
               * pow2 53 == inject_Z ((2 ^ 53 - 1) * Zpos m2))%Q).
  { rewrite inject_Z_mult.
    setoid_replace (inject_Z (2 ^ 53 - 1) * pow2 (- 53) * inject_Z (Zpos m2)
                    * pow2 53)%Q
      with (inject_Z (2 ^ 53 - 1) * inject_Z (Zpos m2)
            * (pow2 53 * pow2 (- 53)))%Q by ring.
    rewrite pow2_cancel. ring. }
  rewrite R. rewrite pow2_53.
  destruct (Z_le_gt_dec 0 k) as [Pk|Nk].
  - rewrite pow2_Z in * by exact Pk.
    rewrite <- inject_Z_mult, <- Zlt_Qlt in Hx.
    rewrite <- !inject_Z_mult, <- Zle_Qle.
    change (2 ^ 53) with 9007199254740992 in *. lia.
  - assert (Hd : Zpos m1 < Zpos m2 * 2 ^ (- k)).
    { apply (Qmult_lt_compat_r _ _ (pow2 (- k)) (pow2_pos _)) in Hx.
      rewrite <- Qmult_assoc, pow2_cancel, Qmult_1_r in Hx.
      rewrite pow2_Z in Hx by lia.
      now rewrite <- inject_Z_mult, <- Zlt_Qlt in Hx. }
    apply Qmult_le_cancel_r with (z := pow2 (- k)); [apply pow2_pos|].
    setoid_replace (inject_Z (Zpos m1) * pow2 k * inject_Z (2 ^ 53) * pow2 (- k))%Q
      with (inject_Z (Zpos m1) * inject_Z (2 ^ 53) * (pow2 k * pow2 (- k)))%Q
      by ring.
    rewrite pow2_cancel, Qmult_1_r.
    rewrite pow2_Z by lia.
    rewrite <- !inject_Z_mult, <- Zle_Qle.
    change (2 ^ 53) with 9007199254740992 in *.
    set (D := Zpos m2 * 2 ^ (- k)) in *.
    replace (9007199254740991 * Zpos m2 * 2 ^ (- k))
      with (9007199254740991 * D) by (unfold D; ring).
    lia.
Qed.

Lemma exponent_sum_bound (n d : positive) (e k : Z) :
  (inject_Z (Zpos n) * pow2 e < pow2 k * inject_Z (Zpos d))%Q ->
  log2_ratio n d + e < k.
Proof.
  intros H. apply pow2_lt_inv.
  apply Qmult_lt_r with (z := inject_Z (Zpos d)); [apply inject_pos|].
  eapply Qle_lt_trans; [apply value_lower | exact H].
Qed.

(** A rounded mantissa of at most [c * 2^(k - E)], with [c] below
    [2^53] and [k] small, gives a finite value of at most [c * 2^k]. *)
Lemma round_ratio_upper (n d : positive) (e c k : Z) :
  0 < c < 2 ^ 53 -> k + 53 < emax ->
  rounding_exponent n d e <= k ->
  rounded_mantissa n d e <= c * 2 ^ (k - rounding_exponent n d e) ->
  round_ratio false n d e = Zero false
  \/ exists m' e', round_ratio false n d e = Fin false m' e'
                   /\ (F2Q false m' e' <= inject_Z c * pow2 k)%Q.
Proof.
  intros Hc Hk HE HM. rewrite round_ratio_unfold.
  pose proof (mantissa_nonneg n d e) as N.
  set (E := rounding_exponent n d e) in *.
  destruct (rounded_mantissa n d e) as [|p|p]; [now left | right | lia].
  assert (P : 0 < 2 ^ (k - E)) by (apply Z.pow_pos_nonneg; lia).
  assert (Lg : Z.log2 (Zpos p) < 53 + (k - E)).
  { apply Z.log2_lt_pow2; [lia|]. rewrite Z.pow_add_r by lia. nia. }
  destruct (emax <=? Z.log2 (Zpos p) + E) eqn:O.
  { apply Z.leb_le in O. lia. }
  destruct (mkFin_shape false p E) as (m' & e' & -> & V).
  exists m', e'. split; [reflexivity|]. rewrite V. unfold F2Q.
  rewrite <- (scaled_value c k E HE).
  apply Qmult_le_compat_r; [now rewrite <- Zle_Qle|].
  apply Qlt_le_weak, pow2_pos.
Qed.

(** Dividing a binary64 value by a larger one gives less than 1. *)
Lemma div_below_1 (m1 m2 : positive) (e1 e2 : Z) :
  Zpos m1 < 2 ^ 53 -> Zpos m2 < 2 ^ 53 ->
  (F2Q false m1 e1 < F2Q false m2 e2)%Q ->
  div (Fin false m1 e1) (Fin false m2 e2) = Zero false
  \/ exists m e, div (Fin false m1 e1) (Fin false m2 e2) = Fin false m e
                 /\ (F2Q false m e <= inject_Z (2 ^ 53 - 1) * pow2 (- 53))%Q.
Proof.
  intros B1 B2 H. cbn [div xorb].
  pose proof (quotient_below_1 m1 m2 e1 e2 B1 B2 H) as K.
  assert (S : log2_ratio m1 m2 + (e1 - e2) < 0).
  { apply exponent_sum_bound. change (pow2 0) with 1%Q. rewrite Qmult_1_l.
    unfold F2Q in H.
    apply (Qmult_lt_compat_r _ _ (pow2 (- e2)) (pow2_pos _)) in H.
    rewrite <- !Qmult_assoc, pow2_cancel, Qmult_1_r, <- pow2_add in H.
    exact H. }
  assert (HE : rounding_exponent m1 m2 (e1 - e2) <= - 53)
    by (unfold rounding_exponent, emin, prec; lia).
  apply (round_ratio_upper m1 m2 (e1 - e2) (2 ^ 53 - 1) (- 53));
    [lia | unfold emax; lia | exact HE |].
  apply mantissa_upper; [exact HE | exact K].
Qed.

(** Multiplying a value below 1 by 100 gives less than 100. *)
Lemma mul_100_below (m : positive) (e : Z) :
  (F2Q false m e <= inject_Z (2 ^ 53 - 1) * pow2 (- 53))%Q ->
  mul (Fin false m e) (of_Z 100) = Zero false
  \/ exists m' e', mul (Fin false m e) (of_Z 100) = Fin false m' e'
                   /\ (F2Q false m' e' < 100)%Q.
Proof.
  intros H. change (of_Z 100) with (Fin false 25 2).
  cbn [mul xorb]. unfold round_dyadic.
  set (n := (m * 25)%positive). set (e' := e + 2).
  assert (X : (inject_Z (Zpos n) * pow2 e'
               <= 100 * (inject_Z (2 ^ 53 - 1) * pow2 (- 53)))%Q).
  { unfold n, e'. rewrite Pos2Z.inj_mul, inject_Z_mult, pow2_add.
    change (pow2 2) with 4%Q. change (inject_Z 25) with 25%Q.
    unfold F2Q in H.
    apply Qle_trans with (100 * (inject_Z (Zpos m) * pow2 e))%Q;
      [apply Qeq_le; ring|].
    apply Qmult_le_l; [reflexivity | exact H]. }
  assert (S : log2_ratio n 1 + e' < 7).
  { apply exponent_sum_bound. eapply Qle_lt_trans; [exact X|]. reflexivity. }
  pose proof (exponent_cases n 1 e') as (X1 & Y1 & Z1).
  set (E := rounding_exponent n 1 e') in *.
  assert (F : round_ratio false n 1 e' = Zero false
              \/ exists m' e'', round_ratio false n 1 e' = Fin false m' e''
                   /\ (F2Q false m' e''
                       <= inject_Z (100 * 2 ^ 46 - 1) * pow2 (- 46))%Q).
  { destruct (Z_le_gt_dec E (- 47)) as [Small|Big].
    - (* below 64 *)
      destruct (round_ratio_upper n 1 e' 1 (E + 53)) as [Z|(m' & e'' & R & V)];
        [lia | unfold emax; lia | fold E; lia | | now left |].
      + fold E. apply mantissa_upper; [fold E; lia|].
        eapply Qle_trans; [apply value_upper|].
        apply Qmult_le_compat_r; [|apply Qlt_le_weak, inject_pos].
        change (inject_Z 1) with 1%Q. rewrite Qmult_1_l.
        apply pow2_le. lia.
      + right. exists m', e''. split; [exact R|].
        eapply Qle_trans; [exact V|].
        change (inject_Z 1) with 1%Q. rewrite Qmult_1_l.
        apply Qle_trans with (pow2 6); [apply pow2_le; lia|].
        apply Qlt_le_weak. reflexivity.
    - (* between 64 and 100 *)
      assert (EE : E = - 46) by (unfold emin in *; lia).
      apply (round_ratio_upper n 1 e' (100 * 2 ^ 46 - 1) (- 46));
        [lia | unfold emax; lia | fold E; lia |].
      fold E. rewrite EE. change (2 ^ (- 46 - - 46)) with 1.
      rewrite Z.mul_1_r.
      unfold rounded_mantissa. fold E. rewrite EE.
      destruct (operands_ratio n 1 e' (- 46)) as (Dp & R).
      cbv zeta in *.
      set (num := if 0 <=? e' - - 46 then Zpos n * 2 ^ (e' - - 46) else Zpos n)
        in *.
      set (den := if 0 <=? e' - - 46 then 1 else 1 * 2 ^ (- (e' - - 46)))
        in *.
      apply round_half_even_below_half; [exact Dp|].
      rewrite Zlt_Qlt, !inject_Z_mult.
      change (inject_Z 1) with 1%Q in R. rewrite Qmult_1_r in R.
      rewrite R.
      assert (Dq : (0 < inject_Z den)%Q) by now rewrite <- (Zlt_Qlt 0).
      setoid_replace (inject_Z 2 * (inject_Z (Zpos n) * pow2 (e' - - 46)
                                    * inject_Z den))%Q
        with (inject_Z 2 * (inject_Z (Zpos n) * pow2 (e' - - 46))
              * inject_Z den)%Q by ring.
      apply Qmult_lt_compat_r; [exact Dq|].
      apply Qle_lt_trans
        with (2 * (100 * (inject_Z (2 ^ 53 - 1) * pow2 (- 53)) * pow2 46))%Q.
      + unfold Z.sub. rewrite pow2_add. change (- - 46) with 46.
        change (inject_Z 2) with 2%Q.
        apply Qmult_le_l; [reflexivity|].
        rewrite Qmult_assoc.
        apply Qmult_le_compat_r; [exact X | apply Qlt_le_weak, pow2_pos].
      + reflexivity. }
  destruct F as [Z|(m' & e'' & R & V)]; [now left | right].
  exists m', e''. split; [exact R|].
  eapply Qle_lt_trans; [exact V | reflexivity].
Qed.

Lemma binary64_mantissa (neg : bool) (m : positive) (e : Z) :
  binary64 (Fin neg m e) -> Zpos m < 2 ^ 53.
Proof. intros (H & _). exact H. Qed.

(** Before the duration is reached the percentage is at most 99. *)
Lemma percent_below_duration (t : number) (m2 : positive) (e2 : Z) :
  nonneg t -> binary64 t -> binary64 (Fin false m2 e2) ->
  le (Fin false m2 e2) t = false ->
  exists k, percent t (Fin false m2 e2) = of_Z k /\ 0 <= k <= 99.
Proof.
  intros N Bt Bd H.
  destruct t as [|[]|[]|[] m1 e1]; cbn [nonneg] in N; try contradiction.
  - discriminate H.
  - exists 0. split; [reflexivity | lia].
  - assert (Lt : (F2Q false m1 e1 < F2Q false m2 e2)%Q).
    { apply Qnot_le_lt. intros C. apply le_Fin_Fin in C. congruence. }
    unfold percent.
    destruct (div_below_1 m1 m2 e1 e2 (binary64_mantissa _ _ _ Bt)
                (binary64_mantissa _ _ _ Bd) Lt) as [->|(m & e & -> & V)].
    { exists 0. split; [reflexivity | lia]. }
    destruct (mul_100_below m e V) as [->|(m' & e' & -> & W)].
    { exists 0. split; [reflexivity | lia]. }
    rewrite Math_floor_Fin, clamp_of_Z.
    exists (Z.max 0 (Z.min 100 (Qfloor (F2Q false m' e')))).
    split; [reflexivity|].
    assert (F : Qfloor (F2Q false m' e') < 100).
    { rewrite Zlt_Qlt. eapply Qle_lt_trans; [apply Qfloor_le | exact W]. }
    lia.
Qed.

(** From the duration on the percentage is 100. *)
Lemma percent_from_duration (t : number) (m2 : positive) (e2 : Z) :
  nonneg t -> le (Fin false m2 e2) t = true ->
  percent t (Fin false m2 e2) = of_Z 100.
Proof.
  intros N H.
  destruct (le_Fin_inv m2 e2 t N H) as [->|(m1 & e1 & -> & V)];
    [reflexivity|].
  unfold percent. cbn [div xorb].
  assert (Q1 : round_ratio false m1 m2 (e1 - e2) = Inf false
               \/ exists m e, round_ratio false m1 m2 (e1 - e2) = Fin false m e
                              /\ (1 <= F2Q false m e)%Q).
  { destruct (round_ratio_ge m1 m2 (e1 - e2) 1 0)
      as [->|(m & e & -> & G)]; [unfold prec; lia | unfold emin; lia | | auto |].
    - change (inject_Z 1 * pow2 0)%Q with 1%Q. rewrite Qmult_1_l.
      unfold F2Q in V. apply (shift_le _ _ (- e2)) in V.
      rewrite <- !Qmult_assoc, pow2_cancel, Qmult_1_r, <- pow2_add in V.
      exact V.
    - right. exists m, e. split; [reflexivity|].
      now change (inject_Z 1 * pow2 0)%Q with 1%Q in G. }
  destruct Q1 as [->|(m & e & -> & G)]; [reflexivity|].
  destruct (mul_100_ge_1 m e G) as [->|(m' & e' & -> & W)]; [reflexivity|].
  rewrite Math_floor_Fin, clamp_of_Z. f_equal.
  assert (F : 100 <= Qfloor (F2Q false m' e')).
  { change 100 with (Qfloor 100). now apply Qfloor_resp_le. }
  lia.
Qed.

(** X14.  The percentage of a chunk is 100 exactly when the elapsed
    time of its marker has reached the probed duration: below the
    duration the value stays at 99 or less, the rounding of the
    division and of the multiplication notwithstanding. *)
Theorem progress_100_iff_duration_reached (probe_evs : list ChildEvent)
  (dur : number) (buf : string) (g : string * string * string) :
  probeDuration probe_evs = Some dur -> gt dur (of_Z 0) = true ->
  match_time buf = Some g ->
  (let '(_, _, sec) := g in parseFloat sec <> NaN) ->
  (chunk_percent dur buf = Some (of_Z 100) <-> le dur (elapsed g) = true)
  /\ (le dur (elapsed g) = false ->
      exists k, chunk_percent dur buf = Some (of_Z k) /\ 0 <= k <= 99).
Proof.
  intros Hp D M Hs.
  pose proof (probeDuration_finite _ _ Hp) as Hfin.
  pose proof (binary64_probeDuration _ _ Hp) as Bd.
  pose proof (elapsed_nonneg buf g M Hs) as N.
  pose proof (binary64_elapsed g) as Bt.
  destruct (positive_finite dur D Hfin) as (m2 & e2 & ->).
  unfold chunk_percent. rewrite M, D.
  assert (Below : le (Fin false m2 e2) (elapsed g) = false ->
                  exists k, percent (elapsed g) (Fin false m2 e2) = of_Z k
                            /\ 0 <= k <= 99)
    by (apply percent_below_duration; assumption).
  split.
  - split.
    + intros E. injection E as E.
      destruct (le (Fin false m2 e2) (elapsed g)) eqn:L; [reflexivity|].
      destruct (Below eq_refl) as (k & Ek & R).
      rewrite Ek in E. change (mkFin false 100 0) with (of_Z 100) in E.
      apply of_Z_inj in E. lia.
    + intros L. f_equal. now apply percent_from_duration.
  - intros L. destruct (Below L) as (k & -> & R). eauto.
Qed.

Lemma progress_100_iff_duration_reached_witness :
  (chunk_percent (parseFloat "20.000000") "time=00:00:19.99"
   = Some (of_Z 100)
   <-> le (parseFloat "20.000000") (elapsed ("00", "00", "19.99")) = true)
  /\ (le (parseFloat "20.000000") (elapsed ("00", "00", "19.99")) = false ->
      exists k, chunk_percent (parseFloat "20.000000") "time=00:00:19.99"
                = Some (of_Z k) /\ 0 <= k <= 99).
Proof.
  apply (progress_100_iff_duration_reached (Examples.probe "20.000000" 0)
           (parseFloat "20.000000") "time=00:00:19.99" ("00", "00", "19.99"));
    try reflexivity.
  vm_compute. discriminate.
Defined.

(** ** Decimal numerals *)

Lemma digit_val_digits :
  digit_val "0" = 0 /\ digit_val "1" = 1 /\ digit_val "2" = 2
  /\ digit_val "3" = 3 /\ digit_val "4" = 4 /\ digit_val "5" = 5
  /\ digit_val "6" = 6 /\ digit_val "7" = 7 /\ digit_val "8" = 8
  /\ digit_val "9" = 9.
Proof. repeat split. Qed.

Lemma digits_value_acc (l : Decimal.uint) :
  forall acc : positive,
    digits_value (Zpos acc) (NilEmpty.string_of_uint l)
    = Zpos (Pos.of_uint_acc l acc).
Proof.
  destruct digit_val_digits
    as (V0 & V1 & V2 & V3 & V4 & V5 & V6 & V7 & V8 & V9).
  induction l; intros acc;
    cbn [NilEmpty.string_of_uint digits_value Pos.of_uint_acc];
    [reflexivity | rewrite <- IHl; f_equal ..];
    rewrite ?V0, ?V1, ?V2, ?V3, ?V4, ?V5, ?V6, ?V7, ?V8, ?V9; lia.
Qed.

Lemma digits_value_of_uint (d : Decimal.uint) :
  digits_value 0 (NilEmpty.string_of_uint d) = Z.of_N (Pos.of_uint d).
Proof.
  induction d; cbn [NilEmpty.string_of_uint digits_value Pos.of_uint];
    [reflexivity | exact IHd | apply (digits_value_acc d) ..].
Qed.

Lemma Z_to_string_pos (p : positive) :
  Z_to_string (Zpos p) = NilEmpty.string_of_uint (Pos.to_uint p).
Proof.
  unfold Z_to_string, Z.to_int, NilZero.string_of_int, NilZero.string_of_uint.
  pose proof (DecimalPos.Unsigned.to_uint_nonnil p) as N.
  destruct (Pos.to_uint p); [congruence | reflexivity ..].
Qed.

Lemma digits_value_Z_to_string (p : positive) :
  digits_value 0 (Z_to_string (Zpos p)) = Zpos p.
Proof.
  rewrite Z_to_string_pos, digits_value_of_uint, DecimalPos.Unsigned.of_to.
  reflexivity.
Qed.

Lemma string_of_uint_digits (d : Decimal.uint) :
  all_chars is_digit (NilEmpty.string_of_uint d) = true.
Proof. induction d; cbn [NilEmpty.string_of_uint all_chars]; auto. Qed.

(** The numeral of a positive integer starts with a digit other than
    [0]. *)
Lemma Z_to_string_head (p : positive) :
  exists c r, Z_to_string (Zpos p) = String c r
              /\ is_digit c = true /\ 1 <= digit_val c.
Proof.
  rewrite Z_to_string_pos.
  pose proof (DecimalPos.Unsigned.to_uint_nonnil p) as N.
  assert (H : forall u, Pos.to_uint p <> Decimal.D0 u).
  { intros u E.
    pose proof (DecimalPos.Unsigned.to_of (Pos.to_uint p)) as T.
    rewrite DecimalPos.Unsigned.of_to in T. cbn [N.to_uint] in T.
    rewrite E in T. unfold Decimal.unorm in T. cbn [Decimal.nzhead] in T.
    destruct (Decimal.nzhead u) eqn:Z; try discriminate T.
    - injection T as T. subst u.
      now apply (DecimalPos.Unsigned.to_uint_nonzero p).
    - now apply (DecimalFacts.nzhead_nonzero u u0). }
  destruct (Pos.to_uint p) eqn:E; [congruence | now contradiction (H u) | ..];
    cbn [NilEmpty.string_of_uint]; do 2 eexists;
    (split; [reflexivity | split; [reflexivity | cbv; discriminate]]).
Qed.

(** A string of [n] digits read after [acc] lies between [acc * 10^n]
    and [(acc + 1) * 10^n]. *)
Lemma digits_value_bounds (s : string) :
  all_chars is_digit s = true ->
  forall acc,
    acc * 10 ^ Z.of_nat (String.length s) <= digits_value acc s
    < (acc + 1) * 10 ^ Z.of_nat (String.length s).
Proof.
  induction s as [|c r IH]; intros A acc.
  - cbn [String.length digits_value]. change (10 ^ Z.of_nat 0) with 1. lia.
  - cbn [all_chars] in A. apply andb_true_iff in A as [Hc Hr].
    cbn [String.length digits_value].
    specialize (IH Hr (10 * acc + digit_val c)).
    assert (D : 0 <= digit_val c <= 9).
    { unfold is_digit in Hc. unfold digit_val.
      apply andb_true_iff in Hc as [L U].
      apply N.leb_le in L. apply N.leb_le in U. lia. }
    rewrite Nat2Z.inj_succ, Z.pow_succ_r by lia.
    assert (P : 0 < 10 ^ Z.of_nat (String.length r))
      by (apply Z.pow_pos_nonneg; lia).
    nia.
Qed.

(** The number of digits of a numeral. *)
Lemma Z_to_string_length (p : positive) (k : Z) :
  10 ^ (k - 1) <= Zpos p < 10 ^ k -> 1 <= k ->
  Z.of_nat (String.length (Z_to_string (Zpos p))) = k.
Proof.
  intros B K.
  destruct (Z_to_string_head p) as (c & r & E & Hc & H1).
  pose proof (digits_value_Z_to_string p) as V.
  assert (A : all_chars is_digit (Z_to_string (Zpos p)) = true)
    by (rewrite Z_to_string_pos; apply string_of_uint_digits).
  rewrite E in *. cbn [all_chars] in A. apply andb_true_iff in A as [_ Ar].
  cbn [digits_value String.length] in *.
  pose proof (digits_value_bounds r Ar (10 * 0 + digit_val c)) as Bd.
  rewrite V in Bd.
  assert (D : digit_val c <= 9).
  { unfold is_digit in Hc. unfold digit_val.
    apply andb_true_iff in Hc as [L U]. apply N.leb_le in U. lia. }
  set (n := Z.of_nat (String.length r)) in *.
  assert (Pn : 0 < 10 ^ n) by (apply Z.pow_pos_nonneg; lia).
  assert (Lo : 10 ^ n <= Zpos p) by nia.
  assert (Hi : Zpos p < 10 ^ (n + 1)) by (rewrite Z.pow_add_r by lia; nia).
  rewrite Nat2Z.inj_succ. fold n.
  assert (n < k) by (apply (Z.pow_lt_mono_r_iff 10); lia).
  assert (k - 1 < n + 1) by (apply (Z.pow_lt_mono_r_iff 10); lia).
  lia.
Qed.

Lemma string_of_revapp (l : Decimal.uint) :
  forall acc,
    NilEmpty.string_of_uint (Decimal.revapp l acc)
    = NilEmpty.string_of_uint (Decimal.rev l) +++ NilEmpty.string_of_uint acc.
Proof.
  unfold Decimal.rev.
  induction l; intros acc; cbn [Decimal.revapp]; [reflexivity | ..];
    rewrite IHl, (IHl (_ Decimal.Nil)), append_assoc; reflexivity.
Qed.

Lemma Z_to_string_tenfold (p : positive) :
  Z_to_string (Zpos (10 * p)) = Z_to_string (Zpos p) +++ "0".
Proof.
  rewrite !Z_to_string_pos. unfold Pos.to_uint.
  pose proof (DecimalPos.Unsigned.to_ldec_tenfold p) as T.
  change (Pos.to_little_uint (10 * p)
          = Decimal.D0 (Pos.to_little_uint p)) in T.
  rewrite T. unfold Decimal.rev at 1. cbn [Decimal.revapp].
  now rewrite string_of_revapp.
Qed.

Lemma zeros_snoc (z : nat) : String "0" (zeros z) = zeros z +++ "0".
Proof. induction z; cbn [zeros String.append]; congruence. Qed.

(** Appending zeros to a numeral multiplies by a power of ten. *)
Lemma Z_to_string_scaled (z : nat) :
  forall p : positive,
    Z_to_string (Zpos p * 10 ^ Z.of_nat z) = Z_to_string (Zpos p) +++ zeros z.
Proof.
  induction z as [|z IH]; intros p.
  - change (10 ^ Z.of_nat 0) with 1. rewrite Z.mul_1_r.
    cbn [zeros]. now rewrite append_empty_r.
  - rewrite Nat2Z.inj_succ, Z.pow_succ_r by lia.
    replace (Zpos p * (10 * 10 ^ Z.of_nat z))
      with (Zpos (10 * p) * 10 ^ Z.of_nat z) by lia.
    rewrite IH, Z_to_string_tenfold, append_assoc. reflexivity.
Qed.

(** ** Integers through [parseInt] and [String] *)

Lemma of_Z_exact (neg : bool) (p : positive) :
  Zpos p < 2 ^ 53 -> round_ratio neg p 1 0 = mkFin neg p 0.
Proof.
  intros H. apply round_exact; [exact H | unfold emin; lia|].
  assert (Z.log2 (Zpos p) < 53) by (apply Z.log2_lt_pow2; lia).
  unfold emax. lia.
Qed.

Lemma parseInt_numeral (p : positive) :
  Zpos p < 2 ^ 53 -> parseInt (Z_to_string (Zpos p)) = of_Z (Zpos p).
Proof.
  intros B.
  destruct (Z_to_string_head p) as (c & r & E & Hc & _).
  pose proof (digits_value_Z_to_string p) as V.
  assert (A : all_chars is_digit (Z_to_string (Zpos p)) = true)
    by (rewrite Z_to_string_pos; apply string_of_uint_digits).
  rewrite E in *. unfold parseInt.
  destruct (plain_prefix c r (digit_is_digit_or_dot c Hc)) as (-> & -> & _).
  rewrite <- (append_empty_r (String c r)) at 1.
  rewrite (span_run is_digit (String c r) "" A eq_refl).
  rewrite V. unfold int_to_number, round_dyadic.
  now apply of_Z_exact.
Qed.

Lemma number_eqb_eq (x y : number) : number_eqb x y = true <-> x = y.
Proof.
  split.
  - destruct x as [|a|a|a m1 e1], y as [|b|b|b m2 e2]; cbn [number_eqb];
      try discriminate; try reflexivity; intros H.
    + apply Bool.eqb_prop in H. now subst.
    + apply Bool.eqb_prop in H. now subst.
    + apply andb_true_iff in H as [H He]. apply andb_true_iff in H as [Hs Hm].
      apply Bool.eqb_prop in Hs. apply Pos.eqb_eq in Hm.
      apply Z.eqb_eq in He. now subst.
  - intros <-. destruct x as [|a|a|a m1 e1]; cbn [number_eqb];
      rewrite ?Bool.eqb_reflx, ?Pos.eqb_refl, ?Z.eqb_refl; reflexivity.
Qed.

Lemma number_eqb_of_Z (a b : Z) : number_eqb (of_Z a) (of_Z b) = (a =? b).
Proof.
  destruct (Z.eqb_spec a b) as [->|N].
  - now apply number_eqb_eq.
  - destruct (number_eqb (of_Z a) (of_Z b)) eqn:E; [|reflexivity].
    apply number_eqb_eq, of_Z_inj in E. contradiction.
Qed.

Lemma decimal_to_number_exact (c j : Z) :
  0 < c -> 0 <= j -> c * 10 ^ j < 2 ^ 53 ->
  decimal_to_number false c j = of_Z (c * 10 ^ j).
Proof.
  intros Hc Hj B. destruct c as [|q|q]; try lia.
  unfold decimal_to_number.
  assert (P : 0 < 10 ^ j) by (apply Z.pow_pos_nonneg; lia).
  destruct (Z.leb_spec 0 j); [|lia].
  assert (E : Zpos (q * Z.to_pos (10 ^ j)) = Zpos q * 10 ^ j)
    by (rewrite Pos2Z.inj_mul, Z2Pos.id by lia; reflexivity).
  rewrite of_Z_exact by (rewrite E; exact B).
  rewrite <- E. reflexivity.
Qed.

Lemma log2_ratio_1 (p : positive) : log2_ratio p 1 = Z.log2 (Zpos p).
Proof.
  unfold log2_ratio. change (Z.log2 1) with 0. rewrite Z.sub_0_r.
  pose proof (Z.log2_nonneg (Zpos p)) as N.
  pose proof (Z.log2_spec (Zpos p) ltac:(lia)) as [L _].
  destruct (Z.leb_spec 0 (Z.log2 (Zpos p))); [|lia].
  destruct (Z.leb_spec (1 * 2 ^ Z.log2 (Zpos p)) (Zpos p)); lia.
Qed.

(** The estimate of the decimal exponent is off by one at most. *)
Lemma estimate_bounds (l : Z) :
  0 <= l <= 52 ->
  let est := l * 30103 / 100000 + 1 in
  1 <= est /\ 10 ^ (est - 2) <= 2 ^ l /\ 2 ^ (l + 1) <= 10 ^ (est + 1).
Proof.
  intros H.
  assert (G : forall n : nat, (n <= 52)%nat ->
            let l := Z.of_nat n in
            let est := l * 30103 / 100000 + 1 in
            (1 <=? est) && (10 ^ (est - 2) <=? 2 ^ l)
            && (2 ^ (l + 1) <=? 10 ^ (est + 1)) = true).
  { intros n Hn.
    do 53 (destruct n as [|n]; [vm_compute; reflexivity|]). lia. }
  specialize (G (Z.to_nat l) ltac:(lia)). cbv zeta in G.
  rewrite Z2Nat.id in G by lia.
  apply andb_true_iff in G as [G G3]. apply andb_true_iff in G as [G1 G2].
  apply Z.leb_le in G1. apply Z.leb_le in G2. apply Z.leb_le in G3.
  cbv zeta. auto.
Qed.

Lemma decimal_exponent_integer (p : positive) :
  Zpos p < 2 ^ 53 ->
  let nd := decimal_exponent p 1 in
  1 <= nd /\ 10 ^ (nd - 1) <= Zpos p < 10 ^ nd.
Proof.
  intros B. unfold decimal_exponent. rewrite log2_ratio_1.
  pose proof (Z.log2_nonneg (Zpos p)) as N.
  pose proof (Z.log2_spec (Zpos p) ltac:(lia)) as [Lo Hi].
  assert (L52 : Z.log2 (Zpos p) < 53) by (apply Z.log2_lt_pow2; lia).
  destruct (estimate_bounds (Z.log2 (Zpos p)) ltac:(lia)) as (E1 & E2 & E3).
  cbv zeta in *.
  set (est := Z.log2 (Zpos p) * 30103 / 100000 + 1) in *.
  replace (Z.succ (Z.log2 (Zpos p))) with (Z.log2 (Zpos p) + 1) in Hi by lia.
  unfold below_pow10.
  destruct (Z.leb_spec 0 (est - 1)); [|lia].
  destruct (Z.leb_spec 0 est); [|lia].
  rewrite !Z.mul_1_r.
  destruct (Z.ltb_spec (Zpos p) (10 ^ (est - 1))) as [A|A].
  - assert (est <> 1) by (intros X; rewrite X in A; change (10 ^ (1 - 1)) with 1 in A; lia).
    replace (est - 1 - 1) with (est - 2) by lia. lia.
  - destruct (Z.ltb_spec (Zpos p) (10 ^ est)) as [C|C].
    + lia.
    + replace (est + 1 - 1) with est by lia. lia.
Qed.

Lemma shortest_digits_step (fuel : nat) (x : number) (num den n k : Z) :
  shortest_digits (S fuel) x num den n k
  = (let sc_num := if 0 <=? k - n then num * 10 ^ (k - n) else num in
     let sc_den := if 0 <=? k - n then den else den * 10 ^ (n - k) in
     let lo := sc_num / sc_den in
     let r := sc_num mod sc_den in
     let ok_lo := number_eqb (decimal_to_number false lo (n - k)) x in
     let ok_hi := number_eqb (decimal_to_number false (lo + 1) (n - k)) x in
     let pick s := if s =? 10 ^ k then (1, n + 1) else (s, n) in
     let nearest :=
       match 2 * r ?= sc_den with
       | Lt => lo
       | Gt => lo + 1
       | Eq => if Z.even lo then lo else lo + 1
       end in
     if ok_lo && ok_hi then pick nearest
     else if ok_lo then pick lo
     else if ok_hi then pick (lo + 1)
     else shortest_digits fuel x num den n (k + 1)).
Proof. reflexivity. Qed.

(** For an integer below [10^15] the digit search stops at the
    integer without its trailing zeros. *)
Lemma shortest_digits_integer (p : positive) (nd : Z) :
  Zpos p < 10 ^ 15 -> 1 <= nd -> 10 ^ (nd - 1) <= Zpos p < 10 ^ nd ->
  forall (fuel : nat) (k : Z),
    1 <= k <= nd -> nd - k < Z.of_nat fuel ->
    exists z, 0 <= z <= nd - k /\ Zpos p mod 10 ^ z = 0
              /\ shortest_digits fuel (of_Z (Zpos p)) (Zpos p) 1 nd k
                 = (Zpos p / 10 ^ z, nd).
Proof.
  intros B Hnd Bp.
  assert (N15 : nd <= 15).
  { destruct (Z_le_gt_dec nd 15) as [|G]; [assumption|exfalso].
    assert (10 ^ 15 <= 10 ^ (nd - 1)) by (apply Z.pow_le_mono_r; lia). lia. }
  induction fuel as [|fuel IH]; intros k Hk Hf; [lia|].
  rewrite shortest_digits_step. cbv zeta.
  set (j := nd - k).
  assert (Pj : 0 < 10 ^ j) by (apply Z.pow_pos_nonneg; lia).
  assert (Ej : 10 ^ j <= 10 ^ (nd - 1)) by (apply Z.pow_le_mono_r; lia).
  assert (J14 : 10 ^ j <= 10 ^ 14) by (apply Z.pow_le_mono_r; lia).
  assert (Sn : (if 0 <=? k - nd then Zpos p * 10 ^ (k - nd) else Zpos p) = Zpos p).
  { destruct (Z.leb_spec 0 (k - nd)); [|reflexivity].
    replace (k - nd) with 0 by lia. lia. }
  assert (Sd : (if 0 <=? k - nd then 1 else 1 * 10 ^ j) = 10 ^ j).
  { destruct (Z.leb_spec 0 (k - nd)); [|lia].
    unfold j. replace (nd - k) with 0 by lia. reflexivity. }
  rewrite Sn, Sd. fold j.
  pose proof (Z.div_mod (Zpos p) (10 ^ j) ltac:(lia)) as Dm.
  pose proof (Z.mod_pos_bound (Zpos p) (10 ^ j) Pj) as Mb.
  set (lo := Zpos p / 10 ^ j) in *.
  set (r := Zpos p mod 10 ^ j) in *.
  assert (Lo1 : 1 <= lo) by (apply Z.div_le_lower_bound; lia).
  assert (P53 : 10 ^ 15 + 10 ^ 14 < 2 ^ 53) by reflexivity.
  rewrite (decimal_to_number_exact lo j) by nia.
  rewrite (decimal_to_number_exact (lo + 1) j) by nia.
  rewrite !number_eqb_of_Z.
  assert (Hi : ((lo + 1) * 10 ^ j =? Zpos p) = false)
    by (apply Z.eqb_neq; nia).
  rewrite Hi, andb_false_r.
  destruct (Z.eqb_spec (lo * 10 ^ j) (Zpos p)) as [Eq|Ne].
  - exists j. split; [unfold j; lia|]. split; [nia|].
    assert (Lk : lo < 10 ^ k).
    { assert (X : 10 ^ nd = 10 ^ k * 10 ^ j)
        by (rewrite <- Z.pow_add_r by lia; f_equal; unfold j; lia).
      assert (Pk : 0 < 10 ^ k) by (apply Z.pow_pos_nonneg; lia).
      nia. }
    destruct (Z.eqb_spec lo (10 ^ k)); [lia | reflexivity].
  - assert (Kn : k < nd).
    { destruct (Z_lt_ge_dec k nd) as [|G]; [assumption|exfalso].
      apply Ne. unfold lo, j. replace (nd - k) with 0 by lia.
      change (10 ^ 0) with 1. rewrite Z.div_1_r. lia. }
    destruct (IH (k + 1) ltac:(lia) ltac:(lia)) as (z & Hz & Mz & R).
    exists z. split; [unfold j; lia|]. split; [exact Mz | exact R].
Qed.

Lemma of_Z_pos_shape (p : positive) :
  exists m e, of_Z (Zpos p) = Fin false m e
              /\ 0 <= e /\ Zpos p = Zpos m * 2 ^ e.
Proof.
  cbn [of_Z]. unfold mkFin.
  pose proof (strip_spec p 0) as (V & E & _).
  destruct (strip p 0) as [m e]. cbn [fst snd] in *.
  exists m, e. rewrite Z.sub_0_r in V. auto.
Qed.

(** [String(n)] of an integer [n] between 1 and [10^15] is its decimal
    numeral. *)
Lemma number_to_string_integer (p : positive) :
  Zpos p < 10 ^ 15 ->
  number_to_string (of_Z (Zpos p)) = Z_to_string (Zpos p).
Proof.
  intros B.
  assert (B53 : Zpos p < 2 ^ 53) by (change (2 ^ 53) with 9007199254740992;
                                     change (10 ^ 15) with 1000000000000000 in B;
                                     lia).
  destruct (of_Z_pos_shape p) as (m & e & E & He & V).
  pose proof (decimal_exponent_integer p B53) as (Hnd & Bp). cbv zeta in *.
  set (nd := decimal_exponent p 1) in *.
  destruct (shortest_digits_integer p nd B Hnd Bp 17%nat 1)
    as (z & Hz & Mz & R); [lia | |].
  { destruct (Z_le_gt_dec nd 15) as [|G]; [lia|exfalso].
    assert (10 ^ 15 <= 10 ^ (nd - 1)) by (apply Z.pow_le_mono_r; lia). lia. }
  rewrite E in R |- *. cbn [number_to_string].
  destruct (Z.leb_spec 0 e); [|lia].
  assert (Pe : 0 < 2 ^ e) by (apply Z.pow_pos_nonneg; lia).
  assert (Num : (m * Z.to_pos (2 ^ e))%positive = p).
  { apply Pos2Z.inj. rewrite Pos2Z.inj_mul, Z2Pos.id by lia. lia. }
  rewrite Num. fold nd. rewrite R. cbn [String.append].
  (* the digits and the zeros *)
  assert (Pz : 0 < 10 ^ z) by (apply Z.pow_pos_nonneg; lia).
  pose proof (Z.div_mod (Zpos p) (10 ^ z) ltac:(lia)) as Dm.
  rewrite Mz, Z.add_0_r in Dm.
  set (s := Zpos p / 10 ^ z) in *.
  assert (Ps : 0 < s) by nia.
  destruct s as [|q|q] eqn:Es; try lia.
  assert (Len : Z.of_nat (String.length (Z_to_string (Zpos q))) = nd - z).
  { apply Z_to_string_length; [|lia].
    assert (X : 10 ^ nd = 10 ^ (nd - z) * 10 ^ z)
      by (rewrite <- Z.pow_add_r by lia; f_equal; lia).
    assert (Y : 10 ^ (nd - 1) = 10 ^ (nd - z - 1) * 10 ^ z)
      by (rewrite <- Z.pow_add_r by lia; f_equal; lia).
    assert (P1 : 0 < 10 ^ (nd - z)) by (apply Z.pow_pos_nonneg; lia).
    assert (P2 : 0 < 10 ^ (nd - z - 1)) by (apply Z.pow_pos_nonneg; lia).
    rewrite X, Y in Bp. split; nia. }
  unfold format_digits. rewrite Len.
  assert (N21 : nd <= 21).
  { destruct (Z_le_gt_dec nd 21) as [|G]; [lia|exfalso].
    assert (10 ^ 15 <= 10 ^ (nd - 1)) by (apply Z.pow_le_mono_r; lia). lia. }
  destruct (Z.leb_spec (nd - z) nd); [|lia].
  destruct (Z.leb_spec nd 21); [|lia].
  cbn [andb]. replace (nd - (nd - z)) with z by lia.
  rewrite Dm. replace (10 ^ z * Zpos q) with (Zpos q * 10 ^ Z.of_nat (Z.to_nat z))
    by (rewrite Z2Nat.id by lia; lia).
  now rewrite Z_to_string_scaled.
Qed.

(** ** Integer parameters on the encoder's command line *)

Lemma numeral_facts (n : Z) :
  0 < n < 10 ^ 15 ->
  parseInt (Z_to_string n) = of_Z n
  /\ number_to_string (of_Z n) = Z_to_string n
  /\ truthy (of_Z n) = true
  /\ all_chars is_digit (Z_to_string n) = true
  /\ exists c r, Z_to_string n = String c r /\ is_digit c = true.
Proof.
  intros B. destruct n as [|p|p]; try lia.
  assert (B53 : Zpos p < 2 ^ 53)
    by (change (2 ^ 53) with 9007199254740992;
        change (10 ^ 15) with 1000000000000000 in B; lia).
  split; [now apply parseInt_numeral|].
  split; [apply number_to_string_integer; lia|].
  split.
  { destruct (of_Z_pos_shape p) as (m & e & -> & _). reflexivity. }
  split.
  { rewrite Z_to_string_pos. apply string_of_uint_digits. }
  destruct (Z_to_string_head p) as (c & r & E & Hc & _). eauto.
Qed.

Lemma get_fps_digits (req : Request) (c : ascii) (r : string) :
  fps_field req = Some (String c r) -> is_digit c = true ->
  get_fps req
  = (if truthy (parseInt (String c r)) then Some (parseInt (String c r))
     else None).
Proof.
  intros H Hc. unfold get_fps. rewrite H.
  destruct c as [[] [] [] [] [] [] [] []]; try discriminate Hc; reflexivity.
Qed.

(** X15.  A frame rate and a bitrate given as decimal integers
    between 1 and [10^15] reach the encoder as they were sent: the
    argument after [-r] and the argument after [-b:v] are the texts of
    the two fields, and the other arguments are the fixed options, the
    input path, the filter and the output path. *)
Theorem integer_fields_reach_encoder (req : Request) (f : UploadedFile)
  (env : Env) (r b : Z) :
  0 < r < 10 ^ 15 -> 0 < b < 10 ^ 15 ->
  fps_field req = Some (Z_to_string r) ->
  bitrate_field req = Some (Z_to_string b) ->
  get_fps req = Some (of_Z r)
  /\ get_bitrate req = of_Z b
  /\ ffmpeg_args req f env
     = ["-y"; "-i"; path f;
        "-r"; Z_to_string r;
        "-c:v"; "libx264"; "-b:v"; Z_to_string b;
        "-pix_fmt"; "yuv420p";
        "-vf"; vf (get_factor req);
        "-c:a"; "copy";
        "-movflags"; "faststart";
        outPath f env].
Proof.
  intros Br Bb Hr Hb.
  destruct (numeral_facts r Br) as (Pr & Sr & Tr & _ & cr & rr & Er & Dr).
  destruct (numeral_facts b Bb) as (Pb & Sb & _ & _ & cb & rb & Eb & _).
  assert (Gf : get_fps req = Some (of_Z r)).
  { rewrite Er in Hr. rewrite (get_fps_digits req cr rr Hr Dr).
    rewrite <- Er, Pr, Tr. reflexivity. }
  assert (Gb : get_bitrate req = of_Z b).
  { unfold get_bitrate. rewrite Hb. rewrite Eb at 1.
    cbn [or_default]. now rewrite <- Eb. }
  split; [exact Gf|]. split; [exact Gb|].
  unfold ffmpeg_args. rewrite Gf, Gb, Tr, Sr, Sb. reflexivity.
Qed.

Lemma integer_fields_reach_encoder_witness :
  get_fps (Examples.request None (Some "30") (Some "5000000"))
  = Some (of_Z 30)
  /\ get_bitrate (Examples.request None (Some "30") (Some "5000000"))
     = of_Z 5000000
  /\ ffmpeg_args (Examples.request None (Some "30") (Some "5000000"))
       Examples.clip Examples.good_run
     = ["-y"; "-i"; path Examples.clip;
        "-r"; Z_to_string 30;
        "-c:v"; "libx264"; "-b:v"; Z_to_string 5000000;
        "-pix_fmt"; "yuv420p";
        "-vf"; vf (get_factor
                     (Examples.request None (Some "30") (Some "5000000")));
        "-c:a"; "copy";
        "-movflags"; "faststart";
        outPath Examples.clip Examples.good_run].
Proof.
  apply (integer_fields_reach_encoder
           (Examples.request None (Some "30") (Some "5000000"))
           Examples.clip Examples.good_run 30 5000000);
    (reflexivity || (split; reflexivity)).
Defined.

Lemma digit_unreserved (c : ascii) :
  is_digit c = true -> is_uri_unreserved c = true.
Proof.
  intros H. unfold is_uri_unreserved. rewrite H.
  now rewrite orb_true_r.
Qed.

Lemma encodeURIComponent_digits (s : string) :
  all_chars is_digit s = true -> encodeURIComponent s = s.
Proof.
  induction s as [|c r IH]; cbn [all_chars encodeURIComponent];
    [reflexivity|].
  intros H. apply andb_true_iff in H as [Hc Hr].
  now rewrite (digit_unreserved c Hc), (IH Hr).
Qed.

(** X16.  With a clock between 1 and [10^15] milliseconds, the output
    name is the original base name, [_desq_], the decimal numeral of
    the clock and [.mp4]; the link ends with the encoded base name
    followed by the same [_desq_<numeral>.mp4]. *)
Theorem outBase_carries_time_stamp (req : Request) (f : UploadedFile)
  (env : Env) :
  0 < now env < 10 ^ 15 ->
  outBase f env
  = origName f +++ "_desq_" +++ Z_to_string (now env) +++ ".mp4"
  /\ publicUrl req f env
     = protocol req +++ "://"
       +++ match host req with Some h => h | None => "undefined" end
       +++ "/downloads/" +++ encodeURIComponent (origName f)
       +++ "_desq_" +++ Z_to_string (now env) +++ ".mp4".
Proof.
  intros B.
  destruct (numeral_facts (now env) B) as (_ & S & _ & D & _).
  assert (E : outBase f env
              = origName f +++ "_desq_" +++ Z_to_string (now env) +++ ".mp4")
    by (unfold outBase; now rewrite S).
  split; [exact E|].
  unfold publicUrl. rewrite E, !encodeURIComponent_append.
  now rewrite (encodeURIComponent_digits _ D).
Qed.

Lemma outBase_carries_time_stamp_witness :
  outBase Examples.clip Examples.good_run
  = origName Examples.clip +++ "_desq_"
    +++ Z_to_string (now Examples.good_run) +++ ".mp4"
  /\ publicUrl Examples.plain_request Examples.clip Examples.good_run
     = protocol Examples.plain_request +++ "://"
       +++ match host Examples.plain_request with
           | Some h => h
           | None => "undefined"
           end
       +++ "/downloads/" +++ encodeURIComponent (origName Examples.clip)
       +++ "_desq_" +++ Z_to_string (now Examples.good_run) +++ ".mp4".
Proof.
  apply (outBase_carries_time_stamp Examples.plain_request Examples.clip
           Examples.good_run).
  split; reflexivity.
Defined.

(** ** The elapsed time of a marker *)

Lemma strip_of_scaled (neg : bool) (P m : positive) (e : Z) :
  0 <= e -> Zpos P = Zpos m * 2 ^ e -> mkFin neg P 0 = mkFin neg m e.
Proof.
  intros He V. unfold mkFin.
  now rewrite (strip_scaled e He P m 0 V).
Qed.

Lemma log2_scaled_bound (m : positive) (e v : Z) :
  0 <= e -> Zpos m * 2 ^ e = v -> v < 2 ^ 53 ->
  Zpos m < 2 ^ 53 /\ Z.log2 (Zpos m) + e < emax.
Proof.
  intros He V B.
  assert (P : 0 < 2 ^ e) by (apply Z.pow_pos_nonneg; lia).
  assert (L : Z.log2 (Zpos m) + e < 53).
  { rewrite Z.add_comm, <- Z.log2_mul_pow2 by lia.
    apply Z.log2_lt_pow2; lia. }
  split; [nia | unfold emax; lia].
Qed.

(** Products and sums of non-negative integers below [2^53] are
    exact. *)
Lemma mul_of_Z (a b : Z) :
  0 <= a -> 0 <= b -> a * b < 2 ^ 53 ->
  mul (of_Z a) (of_Z b) = of_Z (a * b).
Proof.
  intros Ha Hb B.
  destruct a as [|p|p]; try lia; destruct b as [|q|q]; try lia.
  - reflexivity.
  - destruct (of_Z_pos_shape q) as (m & e & -> & _). reflexivity.
  - destruct (of_Z_pos_shape p) as (m & e & -> & _). reflexivity.
  - destruct (of_Z_pos_shape p) as (m1 & e1 & -> & He1 & V1).
    destruct (of_Z_pos_shape q) as (m2 & e2 & -> & He2 & V2).
    cbn [mul xorb]. unfold round_dyadic.
    assert (V : Zpos (p * q) = Zpos (m1 * m2) * 2 ^ (e1 + e2)).
    { rewrite !Pos2Z.inj_mul, Z.pow_add_r, V1, V2 by lia. ring. }
    destruct (log2_scaled_bound (m1 * m2) (e1 + e2) (Zpos p * Zpos q))
      as (Bm & Bl); [lia | rewrite <- V; reflexivity | exact B |].
    rewrite round_exact by (try assumption; unfold emin; lia).
    change (Zpos p * Zpos q) with (Zpos (p * q)). cbn [of_Z].
    symmetry. apply strip_of_scaled; [lia | exact V].
Qed.

Lemma add_of_Z (a b : Z) :
  0 <= a -> 0 <= b -> a + b < 2 ^ 53 ->
  add (of_Z a) (of_Z b) = of_Z (a + b).
Proof.
  intros Ha Hb B.
  destruct a as [|p|p]; try lia; destruct b as [|q|q]; try lia.
  - reflexivity.
  - destruct (of_Z_pos_shape q) as (m & e & E & _).
    cbn [of_Z Z.add] in *. rewrite E. reflexivity.
  - destruct (of_Z_pos_shape p) as (m & e & E & _).
    cbn [of_Z Z.add] in *. rewrite E. reflexivity.
  - destruct (of_Z_pos_shape p) as (m1 & e1 & -> & He1 & V1).
    destruct (of_Z_pos_shape q) as (m2 & e2 & -> & He2 & V2).
    cbn [add].
    set (e := Z.min e1 e2).
    assert (P1 : 0 < 2 ^ (e1 - e)) by (apply Z.pow_pos_nonneg; lia).
    assert (P2 : 0 < 2 ^ (e2 - e)) by (apply Z.pow_pos_nonneg; lia).
    assert (Pe : 0 < 2 ^ e) by (apply Z.pow_pos_nonneg; lia).
    assert (S : (Zpos m1 * 2 ^ (e1 - e) + Zpos m2 * 2 ^ (e2 - e)) * 2 ^ e
                = Zpos p + Zpos q).
    { rewrite Z.mul_add_distr_r, <- !Z.mul_assoc, <- !Z.pow_add_r by lia.
      replace (e1 - e + e) with e1 by lia.
      replace (e2 - e + e) with e2 by lia. lia. }
    destruct (Zpos m1 * 2 ^ (e1 - e) + Zpos m2 * 2 ^ (e2 - e))
      as [|P|P] eqn:Es; try lia.
    unfold round_dyadic.
    destruct (log2_scaled_bound P e (Zpos p + Zpos q))
      as (Bm & Bl); [lia | exact S | exact B |].
    rewrite round_exact by (try assumption; unfold emin; lia).
    change (Zpos p + Zpos q) with (Zpos (p + q)). cbn [of_Z].
    symmetry. apply strip_of_scaled; [lia|].
    rewrite Pos2Z.inj_add. lia.
Qed.

Lemma digits_value_nonneg (s : string) :
  all_chars is_digit s = true -> 0 <= digits_value 0 s.
Proof.
  intros A. pose proof (digits_value_bounds s A 0) as B. lia.
Qed.

Lemma span_digits (s : string) :
  all_chars is_digit s = true -> span is_digit s = (s, "").
Proof.
  intros A. rewrite <- (append_empty_r s) at 1.
  exact (span_run is_digit s "" A eq_refl).
Qed.

Lemma int_to_number_exact (v : Z) :
  0 <= v < 2 ^ 53 -> int_to_number false v = of_Z v.
Proof.
  intros B. destruct v as [|q|q]; try lia; [reflexivity|].
  unfold int_to_number, round_dyadic. apply of_Z_exact. lia.
Qed.

(** [parseInt] and [parseFloat] of a run of digits, leading zeros
    included. *)
Lemma parseInt_digits (s : string) :
  run_of is_digit s = true -> digits_value 0 s < 2 ^ 53 ->
  parseInt s = of_Z (digits_value 0 s).
Proof.
  intros R B. apply run_of_spec in R as (A & c & r & ->).
  pose proof (digits_value_nonneg _ A) as N.
  assert (Hc : is_digit c = true)
    by (cbn [all_chars] in A; now apply andb_true_iff in A as [Hc _]).
  unfold parseInt.
  destruct (plain_prefix c r (digit_is_digit_or_dot c Hc)) as (-> & -> & _).
  rewrite (span_digits _ A). apply int_to_number_exact. lia.
Qed.

Lemma parseFloat_digits (s : string) :
  run_of is_digit s = true -> digits_value 0 s < 2 ^ 53 ->
  parseFloat s = of_Z (digits_value 0 s).
Proof.
  intros R B. apply run_of_spec in R as (A & c & r & ->).
  pose proof (digits_value_nonneg _ A) as N.
  assert (Hc : is_digit c = true)
    by (cbn [all_chars] in A; now apply andb_true_iff in A as [Hc _]).
  unfold parseFloat.
  destruct (plain_prefix c r (digit_is_digit_or_dot c Hc)) as (-> & -> & ->).
  rewrite (span_digits _ A). cbn [exponent_part].
  destruct (digits_value 0 (String c r)) as [|q|q] eqn:V; try lia;
    [reflexivity|].
  rewrite (decimal_to_number_exact (Zpos q) 0) by (cbn; lia).
  now rewrite Z.mul_1_r.
Qed.

(** X17.  The hours and the minutes of a marker enter the elapsed
    time without rounding: with [H] and [M] the integers the two
    fields spell, the elapsed time is [3600*H + 60*M] plus the Number
    read from the seconds field; when that field is a run of digits
    spelling [S], it is the integer [3600*H + 60*M + S]. *)
Theorem elapsed_hours_minutes_exact (h m sec : string) :
  run_of is_digit h = true -> run_of is_digit m = true ->
  let H := digits_value 0 h in
  let M := digits_value 0 m in
  3600 * H + 60 * M < 2 ^ 53 ->
  elapsed (h, m, sec) = add (of_Z (3600 * H + 60 * M)) (parseFloat sec)
  /\ (run_of is_digit sec = true ->
      3600 * H + 60 * M + digits_value 0 sec < 2 ^ 53 ->
      elapsed (h, m, sec) = of_Z (3600 * H + 60 * M + digits_value 0 sec)).
Proof.
  intros Rh Rm H M B.
  pose proof (digits_value_nonneg h (proj1 (run_of_spec _ _ Rh))) as Nh.
  pose proof (digits_value_nonneg m (proj1 (run_of_spec _ _ Rm))) as Nm.
  fold H in Nh. fold M in Nm.
  assert (E : elapsed (h, m, sec)
              = add (of_Z (3600 * H + 60 * M)) (parseFloat sec)).
  { unfold elapsed.
    rewrite (parseInt_digits h Rh) by (fold H; lia).
    rewrite (parseInt_digits m Rm) by (fold M; lia).
    fold H M.
    rewrite (mul_of_Z H 3600), (mul_of_Z M 60) by lia.
    rewrite add_of_Z by lia.
    do 2 f_equal. lia. }
  split; [exact E|].
  intros Rs Bs.
  pose proof (digits_value_nonneg sec (proj1 (run_of_spec _ _ Rs))) as Ns.
  rewrite E, (parseFloat_digits sec Rs) by lia.
  apply add_of_Z; lia.
Qed.

Lemma elapsed_hours_minutes_exact_witness :
  elapsed ("01", "02", "03")
  = add (of_Z (3600 * digits_value 0 "01" + 60 * digits_value 0 "02"))
        (parseFloat "03")
  /\ elapsed ("01", "02", "03") = of_Z 3723.
Proof.
  destruct (elapsed_hours_minutes_exact "01" "02" "03"
              eq_refl eq_refl eq_refl) as [A B].
  split; [exact A | apply B; reflexivity].
Defined.

(** ** The scale factor in the filter text *)

(** X18.  A scale factor given as a decimal integer between 1 and
    [10^15] is the factor used, and the filter text carries its
    numeral: [scale=trunc(iw*<n>/2)*2:ih,setsar=1]. *)
Theorem integer_factor_in_filter (req : Request) (n : Z) :
  0 < n < 10 ^ 15 ->
  factor_field req = Some (Z_to_string n) ->
  get_factor req = of_Z n
  /\ vf (get_factor req)
     = "scale=trunc(iw*" +++ Z_to_string n +++ "/2)*2:ih,setsar=1".
Proof.
  intros B Hf.
  destruct (numeral_facts n B) as (_ & S & _ & A & c & r & E & _).
  assert (V : digits_value 0 (Z_to_string n) = n).
  { destruct n as [|p|p]; try lia. apply digits_value_Z_to_string. }
  assert (B53 : n < 2 ^ 53)
    by (change (2 ^ 53) with 9007199254740992;
        change (10 ^ 15) with 1000000000000000 in B; lia).
  assert (G : get_factor req = of_Z n).
  { unfold get_factor. rewrite Hf. rewrite E at 1. cbn [or_default].
    rewrite <- E.
    rewrite parseFloat_digits by (unfold run_of; rewrite ?A, ?V, ?E; auto).
    rewrite V, Math_max_of_Z. f_equal. lia. }
  split; [exact G|]. unfold vf. now rewrite G, S.
Qed.

Lemma integer_factor_in_filter_witness :
  get_factor (Examples.request (Some "2") None None) = of_Z 2
  /\ vf (get_factor (Examples.request (Some "2") None None))
     = "scale=trunc(iw*" +++ Z_to_string 2 +++ "/2)*2:ih,setsar=1".
Proof.
  apply (integer_factor_in_filter (Examples.request (Some "2") None None) 2);
    [split|]; reflexivity.
Defined.

(** ** The extension pattern *)

Lemma no_dot_append (s t : string) :
  no_dot (s +++ t) = no_dot s && no_dot t.
Proof.
  induction s as [|c r IH]; cbn [String.append no_dot]; [reflexivity|].
  now rewrite IH, andb_assoc.
Qed.

Lemma strip_extension_keeps (c : ascii) (r : string) :
  no_dot r = false ->
  strip_extension (String c r) = String c (strip_extension r).
Proof.
  intros H. cbn [strip_extension]. now rewrite H, andb_false_r.
Qed.

(** X19.  What [replace(/\.[^.]+$/, '')] does to a file name, case by
    case: a name that ends with a dot and a non-empty dot-free
    extension loses that dot and the extension, whatever comes before
    (other dots included); a name without any dot and a name that ends
    with a dot are kept whole. *)
Theorem strip_extension_cases (b e s : string) :
  (e <> "" -> no_dot e = true -> strip_extension (b +++ "." +++ e) = b)
  /\ (no_dot s = true -> strip_extension s = s)
  /\ strip_extension (s +++ ".") = s +++ ".".
Proof.
  split; [|split].
  - intros Ne Nd. induction b as [|c r IH].
    + cbn [String.append strip_extension is_dot].
      change (Ascii.eqb "." ".") with true.
      rewrite Nd. destruct e; [congruence | reflexivity].
    + change (String c r +++ "." +++ e) with (String c (r +++ "." +++ e)).
      rewrite strip_extension_keeps; [now rewrite IH|].
      rewrite no_dot_append. cbn [String.append no_dot is_dot].
      change (Ascii.eqb "." ".") with true. cbn [negb andb].
      apply andb_false_r.
  - induction s as [|c r IH]; [reflexivity|].
    cbn [no_dot strip_extension]. intros H.
    apply andb_true_iff in H as [Hc Hr].
    apply negb_true_iff in Hc. rewrite Hc. cbn [andb].
    now rewrite (IH Hr).
  - induction s as [|c r IH]; [reflexivity|].
    cbn [String.append]. rewrite strip_extension_keeps; [now rewrite IH|].
    rewrite no_dot_append. cbn [no_dot is_dot].
    change (Ascii.eqb "." ".") with true. cbn [negb andb].
    apply andb_false_r.
Qed.

Example strip_extension_examples :
  strip_extension "a.tar.gz" = "a.tar"
  /\ strip_extension "README" = "README"
  /\ strip_extension "take 1." = "take 1."
  /\ strip_extension ".bashrc" = "".
Proof. repeat split. Qed.

(** ** The lines of the response *)

Lemma no_line_feed_append (s t : string) :
  no_line_feed s = true -> no_line_feed t = true ->
  no_line_feed (s +++ t) = true.
Proof.
  unfold no_line_feed. intros A B. now rewrite all_chars_append, A, B.
Qed.

Lemma progress_line_one_line (v : number) : one_line (progress_line v).
Proof.
  exists ("progress:" +++ number_to_string v). split.
  - unfold progress_line. now rewrite append_assoc.
  - apply (no_line_feed_append "progress:"); [reflexivity|].
    apply number_to_string_no_line_feed.
Qed.

Lemma download_line_one_line (req : Request) (f : UploadedFile) (env : Env) :
  no_line_feed (protocol req) = true ->
  no_line_feed (match host req with Some h => h | None => "undefined" end)
  = true ->
  one_line (download_line (publicUrl req f env)).
Proof.
  intros Hp Hh. exists ("download:" +++ publicUrl req f env). split.
  - unfold download_line. now rewrite append_assoc.
  - apply (no_line_feed_append "download:"); [reflexivity|].
    unfold publicUrl.
    apply no_line_feed_append; [exact Hp|].
    apply (no_line_feed_append "://"); [reflexivity|].
    apply no_line_feed_append; [exact Hh|].
    apply (no_line_feed_append "/downloads/"); [reflexivity|].
    apply (url_safe_plain _ (encodeURIComponent_url_safe _)).
Qed.

Lemma terminal_lines_one_line (req : Request) (f : UploadedFile) (env : Env)
  (t : ChildEvent) :
  no_line_feed (protocol req) = true ->
  no_line_feed (match host req with Some h => h | None => "undefined" end)
  = true ->
  Forall one_line (terminal_lines (outcome_of req f env t)).
Proof.
  intros Hp Hh.
  assert (D : one_line status_done) by (exists "status:done"; now split).
  assert (E : one_line status_error) by (exists "status:error"; now split).
  destruct t as [d|d|[[|c|c]|]|]; cbn [outcome_of terminal_lines];
    repeat constructor; try assumption.
  now apply download_line_one_line.
Qed.

(** X20.  The body of the response is line-oriented: when the
    protocol and the host of the request hold no line feed, every chunk
    the handler writes is one line, a text without line feed followed
    by a line feed, whatever the client's file name and the encoder's
    output are. *)
Theorem response_is_line_oriented (req : Request) (env : Env)
  (fs : list string) :
  no_line_feed (protocol req) = true ->
  no_line_feed (match host req with Some h => h | None => "undefined" end)
  = true ->
  Forall one_line (body (res (upload req env fs))).
Proof.
  intros Hp Hh.
  assert (E : one_line status_error) by (exists "status:error"; now split).
  assert (P : forall vs, Forall one_line (map progress_line vs)).
  { intros vs. apply Forall_forall. intros s Hs.
    apply in_map_iff in Hs as (v & <- & _). apply progress_line_one_line. }
  destruct (upload_cases req env)
    as [Hf|[(f & Hf & Hm)|[(f & Hf & Hm & Hpr)
       |[(f & dur & Hf & Hm & Hpr & Hs)|(f & dur & Hf & Hm & Hpr & Hs)]]]].
  - pose proof (upload_no_file req env fs Hf) as O. observe O.
    rewrite Bd. now constructor.
  - pose proof (upload_mkdir_throws req f env fs Hf Hm) as O. observe O.
    rewrite Bd. now constructor.
  - pose proof (upload_probe_pending req f env fs Hf Hm Hpr) as O. observe O.
    rewrite Bd. constructor.
  - pose proof (upload_spawn_throws req f env fs dur Hf Hm Hpr Hs) as O.
    observe O. rewrite Bd. now constructor.
  - destruct (first_terminal (ffmpeg_events env)) as [t|] eqn:Ht.
    + pose proof (upload_encoder_ends req f env fs dur t Hf Hm Hpr Hs Ht) as O.
      observe O. rewrite Bd. apply Forall_app. split; [apply P|].
      now apply terminal_lines_one_line.
    + pose proof (upload_encoder_pending req f env fs dur Hf Hm Hpr Hs Ht) as O.
      observe O. rewrite Bd. apply P.
Qed.

Lemma response_is_line_oriented_witness :
  Forall one_line
    (body (res (upload Examples.plain_request Examples.good_run
                  Examples.disk))).
Proof.
  apply response_is_line_oriented; reflexivity.
Defined.

(* ================================================================== *)
(** * The progress formula and the output path, on the route *)
(* ================================================================== *)

(** ** The elapsed time of a marker *)

Lemma mul_comm (x y : number) : mul x y = mul y x.
Proof.
  destruct x as [|a|a|a m1 e1], y as [|b|b|b m2 e2]; cbn [mul];
    rewrite ?(xorb_comm a b); try reflexivity.
  now rewrite Pos.mul_comm, Z.add_comm.
Qed.

(** The source's sum is the specification's, the factors swapped. *)
Lemma elapsed_spec (h m sec : string) :
  elapsed (h, m, sec)
  = spec_elapsed (parseInt h) (parseInt m) (parseFloat sec).
Proof.
  unfold elapsed, spec_elapsed.
  now rewrite (mul_comm (parseInt h)), (mul_comm (parseInt m)).
Qed.

Lemma span_all (p : ascii -> bool) (s : string) :
  all_chars p (fst (span p s)) = true.
Proof.
  induction s as [|c r IH]; cbn [span]; [reflexivity|].
  destruct (p c) eqn:P; [|reflexivity].
  destruct (span p r) as [a b]. cbn [fst all_chars] in *. now rewrite P.
Qed.

(** The groups of a match are runs: digits, digits, digits and dots. *)
Lemma match_time_here_runs (s h m sec : string) :
  match_time_here s = Some (h, m, sec) ->
  run_of is_digit h = true /\ run_of is_digit m = true
  /\ run_of is_digit_or_dot sec = true.
Proof.
  unfold match_time_here.
  destruct (starts_with "time=" s) as [r|]; [|discriminate].
  pose proof (span_all is_digit r) as A1.
  destruct (span is_digit r) as [h' r1].
  destruct h' as [|ch h']; [discriminate|].
  destruct r1 as [|c1 r2]; [discriminate|].
  destruct c1 as [[] [] [] [] [] [] [] []]; try discriminate.
  pose proof (span_all is_digit r2) as A2.
  destruct (span is_digit r2) as [m' r3].
  destruct m' as [|cm m']; [discriminate|].
  destruct r3 as [|c3 r4]; [discriminate|].
  destruct c3 as [[] [] [] [] [] [] [] []]; try discriminate.
  pose proof (span_all is_digit_or_dot r4) as A3.
  destruct (span is_digit_or_dot r4) as [sec' r5].
  destruct sec' as [|cs sec']; [discriminate|].
  intros [= <- <- <-]. cbn [fst] in A1, A2, A3.
  unfold run_of. now rewrite A1, A2, A3.
Qed.

Lemma match_time_runs (s h m sec : string) :
  match_time s = Some (h, m, sec) ->
  run_of is_digit h = true /\ run_of is_digit m = true
  /\ run_of is_digit_or_dot sec = true.
Proof.
  induction s as [|c r IH]; cbn [match_time].
  - destruct (match_time_here "") as [[[? ?] ?]|] eqn:E; [|discriminate].
    intros [= <- <- <-]. eapply match_time_here_runs, E.
  - destruct (match_time_here (String c r)) as [[[? ?] ?]|] eqn:E; [|exact IH].
    intros [= <- <- <-]. eapply match_time_here_runs, E.
Qed.

(** With [H] and [M] the integers the first two fields spell, the
    specification's sum is [3600*H + 60*M] plus the seconds. *)
Lemma spec_elapsed_exact (h m sec : string) :
  run_of is_digit h = true -> run_of is_digit m = true ->
  3600 * digits_value 0 h + 60 * digits_value 0 m < 2 ^ 53 ->
  parseInt h = of_Z (digits_value 0 h)
  /\ parseInt m = of_Z (digits_value 0 m)
  /\ spec_elapsed (parseInt h) (parseInt m) (parseFloat sec)
     = add (of_Z (3600 * digits_value 0 h + 60 * digits_value 0 m))
           (parseFloat sec).
Proof.
  intros Rh Rm B.
  pose proof (digits_value_nonneg h (proj1 (run_of_spec _ _ Rh))) as Nh.
  pose proof (digits_value_nonneg m (proj1 (run_of_spec _ _ Rm))) as Nm.
  assert (Eh : parseInt h = of_Z (digits_value 0 h))
    by (apply (parseInt_digits h Rh); lia).
  assert (Em : parseInt m = of_Z (digits_value 0 m))
    by (apply (parseInt_digits m Rm); lia).
  split; [exact Eh|]. split; [exact Em|].
  unfold spec_elapsed. rewrite Eh, Em.
  rewrite (mul_of_Z 3600 (digits_value 0 h)) by lia.
  rewrite (mul_of_Z 60 (digits_value 0 m)) by lia.
  now rewrite add_of_Z by lia.
Qed.

(** ** One more chunk *)

Lemma first_terminal_snoc (evs : list ChildEvent) (buf : string) :
  first_terminal evs = None ->
  first_terminal (evs ++ [Stderr buf]) = None.
Proof.
  induction evs as [|ev evs IH]; cbn [app first_terminal]; [reflexivity|].
  destruct (is_terminal ev); [discriminate | exact IH].
Qed.

Lemma stderr_chunks_snoc (evs : list ChildEvent) (buf : string) :
  stderr_chunks (evs ++ [Stderr buf]) = stderr_chunks evs ++ [buf].
Proof.
  induction evs as [|ev evs IH]; [reflexivity|].
  destruct ev; cbn [app stderr_chunks]; now rewrite IH.
Qed.

(** The listener signals the percentage of a further chunk when it
    differs from the one it signaled last. *)
Lemma signaled_snoc (dur : number) (pre : list string) (buf : string)
  (pct : number) :
  chunk_percent dur buf = Some pct -> is_percentage pct ->
  signaled dur (pre ++ [buf])
  = signaled dur pre
    ++ (if differs_from_last pct (signaled dur pre) then [pct] else []).
Proof.
  intros C R.
  unfold signaled. rewrite signaled_from_app. f_equal.
  cbn [signaled_from]. rewrite C.
  unfold final_pct, differs_from_last.
  destruct (last_signaled (signaled_from dur (of_Z (-1)) pre)) as [v|] eqn:L.
  - apply last_signaled_In in L.
    destruct (signaled_from_source _ _ _ _ L) as (b & _ & Cb).
    assert (V : v = NaN \/ exists k, v = of_Z k).
    { destruct (chunk_percent_cases dur b v Cb) as [-> | (k & -> & _)];
        [now left | right; now exists k]. }
    destruct (strict_neq_percentage _ v R V) as [-> _]. reflexivity.
  - destruct R as (n & -> & Rn). rewrite strict_neq_of_Z.
    destruct (Z.eqb_spec n (-1)); [lia | reflexivity].
Qed.

(** The body of the response while the encoder runs. *)
Lemma upload_running_body (req : Request) (f : UploadedFile) (env : Env)
  (fs : list string) (dur : number) (evs : list ChildEvent) :
  file req = Some f -> mkdir_throws env = false ->
  probeDuration (probe_events env) = Some dur ->
  spawn_throws (ffmpeg_args req f env) = false ->
  first_terminal evs = None ->
  body (res (upload req (with_ffmpeg_events env evs) fs))
  = map progress_line (signaled dur (stderr_chunks evs)).
Proof.
  intros F M P S T.
  pose proof (upload_encoder_pending req f (with_ffmpeg_events env evs) fs
                dur F M P S T) as O.
  observe O. exact Bd.
Qed.



(** The run of the witness, computed: one minute and two seconds and a
    half out of 250 seconds are 25 percent, written after 2 and 4. *)
Example progress_of_a_marker :
  elapsed ("00", "01", "02.50") = div (of_Z 125) (of_Z 2)
  /\ spec_percent (elapsed ("00", "01", "02.50")) (of_Z 250) = of_Z 25
  /\ body (res (upload Examples.plain_request
                  (Examples.environment (Examples.probe "250.0" 0)
                     [Stderr "time=00:00:05.00"; Stdout "x";
                      Stderr "time=00:00:10.20";
                      Stderr "frame= 7 time=00:01:02.50 bitrate=1k";
                      Stderr "time=00:01:03.00"])
                  Examples.disk))
     = [progress_line (of_Z 2); progress_line (of_Z 4);
        progress_line (of_Z 25)].
Proof. repeat split; vm_compute; reflexivity. Qed.

(** ** The name the handler is given *)

Lemma no_separator_append (s t : string) :
  no_separator (s +++ t) = no_separator s && no_separator t.
Proof. apply all_chars_append. Qed.

(** What [after_separators] returns: with [d] the text read up to the
    last separator and [a] the text read since, the rest of the
    declared name is cut after its last separator. *)
Lemma after_separators_spec (s : string) :
  forall d a,
    no_separator a = true ->
    exists d',
      d +++ a +++ s = d' +++ after_separators (a +++ s) s
      /\ no_separator (after_separators (a +++ s) s) = true
      /\ (d' = d
          \/ exists x c, d' = x +++ String c "" /\ is_separator c = true).
Proof.
  induction s as [|c r IH]; intros d a Na; cbn [after_separators].
  - exists d. rewrite append_empty_r. auto.
  - destruct (is_separator c) eqn:Sc.
    + destruct (IH ((d +++ a) +++ String c "") "" eq_refl)
        as (d' & E & Nr & Hd).
      cbn [String.append] in E, Nr. exists d'.
      split; [|split; [exact Nr|]].
      * rewrite <- E, !append_assoc. reflexivity.
      * right. destruct Hd as [-> | Hd]; [|exact Hd].
        exists (d +++ a), c. auto.
    + destruct (IH d (a +++ String c "")) as (d' & E & Nr & Hd).
      { rewrite no_separator_append, Na. cbn [no_separator all_chars].
        now rewrite Sc. }
      rewrite !append_assoc in E, Nr. cbn [String.append] in E, Nr.
      exists d'. auto.
Qed.

(** A base name is the end of the declared name, after its last
    separator, and holds none. *)
Lemma basename_spec (p : string) :
  no_separator (basename p) = true
  /\ (basename p <> "" ->
      exists dir,
        p = dir +++ basename p
        /\ (dir = ""
            \/ exists x c, dir = x +++ String c ""
                           /\ is_separator c = true)).
Proof.
  destruct (after_separators_spec p "" "" eq_refl) as (d' & E & Nr & Hd).
  cbn [String.append] in E, Nr. unfold basename.
  destruct ((after_separators p p =? "..") || (after_separators p p =? "."))%string.
  - split; [reflexivity|]. intros X. now exfalso.
  - split; [exact Nr|]. intros _. exists d'. auto.
Qed.

Lemma no_separator_no_slash (s : string) :
  no_separator s = true -> no_slash s = true.
Proof.
  unfold no_separator, no_slash.
  induction s as [|c r IH]; cbn [all_chars]; [reflexivity|].
  intros H. apply andb_true_iff in H as [Hc Hr].
  rewrite (IH Hr), andb_true_r.
  unfold is_separator in Hc. unfold is_slash.
  now destruct (Ascii.eqb c "/").
Qed.

(** The file the middleware hands to the handler: the one named file
    part of the form, sent under the field asked for, with the base
    name of the name the client declared. *)
Lemma multer_single_handed (field : string) (sub : Submission)
  (req : Request) (f : UploadedFile) :
  multer_single field sub = Handed req -> file req = Some f ->
  exists part,
    In part (file_parts sub) /\ fieldname part = field
    /\ path f = stored_at part
    /\ originalname f = basename (filename part)
    /\ originalname f <> "".
Proof.
  unfold multer_single.
  destruct (multipart sub); [|intros [= <-]; discriminate].
  destruct (named_parts (file_parts sub)) as [|p [|q l]] eqn:Np;
    [intros [= <-]; discriminate | | discriminate].
  destruct (String.eqb_spec (fieldname p) field) as [E|E]; [|discriminate].
  intros [= <-]. cbn [file hand_over]. intros [= <-].
  assert (I : In p (named_parts (file_parts sub)))
    by (rewrite Np; now left).
  apply filter_In in I as [I Ne].
  exists p. cbn [path originalname]. repeat split; try assumption.
  intros X. rewrite X in Ne. discriminate Ne.
Qed.

(** The output path of a file the middleware handed over. *)
Lemma handed_outPath (sub : Submission) (req : Request) (f : UploadedFile)
  (env : Env) (segs : list string) :
  multer_single "file" sub = Handed req -> file req = Some f ->
  normal_absolute (dirname env) segs ->
  downloadsDir env = String "/" (join_slash (segs ++ ["downloads"]))
  /\ outPath f env = downloadsDir env +++ "/" +++ outBase f env
  /\ plain_segment (outBase f env) = true.
Proof.
  intros D F Hd.
  destruct (multer_single_handed _ _ _ _ D F) as (part & _ & _ & _ & E & _).
  assert (N : no_slash (originalname f) = true).
  { rewrite E. apply no_separator_no_slash, basename_spec. }
  destruct (path_join_plain (dirname env) "downloads" segs Hd eq_refl)
    as [Ed Nd].
  change (path_join (dirname env) "downloads") with (downloadsDir env) in *.
  pose proof (outBase_plain f env N) as Pb.
  destruct (path_join_plain (downloadsDir env) (outBase f env)
              (segs ++ ["downloads"]) Nd Pb) as [Eo _].
  change (path_join (downloadsDir env) (outBase f env))
    with (outPath f env) in Eo.
  split; [exact Ed|]. split; [|exact Pb].
  rewrite Eo, Ed.
  rewrite join_slash_snoc by (destruct segs; discriminate).
  cbn [String.append]. reflexivity.
Qed.

(** C10, as stated, fails in its conclusion: the handler is never
    given the file name the client declared.  The upload middleware
    cuts it after its last [/] or [\] first, so a name such as
    [../../etc/x.mp4] arrives as [x.mp4], and whatever a client
    declares the output file is an entry of the downloads directory. *)
Lemma output_path_counterexample :
  (let given := {| path := "/tmp/desq_uploads/77aa";
                   originalname := "x.mp4" |} in
   multer_single "file" Examples.climbing_name
   = Handed (hand_over Examples.climbing_name (Some given))
   /\ downloadsDir Examples.good_run = "/srv/app/downloads"
   /\ outPath given Examples.good_run
      = "/srv/app/downloads/x_desq_1700000000000.mp4")
  /\ (forall sub req f env segs,
        multer_single "file" sub = Handed req -> file req = Some f ->
        normal_absolute (dirname env) segs ->
        outPath f env = downloadsDir env +++ "/" +++ outBase f env
        /\ plain_segment (outBase f env) = true).
Proof.
  split; [cbv zeta; repeat split; vm_compute; reflexivity|].
  intros sub req f env segs D F Hd.
  now destruct (handed_outPath sub req f env segs D F Hd) as (_ & A & B).
Qed.

(** C10, amended.  The handler builds the output name from the
    original name it is given by removing a final dot-extension and
    nothing else: the original name is [origName] followed by nothing
    or by one dot and a dot-free text, and every other character stays
    in [<base>_desq_<timestamp>.mp4], which is joined onto the
    downloads directory.  The original name is not the name the client
    declared but its base name, the text after its last [/] or [\]: it
    holds no separator, so the output name is a plain entry name and
    the output path is the downloads directory, [/], and that name. *)
Theorem output_name_keeps_base_name
  (sub : Submission) (req : Request) (f : UploadedFile) (env : Env)
  (segs : list string) :
  multer_single "file" sub = Handed req -> file req = Some f ->
  normal_absolute (dirname env) segs ->
  (exists part dir,
     In part (file_parts sub) /\ path f = stored_at part
     /\ originalname f = basename (filename part)
     /\ filename part = dir +++ originalname f
     /\ (dir = ""
         \/ exists x c, dir = x +++ String c "" /\ is_separator c = true))
  /\ no_separator (originalname f) = true
  /\ (exists ext,
        originalname f = origName f +++ ext
        /\ (ext = ""
            \/ exists e, ext = String "." e /\ e <> "" /\ no_dot e = true))
  /\ outBase f env
     = origName f +++ "_desq_" +++ number_to_string (of_Z (now env)) +++ ".mp4"
  /\ downloadsDir env = String "/" (join_slash (segs ++ ["downloads"]))
  /\ outPath f env = downloadsDir env +++ "/" +++ outBase f env
  /\ plain_segment (outBase f env) = true.
Proof.
  intros D F Hd.
  destruct (multer_single_handed _ _ _ _ D F)
    as (part & I & _ & Ep & Eo & Ne).
  destruct (basename_spec (filename part)) as [Ns Hdir].
  rewrite <- Eo in Ns, Hdir. destruct (Hdir Ne) as (dir & Ed & Hs).
  split; [exists part, dir; auto|].
  split; [exact Ns|].
  split; [apply strip_extension_spec|].
  split; [reflexivity|].
  exact (handed_outPath sub req f env segs D F Hd).
Qed.

Lemma output_name_keeps_base_name_witness :
  let given := {| path := "/tmp/desq_uploads/77aa";
                  originalname := "x.mp4" |} in
  let req := hand_over Examples.climbing_name (Some given) in
  let env := Examples.good_run in
  (exists part dir,
     In part (file_parts Examples.climbing_name)
     /\ path given = stored_at part
     /\ originalname given = basename (filename part)
     /\ filename part = dir +++ originalname given
     /\ (dir = ""
         \/ exists x c, dir = x +++ String c "" /\ is_separator c = true))
  /\ no_separator (originalname given) = true
  /\ (exists ext,
        originalname given = origName given +++ ext
        /\ (ext = ""
            \/ exists e, ext = String "." e /\ e <> "" /\ no_dot e = true))
  /\ outBase given env
     = origName given +++ "_desq_" +++ number_to_string (of_Z (now env))
       +++ ".mp4"
  /\ downloadsDir env
     = String "/" (join_slash (["srv"; "app"] ++ ["downloads"]))
  /\ outPath given env = downloadsDir env +++ "/" +++ outBase given env
  /\ plain_segment (outBase given env) = true.
Proof.
  cbv zeta.
  apply (output_name_keeps_base_name Examples.climbing_name
           (hand_over Examples.climbing_name
              (Some {| path := "/tmp/desq_uploads/77aa";
                       originalname := "x.mp4" |}))
           {| path := "/tmp/desq_uploads/77aa"; originalname := "x.mp4" |}
           Examples.good_run ["srv"; "app"]);
    [reflexivity | reflexivity | split; reflexivity].
Defined.

(** Base names: the directories go, a backslash separates as a slash
    does, and [.] and [..] leave nothing. *)
Example basename_examples :
  basename "../../etc/x.mp4" = "x.mp4"
  /\ basename "C:\Users\me\clip.final.mov" = "clip.final.mov"
  /\ basename "clip.mov" = "clip.mov"
  /\ basename "a/.." = ""
  /\ basename "dir/" = "".
Proof. repeat split; reflexivity. Qed.
